(** * flip7calculator: icon variant generator

    A shallow embedding of [icon/generate_icon_variants.py] and the proofs of
    its specified properties.

    The script works on Python [int]s (unbounded, modelled as [Z]) and Python
    [float]s (IEEE-754 binary64, modelled as Rocq's primitive [float], whose
    operations round to nearest, ties to even, exactly as CPython's do).
    Images are Pillow RGB images: a size and a pixel-access function. *)

From Stdlib Require Import ZArith List Bool Lia Reals Lra Psatz.
From Stdlib Require Import Uint63 PrimFloat SpecFloat FloatOps FloatAxioms.
From Stdlib Require String Ascii DecimalString.
Import ListNotations.

#[local] Open Scope Z_scope.
#[local] Set Warnings "-inexact-float".

(** ** Python numbers *)

Module Py.

(** [float(n)] for an [int] [n]: the nearest binary64 (exact below 2^53). *)
Definition float_of_int (z : Z) : float :=
  if z <? 0 then PrimFloat.opp (PrimFloat.of_uint63 (Uint63.of_Z (- z)))
  else PrimFloat.of_uint63 (Uint63.of_Z z).

(** The integer part of [m * 2^e] and what is left of it, for [m > 0]:
    quotient and remainder by [2^(-e)] when [e < 0]. *)
Definition int_part (m : positive) (e : Z) : Z :=
  if 0 <=? e then Z.pos m * 2 ^ e else Z.pos m / 2 ^ (- e).

Definition frac_cmp_half (m : positive) (e : Z) : comparison :=
  if 0 <=? e then Lt else (2 * (Z.pos m mod 2 ^ (- e))) ?= 2 ^ (- e).

Definition SFtrunc (x : spec_float) : Z :=
  match x with
  | S754_finite s m e => if s then - int_part m e else int_part m e
  | _ => 0
  end.

Definition SFround (x : spec_float) : Z :=
  match x with
  | S754_finite s m e =>
      let q := int_part m e in
      let a := match frac_cmp_half m e with
               | Lt => q
               | Gt => q + 1
               | Eq => if Z.even q then q else q + 1
               end in
      if s then - a else a
  | _ => 0
  end.

(** [int(x)] truncates toward zero; [round(x)] (one argument) rounds to the
    nearest integer, ties to the even one.  On an infinity or a NaN Python
    raises; this model yields 0 there. *)
Definition int (x : float) : Z := SFtrunc (Prim2SF x).
Definition round (x : float) : Z := SFround (Prim2SF x).

(** [min(a, b)] and [max(a, b)] on floats keep the first argument unless
    the second is strictly smaller (larger). *)
Definition fmin (a b : float) : float := if PrimFloat.ltb b a then b else a.
Definition fmax (a b : float) : float := if PrimFloat.ltb a b then b else a.

(** [a / b] on floats raises [ZeroDivisionError] when [b] is zero. *)
Definition truediv (a b : float) : option float :=
  if PrimFloat.eqb b 0%float then None else Some (PrimFloat.div a b).

(** [range(n)] *)
Definition range (n : Z) : list Z := map Z.of_nat (seq 0 (Z.to_nat n)).

(** [for i in l: s = body(i, s)] *)
Definition for_each {S : Type} (l : list Z) (body : Z -> S -> S) (s : S) : S :=
  fold_left (fun acc i => body i acc) l s.

End Py.

(** A raised exception is [None]; it propagates through the statements
    that follow. *)
Notation "x <- c ;; k" := (match c with Some x => k | None => None end)
  (at level 61, c at next level, right associativity).
Notation "' p <- c ;; k" := (match c with Some p => k | None => None end)
  (at level 61, p pattern, c at next level, right associativity).

(** ** Pixels and the classification heuristics *)

Definition pixel : Type := (Z * Z * Z)%type.

Definition TARGET_SIZE : Z := 1024.
Definition CROP_SAT_THRESH : float := 0.035%float.
Definition CROP_LUM_THRESH : float := 220.0%float.
Definition CROP_INSET_PERCENT : float := 6.0%float.
Definition CROP_DOWNSCALE_MAX : Z := 700.

Definition _luminance (r g b : Z) : float :=
  (0.299 * Py.float_of_int r + 0.587 * Py.float_of_int g
   + 0.114 * Py.float_of_int b)%float.

Definition _is_orange_accent (r g b : Z) : bool :=
  (170 <? r) && (80 <? g) && (b <? 140) && (80 <? r - b).

Definition is_foreground_pixel (r g b : Z) : bool :=
  let lum := _luminance r g b in
  if _is_orange_accent r g b then true
  else PrimFloat.ltb lum (Py.float_of_int 205).

(** The test of the cropper's scan (lines 96-102): saturated, or dark. *)
Definition of_interest (sat_thresh lum_thresh : float) (p : pixel) : bool :=
  let '(r, g, b) := p in
  let lum := _luminance r g b in
  let max_c := Z.max (Z.max r g) b in
  let min_c := Z.min (Z.min r g) b in
  let sat := if 0 <? max_c
             then (Py.float_of_int (max_c - min_c) / 255.0)%float
             else 0.0%float in
  PrimFloat.ltb sat_thresh sat || PrimFloat.ltb lum lum_thresh.

(** ** Pillow images

    An RGB image is its size and its pixel access ([Image.load()]), read
    inside [0 <= x < width], [0 <= y < height].  The operations below follow
    Pillow's documented behaviour; the resampling filters are left abstract
    (the variable [resample] of the sections that use [PIL.resize]). *)

Record Image : Type := mkImage { width : Z; height : Z; load : Z -> Z -> pixel }.

Inductive Resampling : Type := BILINEAR | LANCZOS.

Definition Filter : Type := Resampling -> Image -> Z -> Z -> Z -> Z -> pixel.

Module PIL.

Definition size (im : Image) : Z * Z := (width im, height im).

(** [Image.new("RGB", (w, h), color)] *)
Definition new (w h : Z) (color : pixel) : Image :=
  mkImage w h (fun _ _ => color).

(** [pixels[x, y] = c] *)
Definition putpixel (im : Image) (x y : Z) (c : pixel) : Image :=
  mkImage (width im) (height im)
    (fun x' y' => if (x' =? x) && (y' =? y) then c else load im x' y').

(** [im.convert("RGB")] of an RGB image: a copy. *)
Definition convert_RGB (im : Image) : Image := im.

(** [im.crop((l, t, r, b))]: Pillow raises [ValueError] when [r < l] or
    [b < t]; what lies outside the source reads black.  The size check that
    [crop] makes on its box before it copies is [crop_bomb_check] below: it
    passes for every box inside an image that has passed it. *)
Definition crop (im : Image) (box : Z * Z * Z * Z) : option Image :=
  let '(l, t, r, b) := box in
  if (r <? l) || (b <? t) then None
  else Some (mkImage (r - l) (b - t)
               (fun x y =>
                  let sx := x + l in
                  let sy := y + t in
                  if (0 <=? sx) && (sx <? width im) && (0 <=? sy) && (sy <? height im)
                  then load im sx sy else (0, 0, 0))).

(** [Image.MAX_IMAGE_PIXELS], [int(1024 * 1024 * 1024 // 4 // 3)] *)
Definition MAX_IMAGE_PIXELS : Z := 1024 * 1024 * 1024 / 4 / 3.

(** [Image._decompression_bomb_check(size)]: [DecompressionBombError]
    above twice the limit (from the limit to twice the limit, a warning). *)
Definition _decompression_bomb_check (size : Z * Z) : option unit :=
  let pixels := Z.max 1 (fst size) * Z.max 1 (snd size) in
  if 2 * MAX_IMAGE_PIXELS <? pixels then None else Some tt.

(** The check of [Image._crop], made by [im.crop(box)] on the size of its
    box. *)
Definition crop_bomb_check (box : Z * Z * Z * Z) : option unit :=
  let '(x0, y0, x1, y1) := box in
  _decompression_bomb_check (Z.abs (x1 - x0), Z.abs (y1 - y0)).

(** [base.paste(im, (ox, oy))] *)
Definition paste (base im : Image) (ox oy : Z) : Image :=
  mkImage (width base) (height base)
    (fun x y =>
       if (ox <=? x) && (x <? ox + width im) && (oy <=? y) && (y <? oy + height im)
       then load im (x - ox) (y - oy) else load base x y).

(** [ImageDraw.Draw(im).line([(x0, y), (x1, y)], fill=c)]: a horizontal
    line, both ends included, clipped to the image. *)
Definition draw_hline (im : Image) (x0 x1 y : Z) (c : pixel) : Image :=
  mkImage (width im) (height im)
    (fun x' y' => if (y' =? y) && (x0 <=? x') && (x' <=? x1) then c else load im x' y').

(** [im.resize((sw, sh), f)]: the result has the size asked for; asked for
    its own size, the image is returned as a copy. *)
Definition resize (resample : Filter) (im : Image) (sw sh : Z) (f : Resampling) : Image :=
  if (sw =? width im) && (sh =? height im) then im
  else mkImage sw sh (resample f im sw sh).

End PIL.

(** ** The dark gradient (lines 35-53)

    [y / height] divides two [int]s below 2^53, which is the quotient of
    their floats; it is only evaluated inside the loop, where [height >= 1]. *)

Definition gradient_color (height y : Z) : pixel :=
  let top_color := (49, 49, 49) in
  let bottom_color := (20, 20, 20) in
  let ratio := (Py.float_of_int y / Py.float_of_int height)%float in
  let chan (top bottom : Z) :=
    Py.int (Py.float_of_int top + Py.float_of_int (bottom - top) * ratio)%float in
  let '(tr, tg, tb) := top_color in
  let '(br, bg, bb) := bottom_color in
  (chan tr br, chan tg bg, chan tb bb).

Definition create_dark_gradient (size : Z * Z) : Image :=
  let '(width, height) := size in
  let gradient := PIL.new width height (0, 0, 0) in
  Py.for_each (Py.range height)
    (fun y gradient => PIL.draw_hline gradient 0 width y (gradient_color height y))
    gradient.

(** ** The tile cropper (lines 65-155) *)

(** The scan's state: [(min_x, min_y, max_x, max_y)]. *)
Definition Bounds : Type := (Z * Z * Z * Z)%type.

Definition scan_pixel (sat_thresh lum_thresh : float) (pixels : Z -> Z -> pixel)
    (x y : Z) (st : Bounds) : Bounds :=
  if of_interest sat_thresh lum_thresh (pixels x y) then
    let '(min_x, min_y, max_x, max_y) := st in
    let min_x := if x <? min_x then x else min_x in
    let min_y := if y <? min_y then y else min_y in
    let max_x := if max_x <? x then x else max_x in
    let max_y := if max_y <? y then y else max_y in
    (min_x, min_y, max_x, max_y)
  else st.

(** Lines 91-110. *)
Definition scan_bounds (sat_thresh lum_thresh : float) (small : Image) : Bounds :=
  let sw := width small in
  let sh := height small in
  let pixels := load small in
  Py.for_each (Py.range sh)
    (fun y st =>
       Py.for_each (Py.range sw)
         (fun x st => scan_pixel sat_thresh lum_thresh pixels x y st) st)
    (sw, sh, 0, 0).

(** Line 112: the box is taken for degenerate, and the crop skipped. *)
Definition degenerate (st : Bounds) : bool :=
  let '(min_x, min_y, max_x, max_y) := st in
  (max_x <=? min_x) || (max_y <=? min_y).

(** Lines 85-87: the scale and the size of the downscaled copy. *)
Definition downscale (w h downscale_max : Z) : option (float * Z * Z) :=
  q <- Py.truediv (Py.float_of_int downscale_max) (Py.float_of_int (Z.max w h)) ;;
  let scale := Py.fmin 1.0 q in
  let sw := Z.max 1 (Py.round (Py.float_of_int w * scale)) in
  let sh := Z.max 1 (Py.round (Py.float_of_int h * scale)) in
  Some (scale, sw, sh).

(** Lines 116-143: from the tracked bounds to the clamped square
    [(sq_left, sq_top, sq_right, sq_bottom)]. *)
Definition square_box (w h : Z) (scale inset_percent : float) (st : Bounds)
    : option (Z * Z * Z * Z) :=
  let '(min_x, min_y, max_x, max_y) := st in
  inv <- Py.truediv 1.0 scale ;;
  let left := Py.round (Py.float_of_int min_x * inv) in
  let top := Py.round (Py.float_of_int min_y * inv) in
  let right := Py.round (Py.float_of_int (max_x + 1) * inv) in
  let bottom := Py.round (Py.float_of_int (max_y + 1) * inv) in
  let side := Z.max (right - left) (bottom - top) in
  let inset_px := Py.round (Py.float_of_int side * (inset_percent / 100.0)) in
  let left := left + inset_px in
  let top := top + inset_px in
  let right := right - inset_px in
  let bottom := bottom - inset_px in
  let cx := (Py.float_of_int (left + right) / 2.0)%float in
  let cy := (Py.float_of_int (top + bottom) / 2.0)%float in
  let side2 := Z.max (right - left) (bottom - top) in
  let sq_left := Py.round (cx - Py.float_of_int side2 / 2.0) in
  let sq_top := Py.round (cy - Py.float_of_int side2 / 2.0) in
  let sq_right := sq_left + side2 in
  let sq_bottom := sq_top + side2 in
  let sq_left := Z.max 0 sq_left in
  let sq_top := Z.max 0 sq_top in
  let sq_right := Z.min w sq_right in
  let sq_bottom := Z.min h sq_bottom in
  Some (sq_left, sq_top, sq_right, sq_bottom).

(** Lines 147-153: pad with white when clamping left a rectangle. *)
Definition pad_to_square (cropped : Image) : Image :=
  let cw := width cropped in
  let ch := height cropped in
  if negb (cw =? ch) then
    let new_side := Z.max cw ch in
    let square := PIL.new new_side new_side (255, 255, 255) in
    PIL.paste square cropped ((new_side - cw) / 2) ((new_side - ch) / 2)
  else cropped.

Section Pipeline.

Variable resample : Filter.

(** The downscaled copy that the scan reads (line 88). *)
Definition downscaled (img : Image) (downscale_max : Z) : option (float * Image) :=
  let rgb := PIL.convert_RGB img in
  let '(w, h) := PIL.size rgb in
  '(scale, sw, sh) <- downscale w h downscale_max ;;
  Some (scale, PIL.resize resample rgb sw sh BILINEAR).

Definition crop_to_gradient_tile_square (img : Image)
    (sat_thresh lum_thresh inset_percent : float) (downscale_max : Z)
    : option Image :=
  let rgb := PIL.convert_RGB img in
  let '(w, h) := PIL.size rgb in
  '(scale, small) <- downscaled img downscale_max ;;
  let st := scan_bounds sat_thresh lum_thresh small in
  if degenerate st then Some rgb
  else
    box <- square_box w h scale inset_percent st ;;
    cropped <- PIL.crop rgb box ;;
    Some (pad_to_square cropped).

(** Lines 158-160. *)
Definition create_light_icon (original_img : Image) : option Image :=
  cropped <- crop_to_gradient_tile_square original_img
               CROP_SAT_THRESH CROP_LUM_THRESH CROP_INSET_PERCENT CROP_DOWNSCALE_MAX ;;
  Some (PIL.convert_RGB (PIL.resize resample cropped TARGET_SIZE TARGET_SIZE LANCZOS)).

End Pipeline.

(** ** The recolorers (lines 177-252) *)

(** The body of the dark recolorer's inner loop (lines 197-213). *)
Definition dark_step (src_pixels : Z -> Z -> pixel) (x y : Z) (result : Image) : Image :=
  let '(r, g, b) := src_pixels x y in
  if negb (is_foreground_pixel r g b) then result
  else
    let lum := _luminance r g b in
    if _is_orange_accent r g b then
      PIL.putpixel result x y
        (Z.min 255 (Py.int (Py.float_of_int r * 1.05)),
         Z.min 255 (Py.int (Py.float_of_int g * 1.05)), b)
    else if PrimFloat.ltb lum (Py.float_of_int 120) then
      PIL.putpixel result x y (240, 240, 240)
    else
      let v := Z.max 70 (Z.min 140 (Py.int (lum * 0.55))) in
      PIL.putpixel result x y (v, v, v).

Definition create_dark_icon (source_img : Image) : Image :=
  let size := PIL.size source_img in
  let dark_bg := create_dark_gradient size in
  let src := PIL.convert_RGB source_img in
  let result := PIL.convert_RGB dark_bg in
  let '(width, height) := size in
  let src_pixels := load src in
  Py.for_each (Py.range height)
    (fun y result =>
       Py.for_each (Py.range width) (fun x result => dark_step src_pixels x y result) result)
    result.

(** The body of the tinted recolorer's inner loop (lines 236-250). *)
Definition tinted_step (src_pixels : Z -> Z -> pixel) (x y : Z) (result : Image) : Image :=
  let '(r, g, b) := src_pixels x y in
  if negb (is_foreground_pixel r g b) then result
  else
    let lum := _luminance r g b in
    if _is_orange_accent r g b then PIL.putpixel result x y (255, 255, 255)
    else if PrimFloat.ltb lum (Py.float_of_int 120) then
      PIL.putpixel result x y (255, 255, 255)
    else
      let v := Z.max 140 (Z.min 220 (Py.int lum)) in
      PIL.putpixel result x y (v, v, v).

Definition create_tinted_icon (source_img : Image) : Image :=
  let size := PIL.size source_img in
  let src := PIL.convert_RGB source_img in
  let result := PIL.new (fst size) (snd size) (0, 0, 0) in
  let '(width, height) := size in
  let src_pixels := load src in
  Py.for_each (Py.range height)
    (fun y result =>
       Py.for_each (Py.range width) (fun x result => tinted_step src_pixels x y result) result)
    result.

(** ** The run (lines 255-273): the three images that [main] saves. *)

Definition main (resample : Filter) (original : Image) : option (Image * Image * Image) :=
  light <- create_light_icon resample original ;;
  let dark_icon := create_dark_icon light in
  let tinted_icon := create_tinted_icon light in
  Some (light, dark_icon, tinted_icon).

(** ** Vocabulary of the statements *)

(** The grid a pair of nested [range] loops walks, row by row. *)
Definition coords (w h : Z) : list (Z * Z) :=
  flat_map (fun y => map (fun x => (x, y)) (Py.range w)) (Py.range h).

(** The scan over a list of positions, from a given state. *)
Definition scan_list (sat_thresh lum_thresh : float) (pixels : Z -> Z -> pixel)
    (cs : list (Z * Z)) (st : Bounds) : Bounds :=
  fold_left (fun st c => scan_pixel sat_thresh lum_thresh pixels (fst c) (snd c) st) cs st.

Definition hit (sat_thresh lum_thresh : float) (pixels : Z -> Z -> pixel) (c : Z * Z) : bool :=
  of_interest sat_thresh lum_thresh (pixels (fst c) (snd c)).

(** A pixel of interest of the downscaled copy. *)
Definition interesting (sat_thresh lum_thresh : float) (small : Image) (x y : Z) : Prop :=
  (0 <= x < width small) /\ (0 <= y < height small)
  /\ of_interest sat_thresh lum_thresh (load small x y) = true.

(** A box [(left, top, right, bottom)] given by its first and last column
    and row holds the position [(x, y)]. *)
Definition in_box (bx : Bounds) (x y : Z) : Prop :=
  let '(min_x, min_y, max_x, max_y) := bx in
  min_x <= x <= max_x /\ min_y <= y <= max_y.

(** What the recolorers write at a position from the source pixel there, if
    anything: the branches of lines 198-213 and of lines 237-250. *)
Definition dark_pixel (p : pixel) : option pixel :=
  let '(r, g, b) := p in
  if negb (is_foreground_pixel r g b) then None
  else if _is_orange_accent r g b then
    Some (Z.min 255 (Py.int (Py.float_of_int r * 1.05)),
          Z.min 255 (Py.int (Py.float_of_int g * 1.05)), b)
  else if PrimFloat.ltb (_luminance r g b) (Py.float_of_int 120) then Some (240, 240, 240)
  else let v := Z.max 70 (Z.min 140 (Py.int (_luminance r g b * 0.55))) in Some (v, v, v).

Definition tinted_pixel (p : pixel) : option pixel :=
  let '(r, g, b) := p in
  if negb (is_foreground_pixel r g b) then None
  else if _is_orange_accent r g b then Some (255, 255, 255)
  else if PrimFloat.ltb (_luminance r g b) (Py.float_of_int 120) then Some (255, 255, 255)
  else let v := Z.max 140 (Z.min 220 (Py.int (_luminance r g b))) in Some (v, v, v).

(** A loop that, at each position of a list, writes what [f] says or
    leaves the image alone. *)
Definition paint_list (f : Z -> Z -> option pixel) (cs : list (Z * Z)) (im : Image) : Image :=
  fold_left
    (fun im c => match f (fst c) (snd c) with
                 | Some v => PIL.putpixel im (fst c) (snd c) v
                 | None => im
                 end) cs im.

(** A thousand times the luminance, in integers. *)
Definition luminance_milli (r g b : Z) : Z := 299 * r + 587 * g + 114 * b.

Definition pixel_eqb (p q : pixel) : bool :=
  let '(r, g, b) := p in
  let '(r', g', b') := q in
  (r =? r') && (g =? g') && (b =? b').

(** The colours that are no accent, have luminance 205 exactly, and a
    binary64 luminance just below it. *)
Definition rounds_below_205 : list pixel :=
  [(119, 249, 204); (141, 251, 136); (145, 241, 177); (149, 231, 218);
   (167, 243, 109); (171, 233, 150); (175, 223, 191); (197, 225, 123)].

(** A test run on every colour of a given exact luminance [T / 1000]. *)
Definition on_luminance (T : Z) (f : Z -> Z -> Z -> bool) : bool :=
  forallb (fun r =>
    forallb (fun g =>
      let rest := T - 299 * r - 587 * g in
      if (rest mod 114 =? 0) && (0 <=? rest / 114) && (rest / 114 <=? 255)
      then f r g (rest / 114) else true)
      (Py.range 256))
    (Py.range 256).

(** Sample images, written row by row, and a nearest-neighbour filter to
    stand for Pillow's when the samples are run. *)
Module Sample.

Definition image_of_rows (rows : list (list pixel)) : Image :=
  mkImage (Z.of_nat (length (hd [] rows))) (Z.of_nat (length rows))
    (fun x y => nth (Z.to_nat x) (nth (Z.to_nat y) rows []) (0, 0, 0)).

Definition nearest : Filter :=
  fun _ im sw sh x y => load im (x * width im / sw) (y * height im / sh).

Definition W : pixel := (255, 255, 255).
Definition K : pixel := (0, 0, 0).

Definition white_2x1 : Image := image_of_rows [[W; W]].


Definition dot_3x3 : Image :=
  image_of_rows [[W; W; W];
                 [W; K; W];
                 [W; W; W]].

Definition block_4x4 : Image :=
  image_of_rows [[W; W; W; W];
                 [W; K; K; W];
                 [W; K; K; W];
                 [W; W; W; W]].

(** What the cropper makes of [block_4x4]: the dark block alone. *)
Definition block_cropped : Image :=
  mkImage 2 2
    (fun x y =>
       if (0 <=? x + 1) && (x + 1 <? 4) && (0 <=? y + 1) && (y + 1 <? 4)
       then load block_4x4 (x + 1) (y + 1) else (0, 0, 0)).

Definition accent_1x1 : Image := image_of_rows [[(200, 120, 30)]].

Definition gray_1x2 : Image := image_of_rows [[(60, 60, 60)]; [(150, 150, 150)]].

(** Two colours of a whole luminance: 120 and 160. *)
Definition edge_1x2 : Image := image_of_rows [[(127, 131, 45)]; [(3, 239, 165)]].

End Sample.

(** Binary64 values as real numbers, for the analysis of the crop
    rectangle. *)
Module F64.

(** A location [l] places the fraction [N / D] of a unit: nothing left, or
    below, at, or above the half. *)
Definition loc_ok (l : location) (N D : Z) : Prop :=
  0 <= N < D /\
  match l with
  | loc_Exact => N = 0
  | loc_Inexact c => 0 < N /\ (2 * N ?= D) = c
  end.

#[local] Open Scope R_scope.

Definition pow2 (e : Z) : R := powerRZ 2 e.

(** The real number a float stands for (0 for what is not finite). *)
Definition SF2R (x : spec_float) : R :=
  match x with
  | S754_finite s m e => (if s then -1 else 1) * IZR (Z.pos m) * pow2 e
  | _ => 0
  end.

Definition val (x : float) : R := SF2R (Prim2SF x).

(** A positive normal float, with its exponent in a range. *)
Definition pnormal (x : float) (lo hi : Z) : Prop :=
  exists m e, Prim2SF x = S754_finite false m e
              /\ (2 ^ 52 <= Z.pos m < 2 ^ 53)%Z /\ (lo <= e <= hi)%Z.

(** The unit roundoff of binary64. *)
Definition u : R := pow2 (-53).

(** The absolute slack granted to the rounding errors below. *)
Definition eps : R := / 10000.

(** Zero, or a positive normal float. *)
Definition nonneg (x : float) (lo hi : Z) : Prop :=
  Prim2SF x = S754_zero false \/ pnormal x lo hi.

End F64.

(** ** The script as it runs (lines 16-23 and 255-279)

    [main] reads one file, writes three and prints its progress.  A run is
    a function of the world it starts in: the image files (a file holds an
    RGB image, or is absent), the paths that can be written, and what has
    been printed.  An exception ends the run and leaves the world as it
    was when it was raised.  [Image.open] refuses a file that is absent or
    holds more pixels than Pillow's limit; the same check in [crop] cannot
    fail in a run, its box lying inside the image opened.  Running out of
    memory or of disk is outside the model. *)

Module Script.

Import String Ascii.

Definition path : Type := string.

Record World : Type := mkWorld {
  files : path -> option Image;
  writable : path -> bool;
  stdout : list string }.

Inductive Exception : Type :=
| FileNotFoundError (p : path)
| DecompressionBombError
| OSError (p : path)
| ValueError.

Definition M (A : Type) : Type := World -> World * (A + Exception).

Definition ret {A : Type} (a : A) : M A := fun w => (w, inl a).

Definition raise {A : Type} (e : Exception) : M A := fun w => (w, inr e).

Definition bind {A B : Type} (m : M A) (k : A -> M B) : M B :=
  fun w => match m w with
           | (w', inl a) => k a w'
           | (w', inr e) => (w', inr e)
           end.

(** [print(s)] *)
Definition print (s : string) : M unit :=
  fun w => (mkWorld (files w) (writable w) (stdout w ++ [s]), inl tt).

(** [Image.open(p)] *)
Definition Image_open (p : path) : M Image :=
  fun w => match files w p with
           | Some im =>
               match PIL._decompression_bomb_check (PIL.size im) with
               | Some _ => (w, inl im)
               | None => (w, inr DecompressionBombError)
               end
           | None => (w, inr (FileNotFoundError p))
           end.

(** [im.save(p, "PNG")]: PNG keeps every pixel. *)
Definition save (im : Image) (p : path) : M unit :=
  fun w => if writable w p
           then (mkWorld (fun p' => if String.eqb p' p then Some im else files w p')
                   (writable w) (stdout w), inl tt)
           else (w, inr (OSError p)).

(** The exceptions of the pure part ([None]) are Pillow's [ValueError]. *)
Definition lift {A : Type} (o : option A) : M A :=
  match o with Some a => ret a | None => raise ValueError end.

Fixpoint ends_with (c : ascii) (s : string) : bool :=
  match s with
  | EmptyString => false
  | String a EmptyString => Ascii.eqb a c
  | String _ s' => ends_with c s'
  end.

(** [os.path.join(a, b)] (posixpath) *)
Definition os_path_join (a b : string) : string :=
  if String.prefix "/" b then b
  else if (String.length a =? 0)%nat || ends_with "/" a then (a ++ b)%string
  else (a ++ "/" ++ b)%string.


Definition nl : string := String "010" EmptyString.

(** The check marks of the messages, in UTF-8. *)
Definition check_mark : string := String "226" (String "156" (String "147" EmptyString)).
Definition heavy_check_mark : string := String "226" (String "156" (String "133" EmptyString)).

(** [str(n)] *)
Definition str (n : Z) : string := DecimalString.NilZero.string_of_int (Z.to_int n).

Section Run.

(** [os.path.dirname(os.path.abspath(__file__))] *)
Variable SCRIPT_DIR : string.
Variable resample : Filter.

Definition ORIGINAL_SOURCE : path :=
  os_path_join SCRIPT_DIR "Gemini_Generated_Image_ua9pviua9pviua9p.png".
Definition OUTPUT_DIR : path :=
  os_path_join SCRIPT_DIR "../flip7calculator/Assets.xcassets/AppIcon.appiconset".
Definition LIGHT_OUT : path := os_path_join OUTPUT_DIR "AppIcon-1024.png".
Definition DARK_OUT : path := os_path_join OUTPUT_DIR "AppIcon-1024-dark.png".
Definition TINTED_OUT : path := os_path_join OUTPUT_DIR "AppIcon-1024-tinted.png".

Definition main : M unit :=
  bind (print "Loading original artwork...") (fun _ =>
  bind (Image_open ORIGINAL_SOURCE) (fun original =>
  bind (print ("Original size: (" ++ str (width original) ++ ", "
               ++ str (height original) ++ "), mode: RGB")) (fun _ =>
  bind (print (nl ++ "Creating LIGHT icon (crop away white border, keep gradient)..."))
    (fun _ =>
  bind (lift (create_light_icon resample original)) (fun light =>
  bind (save light LIGHT_OUT) (fun _ =>
  bind (print (check_mark ++ " Saved: " ++ LIGHT_OUT)) (fun _ =>
  bind (print (nl ++ "Creating DARK icon...")) (fun _ =>
  let dark_icon := create_dark_icon light in
  bind (save dark_icon DARK_OUT) (fun _ =>
  bind (print (check_mark ++ " Saved: " ++ DARK_OUT)) (fun _ =>
  bind (print (nl ++ "Creating TINTED icon...")) (fun _ =>
  let tinted_icon := create_tinted_icon light in
  bind (save tinted_icon TINTED_OUT) (fun _ =>
  bind (print (check_mark ++ " Saved: " ++ TINTED_OUT)) (fun _ =>
  bind (print (nl ++ heavy_check_mark ++ " All icon variants created successfully!"))
    (fun _ =>
  bind (print (nl ++ "Variants:")) (fun _ =>
  bind (print "  - AppIcon-1024.png (Light/Normal)") (fun _ =>
  bind (print "  - AppIcon-1024-dark.png (Dark mode)") (fun _ =>
  print "  - AppIcon-1024-tinted.png (Tinted mode)"))))))))))))))))).


End Run.

(** A world to run the script in: one source image, every path writable,
    nothing printed yet. *)
Definition world_with (p : path) (im : Image) : World :=
  mkWorld (fun p' => if String.eqb p' p then Some im else None) (fun _ => true) [].

End Script.

(** * Proofs *)

(** ** Loops *)

Lemma range_In (n i : Z) : In i (Py.range n) <-> 0 <= i < n.
Proof.
  unfold Py.range. rewrite in_map_iff. split.
  - intros (k & <- & Hk). apply in_seq in Hk. lia.
  - intros Hi. exists (Z.to_nat i). split; [lia|]. apply in_seq. lia.
Qed.

Lemma coords_In (w h x y : Z) : In (x, y) (coords w h) <-> (0 <= x < w) /\ (0 <= y < h).
Proof.
  unfold coords. rewrite in_flat_map. split.
  - intros (y' & Hy & Hx). apply in_map_iff in Hx as (x' & E & Hx).
    inversion E; subst. apply range_In in Hy, Hx. tauto.
  - intros [Hx Hy]. exists y. split; [now apply range_In|].
    apply in_map_iff. exists x. split; [reflexivity | now apply range_In].
Qed.

Lemma nested_loops_flat {S : Type} (body : Z -> Z -> S -> S) (w h : Z) (s : S) :
  Py.for_each (Py.range h)
    (fun y s => Py.for_each (Py.range w) (fun x s => body x y s) s) s
  = fold_left (fun s c => body (fst c) (snd c) s) (coords w h) s.
Proof.
  unfold coords, Py.for_each. revert s.
  induction (Py.range h) as [|y ys IH]; intros s; simpl; [reflexivity|].
  rewrite fold_left_app, <- IH. f_equal.
  generalize (Py.range w). intros xs. revert s.
  induction xs as [|x xs IHx]; intros s; simpl; [reflexivity | apply IHx].
Qed.

(** ** The scan keeps the smallest box around the pixels of interest *)

Section Scan.

Variables sat_thresh lum_thresh : float.
Variable pixels : Z -> Z -> pixel.

Lemma scan_pixel_eq (x y a b c d : Z) :
  scan_pixel sat_thresh lum_thresh pixels x y (a, b, c, d)
  = if hit sat_thresh lum_thresh pixels (x, y) then (Z.min x a, Z.min y b, Z.max c x, Z.max d y) else (a, b, c, d).
Proof.
  unfold scan_pixel, hit; simpl. destruct (of_interest _ _ _); [|reflexivity].
  repeat match goal with |- context [if ?t <? ?u then _ else _] =>
    destruct (Z.ltb_spec t u) end; repeat f_equal; lia.
Qed.

Lemma scan_list_none (cs : list (Z * Z)) (st : Bounds) :
  (forall c, In c cs -> hit sat_thresh lum_thresh pixels c = false) -> scan_list sat_thresh lum_thresh pixels cs st = st.
Proof.
  revert st. induction cs as [|[x y] cs IH]; intros [[[a b] c] d] H; [reflexivity|].
  cbn [scan_list fold_left fst snd]. rewrite scan_pixel_eq, (H (x, y)) by now left.
  apply IH. intros c' Hc'. apply H. now right.
Qed.

(** The bounds only widen, they cover every pixel of interest met, and
    each of them is the starting value or a coordinate of such a pixel. *)
Lemma scan_list_spec (cs : list (Z * Z)) (a b c d : Z) :
  let '(a', b', c', d') := scan_list sat_thresh lum_thresh pixels cs (a, b, c, d) in
  (a' <= a /\ b' <= b /\ c <= c' /\ d <= d')
  /\ (forall x y, In (x, y) cs -> hit sat_thresh lum_thresh pixels (x, y) = true ->
        a' <= x <= c' /\ b' <= y <= d')
  /\ (a' = a \/ exists y, In (a', y) cs /\ hit sat_thresh lum_thresh pixels (a', y) = true)
  /\ (b' = b \/ exists x, In (x, b') cs /\ hit sat_thresh lum_thresh pixels (x, b') = true)
  /\ (c' = c \/ exists y, In (c', y) cs /\ hit sat_thresh lum_thresh pixels (c', y) = true)
  /\ (d' = d \/ exists x, In (x, d') cs /\ hit sat_thresh lum_thresh pixels (x, d') = true).
Proof.
  revert a b c d. induction cs as [|[x y] cs IH]; intros a b c d.
  - cbn. repeat split; try lia; try (now left); try contradiction.
  - cbn [scan_list fold_left fst snd]. rewrite scan_pixel_eq.
    destruct (hit sat_thresh lum_thresh pixels (x, y)) eqn:Hxy.
    + specialize (IH (Z.min x a) (Z.min y b) (Z.max c x) (Z.max d y)).
      fold (scan_list sat_thresh lum_thresh pixels cs (Z.min x a, Z.min y b, Z.max c x, Z.max d y)) in *.
      destruct (scan_list sat_thresh lum_thresh pixels cs _) as [[[a' b'] c'] d'].
      destruct IH as (Hm & Hc & Ha & Hb & Hcc & Hd).
      split; [lia|]. split.
      { intros x0 y0 [E|Hin] Hh; [inversion E; subst; lia | now apply Hc]. }
      repeat split.
      * destruct Ha as [->|(y0 & ? & ?)]; [|right; exists y0; split; [now right|assumption]].
        destruct (Z.min_spec x a) as [[_ ->]|[_ ->]]; [|now left].
        right; exists y; split; [now left|assumption].
      * destruct Hb as [->|(x0 & ? & ?)]; [|right; exists x0; split; [now right|assumption]].
        destruct (Z.min_spec y b) as [[_ ->]|[_ ->]]; [|now left].
        right; exists x; split; [now left|assumption].
      * destruct Hcc as [->|(y0 & ? & ?)]; [|right; exists y0; split; [now right|assumption]].
        destruct (Z.max_spec c x) as [[_ ->]|[_ ->]]; [|now left].
        right; exists y; split; [now left|assumption].
      * destruct Hd as [->|(x0 & ? & ?)]; [|right; exists x0; split; [now right|assumption]].
        destruct (Z.max_spec d y) as [[_ ->]|[_ ->]]; [|now left].
        right; exists x; split; [now left|assumption].
    + specialize (IH a b c d). fold (scan_list sat_thresh lum_thresh pixels cs (a, b, c, d)) in *.
      destruct (scan_list sat_thresh lum_thresh pixels cs _) as [[[a' b'] c'] d'].
      destruct IH as (Hm & Hc & Ha & Hb & Hcc & Hd).
      split; [lia|]. split.
      { intros x0 y0 [E|Hin] Hh; [inversion E; subst; congruence | now apply Hc]. }
      repeat split.
      * destruct Ha as [->|(y0 & ? & ?)]; [now left|right; exists y0; split; [now right|assumption]].
      * destruct Hb as [->|(x0 & ? & ?)]; [now left|right; exists x0; split; [now right|assumption]].
      * destruct Hcc as [->|(y0 & ? & ?)]; [now left|right; exists y0; split; [now right|assumption]].
      * destruct Hd as [->|(x0 & ? & ?)]; [now left|right; exists x0; split; [now right|assumption]].
Qed.

End Scan.

Lemma scan_bounds_flat (sat_thresh lum_thresh : float) (small : Image) :
  scan_bounds sat_thresh lum_thresh small
  = scan_list sat_thresh lum_thresh (load small)
      (coords (width small) (height small)) (width small, height small, 0, 0).
Proof. unfold scan_bounds. now rewrite nested_loops_flat. Qed.

Lemma scan_bounds_empty (sat_thresh lum_thresh : float) (small : Image) :
  (forall x y, ~ interesting sat_thresh lum_thresh small x y) ->
  scan_bounds sat_thresh lum_thresh small = (width small, height small, 0, 0).
Proof.
  intros H. rewrite scan_bounds_flat. apply scan_list_none.
  intros [x y] Hin. apply coords_In in Hin. unfold hit. cbn [fst snd].
  destruct (of_interest _ _ _) eqn:E; [|reflexivity].
  exfalso. apply (H x y). unfold interesting. tauto.
Qed.

(** What the scan returns: it covers the pixels of interest, and as soon as
    there is one (or the box is not empty in one direction) each of the four
    bounds is the coordinate of a pixel of interest. *)
Lemma scan_bounds_spec (sat_thresh lum_thresh : float) (small : Image) :
  1 <= width small -> 1 <= height small ->
  let '(min_x, min_y, max_x, max_y) := scan_bounds sat_thresh lum_thresh small in
  (forall x y, interesting sat_thresh lum_thresh small x y ->
     min_x <= x <= max_x /\ min_y <= y <= max_y)
  /\ (min_x <= max_x \/ min_y <= max_y
      \/ (exists x y, interesting sat_thresh lum_thresh small x y) ->
      (exists y, interesting sat_thresh lum_thresh small min_x y)
      /\ (exists x, interesting sat_thresh lum_thresh small x min_y)
      /\ (exists y, interesting sat_thresh lum_thresh small max_x y)
      /\ (exists x, interesting sat_thresh lum_thresh small x max_y)).
Proof.
  intros Hw Hh. rewrite scan_bounds_flat.
  pose proof (scan_list_spec sat_thresh lum_thresh (load small)
                (coords (width small) (height small)) (width small) (height small) 0 0) as H.
  destruct (scan_list _ _ _ _ _) as [[[a b] c] d].
  destruct H as (_ & Hcov & Ha & Hb & Hc & Hd). unfold hit in *. cbn [fst snd] in *.
  assert (Hcov' : forall x y, interesting sat_thresh lum_thresh small x y ->
                              a <= x <= c /\ b <= y <= d).
  { intros x y (Hx & Hy & Hi). apply Hcov; [apply coords_In; tauto | exact Hi]. }
  assert (Hin : forall x y, In (x, y) (coords (width small) (height small)) ->
                of_interest sat_thresh lum_thresh (load small x y) = true ->
                interesting sat_thresh lum_thresh small x y).
  { intros x y Hxy Hi. apply coords_In in Hxy. unfold interesting. tauto. }
  split; [exact Hcov'|]. intros Hne.
  assert (Hex : exists x y, interesting sat_thresh lum_thresh small x y).
  { destruct Hne as [Hac|[Hbd|Hex]]; [| |exact Hex].
    - destruct Ha as [->|(y & Hy & Hi)]; [|exists a, y; now apply Hin].
      destruct Hc as [->|(y & Hy & Hi)]; [lia|exists c, y; now apply Hin].
    - destruct Hb as [->|(x & Hx & Hi)]; [|exists x, b; now apply Hin].
      destruct Hd as [->|(x & Hx & Hi)]; [lia|exists x, d; now apply Hin]. }
  destruct Hex as (x0 & y0 & H0). pose proof (Hcov' _ _ H0) as Hb0.
  pose proof H0 as (Hx0 & Hy0 & _).
  repeat split.
  - destruct Ha as [->|(y & Hy & Hi)]; [lia|exists y; now apply Hin].
  - destruct Hb as [->|(x & Hx & Hi)]; [lia|exists x; now apply Hin].
  - destruct Hc as [->|(y & Hy & Hi)]; [|exists y; now apply Hin].
    exists y0. now replace 0 with x0 by lia.
  - destruct Hd as [->|(x & Hx & Hi)]; [|exists x; now apply Hin].
    exists x0. now replace 0 with y0 by lia.
Qed.

Lemma downscaled_size (resample : Filter) (img : Image) (downscale_max : Z)
    (scale : float) (small : Image) :
  downscaled resample img downscale_max = Some (scale, small) ->
  1 <= width small /\ 1 <= height small.
Proof.
  unfold downscaled, downscale, PIL.resize, PIL.convert_RGB, PIL.size.
  destruct (Py.truediv _ _) as [q|]; [|discriminate].
  intros E. injection E as _ <-.
  match goal with |- context [if ?c then _ else _] => destruct c eqn:Hc end; cbn [width height].
  - apply andb_prop in Hc as [H1 H2]. apply Z.eqb_eq in H1, H2. lia.
  - lia.
Qed.

(** ** The tile cropper *)

Lemma pad_to_square_square (cropped : Image) :
  width (pad_to_square cropped) = height (pad_to_square cropped).
Proof.
  unfold pad_to_square.
  destruct (width cropped =? height cropped) eqn:E; cbn [negb].
  - now apply Z.eqb_eq.
  - reflexivity.
Qed.

Lemma degenerate_false (min_x min_y max_x max_y : Z) :
  degenerate (min_x, min_y, max_x, max_y) = false <-> min_x < max_x /\ min_y < max_y.
Proof.
  unfold degenerate. rewrite orb_false_iff, !Z.leb_gt. reflexivity.
Qed.

(** The cropper, unfolded along the test of line 112. *)
Lemma crop_to_gradient_tile_square_eq (resample : Filter) (img : Image)
    (sat_thresh lum_thresh inset_percent : float) (downscale_max : Z)
    (scale : float) (small : Image) :
  downscaled resample img downscale_max = Some (scale, small) ->
  crop_to_gradient_tile_square resample img sat_thresh lum_thresh inset_percent downscale_max
  = if degenerate (scan_bounds sat_thresh lum_thresh small) then Some img
    else box <- square_box (width img) (height img) scale inset_percent
                  (scan_bounds sat_thresh lum_thresh small) ;;
         cropped <- PIL.crop img box ;;
         Some (pad_to_square cropped).
Proof.
  intros H. unfold crop_to_gradient_tile_square, PIL.convert_RGB, PIL.size.
  now rewrite H.
Qed.

(** C4. Before the inset, the box the scan tracks holds every pixel of
    interest of the downscaled image, and it is the smallest such box: any
    box that holds them all holds every position of the tracked one. *)
Theorem scan_box_is_minimal_cover (resample : Filter) (img : Image) (downscale_max : Z)
    (sat_thresh lum_thresh scale : float) (small : Image) :
  downscaled resample img downscale_max = Some (scale, small) ->
  (forall x y, interesting sat_thresh lum_thresh small x y ->
     in_box (scan_bounds sat_thresh lum_thresh small) x y)
  /\ (forall other : Bounds,
        (forall x y, interesting sat_thresh lum_thresh small x y -> in_box other x y) ->
        forall x y, in_box (scan_bounds sat_thresh lum_thresh small) x y -> in_box other x y).
Proof.
  intros Hd. apply downscaled_size in Hd as [Hw Hh].
  pose proof (scan_bounds_spec sat_thresh lum_thresh small Hw Hh) as H.
  destruct (scan_bounds _ _ _) as [[[min_x min_y] max_x] max_y].
  destruct H as [Hcov Hatt]. split; [exact Hcov|].
  intros [[[a b] c] d] Hother x y [Hx Hy]. unfold in_box in *.
  assert (Hne : min_x <= max_x) by lia.
  destruct (Hatt (or_introl Hne)) as ((y1 & H1) & (x2 & H2) & (y3 & H3) & (x4 & H4)).
  apply Hother in H1, H2, H3, H4. lia.
Qed.

Lemma scan_box_is_minimal_cover_witness :
  (forall x y, interesting CROP_SAT_THRESH CROP_LUM_THRESH Sample.block_4x4 x y ->
     in_box (scan_bounds CROP_SAT_THRESH CROP_LUM_THRESH Sample.block_4x4) x y)
  /\ (forall other : Bounds,
        (forall x y, interesting CROP_SAT_THRESH CROP_LUM_THRESH Sample.block_4x4 x y ->
                     in_box other x y) ->
        forall x y, in_box (scan_bounds CROP_SAT_THRESH CROP_LUM_THRESH Sample.block_4x4) x y ->
                    in_box other x y).
Proof.
  apply (scan_box_is_minimal_cover Sample.nearest Sample.block_4x4 CROP_DOWNSCALE_MAX
           CROP_SAT_THRESH CROP_LUM_THRESH 1%float Sample.block_4x4).
  vm_compute. reflexivity.
Defined.

(** C2. When no pixel of the downscaled scan is of interest, the cropper
    returns its input: same width, same height, same pixels. *)
Theorem crop_without_interest_returns_input (resample : Filter) (img : Image)
    (sat_thresh lum_thresh inset_percent : float) (downscale_max : Z)
    (scale : float) (small : Image) :
  downscaled resample img downscale_max = Some (scale, small) ->
  (forall x y, 0 <= x < width small -> 0 <= y < height small ->
     of_interest sat_thresh lum_thresh (load small x y) = false) ->
  crop_to_gradient_tile_square resample img sat_thresh lum_thresh inset_percent downscale_max
  = Some img.
Proof.
  intros Hd Hnone.
  rewrite (crop_to_gradient_tile_square_eq _ _ _ _ _ _ _ _ Hd).
  rewrite scan_bounds_empty.
  - apply downscaled_size in Hd as [Hw Hh]. unfold degenerate.
    replace (0 <=? width small) with true by (symmetry; apply Z.leb_le; lia).
    reflexivity.
  - intros x y (Hx & Hy & Hi). rewrite (Hnone x y Hx Hy) in Hi. discriminate.
Qed.

Lemma crop_without_interest_returns_input_witness :
  crop_to_gradient_tile_square Sample.nearest Sample.white_2x1
    CROP_SAT_THRESH CROP_LUM_THRESH CROP_INSET_PERCENT CROP_DOWNSCALE_MAX
  = Some Sample.white_2x1.
Proof.
  apply (crop_without_interest_returns_input Sample.nearest Sample.white_2x1
           CROP_SAT_THRESH CROP_LUM_THRESH CROP_INSET_PERCENT CROP_DOWNSCALE_MAX
           1%float Sample.white_2x1).
  - vm_compute. reflexivity.
  - intros x y Hx Hy.
    assert (Ey : y = 0) by (cbn in Hy; lia).
    assert (Ex : x = 0 \/ x = 1) by (cbn in Hx; lia).
    subst y. destruct Ex; subst x; vm_compute; reflexivity.
Defined.

(** C1, as the code has it.  Whenever the cropper performs a crop its result
    has equal width and height; on the fallback of line 113 it returns the
    input as it is, square or not. *)
Theorem crop_square_unless_fallback (resample : Filter) (img : Image)
    (sat_thresh lum_thresh inset_percent : float) (downscale_max : Z) (out : Image) :
  crop_to_gradient_tile_square resample img sat_thresh lum_thresh inset_percent downscale_max
  = Some out ->
  exists scale small,
    downscaled resample img downscale_max = Some (scale, small)
    /\ if degenerate (scan_bounds sat_thresh lum_thresh small)
       then out = img
       else width out = height out.
Proof.
  intros H.
  destruct (downscaled resample img downscale_max) as [[scale small]|] eqn:Hd.
  - exists scale, small. split; [reflexivity|].
    rewrite (crop_to_gradient_tile_square_eq _ _ _ _ _ _ _ _ Hd) in H.
    destruct (degenerate _).
    + now injection H as <-.
    + destruct (square_box _ _ _ _ _) as [box|]; [|discriminate].
      destruct (PIL.crop img box) as [cropped|]; [|discriminate].
      injection H as <-. apply pad_to_square_square.
  - unfold crop_to_gradient_tile_square, PIL.convert_RGB, PIL.size in H.
    rewrite Hd in H. discriminate.
Qed.

Lemma crop_square_unless_fallback_witness :
  exists scale small,
    downscaled Sample.nearest Sample.block_4x4 CROP_DOWNSCALE_MAX = Some (scale, small)
    /\ if degenerate (scan_bounds CROP_SAT_THRESH CROP_LUM_THRESH small)
       then Sample.block_cropped = Sample.block_4x4
       else width Sample.block_cropped = height Sample.block_cropped.
Proof.
  apply (crop_square_unless_fallback Sample.nearest Sample.block_4x4
           CROP_SAT_THRESH CROP_LUM_THRESH CROP_INSET_PERCENT CROP_DOWNSCALE_MAX).
  vm_compute. reflexivity.
Defined.

(** C1 as stated fails on the fallback path: an all-white image two pixels
    wide and one high comes back as it is. *)
Lemma crop_fallback_not_square :
  crop_to_gradient_tile_square Sample.nearest Sample.white_2x1
    CROP_SAT_THRESH CROP_LUM_THRESH CROP_INSET_PERCENT CROP_DOWNSCALE_MAX
  = Some Sample.white_2x1
  /\ width Sample.white_2x1 = 2 /\ height Sample.white_2x1 = 1.
Proof. repeat split; vm_compute; reflexivity. Qed.

(** C3, as the code has it.  With a pixel of interest the tracked box is
    not empty ([min_x < max_x + 1], [min_y < max_y + 1]); the crop is
    performed exactly when the pixels of interest span two columns and two
    rows, and in every other case the input is returned unchanged. *)
Theorem crop_proceeds_iff_two_columns_and_rows (resample : Filter) (img : Image)
    (sat_thresh lum_thresh inset_percent : float) (downscale_max : Z)
    (scale : float) (small : Image) :
  downscaled resample img downscale_max = Some (scale, small) ->
  let st := scan_bounds sat_thresh lum_thresh small in
  let '(min_x, min_y, max_x, max_y) := st in
  ((exists x y, interesting sat_thresh lum_thresh small x y) ->
     min_x < max_x + 1 /\ min_y < max_y + 1)
  /\ (degenerate st = false <->
        (exists x1 y1 x2 y2, interesting sat_thresh lum_thresh small x1 y1
                             /\ interesting sat_thresh lum_thresh small x2 y2 /\ x1 < x2)
        /\ (exists x1 y1 x2 y2, interesting sat_thresh lum_thresh small x1 y1
                                /\ interesting sat_thresh lum_thresh small x2 y2 /\ y1 < y2))
  /\ (degenerate st = true ->
        crop_to_gradient_tile_square resample img sat_thresh lum_thresh inset_percent
          downscale_max = Some img)
  /\ (degenerate st = false ->
        crop_to_gradient_tile_square resample img sat_thresh lum_thresh inset_percent
          downscale_max
        = (box <- square_box (width img) (height img) scale inset_percent st ;;
           cropped <- PIL.crop img box ;;
           Some (pad_to_square cropped))).
Proof.
  intros Hd st. subst st.
  pose proof (crop_to_gradient_tile_square_eq resample img sat_thresh lum_thresh
                inset_percent downscale_max scale small Hd) as Heq.
  apply downscaled_size in Hd as [Hw Hh].
  pose proof (scan_bounds_spec sat_thresh lum_thresh small Hw Hh) as H.
  destruct (scan_bounds _ _ _) as [[[min_x min_y] max_x] max_y].
  destruct H as [Hcov Hatt]. cbv beta iota.
  split; [|split; [|split]].
  - intros (x & y & Hi). apply Hcov in Hi. lia.
  - split.
    + intros Hdeg. apply degenerate_false in Hdeg.
      assert (Hne : min_x <= max_x) by lia.
      destruct (Hatt (or_introl Hne)) as ((y1 & H1) & (x2 & H2) & (y3 & H3) & (x4 & H4)).
      split.
      * exists min_x, y1, max_x, y3. split; [exact H1 | split; [exact H3 | lia]].
      * exists x2, min_y, x4, max_y. split; [exact H2 | split; [exact H4 | lia]].
    + intros [(x1 & y1 & x2 & y2 & H1 & H2 & Hlt) (x3 & y3 & x4 & y4 & H3 & H4 & Hlt')].
      apply degenerate_false. apply Hcov in H1, H2, H3, H4. lia.
  - intros Hdeg. now rewrite Heq, Hdeg.
  - intros Hdeg. now rewrite Heq, Hdeg.
Qed.

Lemma crop_proceeds_iff_two_columns_and_rows_witness :
  crop_to_gradient_tile_square Sample.nearest Sample.block_4x4
    CROP_SAT_THRESH CROP_LUM_THRESH CROP_INSET_PERCENT CROP_DOWNSCALE_MAX
  = (box <- square_box 4 4 1%float CROP_INSET_PERCENT
              (scan_bounds CROP_SAT_THRESH CROP_LUM_THRESH Sample.block_4x4) ;;
     cropped <- PIL.crop Sample.block_4x4 box ;;
     Some (pad_to_square cropped)).
Proof.
  assert (Hd : downscaled Sample.nearest Sample.block_4x4 CROP_DOWNSCALE_MAX
               = Some (1%float, Sample.block_4x4)) by (vm_compute; reflexivity).
  pose proof (crop_proceeds_iff_two_columns_and_rows Sample.nearest Sample.block_4x4
                CROP_SAT_THRESH CROP_LUM_THRESH CROP_INSET_PERCENT CROP_DOWNSCALE_MAX
                1%float Sample.block_4x4 Hd) as H.
  cbv zeta in H.
  assert (Hs : scan_bounds CROP_SAT_THRESH CROP_LUM_THRESH Sample.block_4x4 = (1, 1, 2, 2))
    by (vm_compute; reflexivity).
  rewrite Hs in H. destruct H as (_ & _ & _ & H).
  rewrite Hs. apply H. vm_compute. reflexivity.
Defined.

(** C3 as stated fails: one dark pixel in a white image is a pixel of
    interest, yet the box is taken for degenerate and the input comes back
    unchanged. *)
Lemma crop_single_pixel_falls_back :
  downscaled Sample.nearest Sample.dot_3x3 CROP_DOWNSCALE_MAX
  = Some (1%float, Sample.dot_3x3)
  /\ interesting CROP_SAT_THRESH CROP_LUM_THRESH Sample.dot_3x3 1 1
  /\ scan_bounds CROP_SAT_THRESH CROP_LUM_THRESH Sample.dot_3x3 = (1, 1, 1, 1)
  /\ degenerate (scan_bounds CROP_SAT_THRESH CROP_LUM_THRESH Sample.dot_3x3) = true
  /\ crop_to_gradient_tile_square Sample.nearest Sample.dot_3x3
       CROP_SAT_THRESH CROP_LUM_THRESH CROP_INSET_PERCENT CROP_DOWNSCALE_MAX
     = Some Sample.dot_3x3.
Proof.
  unfold interesting. repeat split; try (vm_compute; reflexivity); cbn; lia.
Qed.

(** ** The recolorers *)

Lemma fold_left_ext {A B : Type} (f g : A -> B -> A) (l : list B) (a : A) :
  (forall a b, f a b = g a b) -> fold_left f l a = fold_left g l a.
Proof.
  intros H. revert a. induction l as [|b l IH]; intros a; simpl; [reflexivity|].
  now rewrite H, IH.
Qed.


(** A position on the list ends up holding what [f] says for it, or its
    old pixel when [f] says nothing; a position off the list is untouched. *)
Lemma paint_list_load (f : Z -> Z -> option pixel) (cs : list (Z * Z)) (im : Image) (x y : Z) :
  load (paint_list f cs im) x y
  = if existsb (fun c => (x =? fst c) && (y =? snd c)) cs
    then match f x y with Some v => v | None => load im x y end
    else load im x y.
Proof.
  unfold paint_list. revert im. induction cs as [|[x' y'] cs IH]; intros im; [reflexivity|].
  cbn [fold_left existsb fst snd]. rewrite IH.
  destruct ((x =? x') && (y =? y')) eqn:E.
  - apply andb_prop in E as [Ex Ey]. apply Z.eqb_eq in Ex, Ey. subst x' y'.
    cbn [orb]. destruct (f x y) as [v|] eqn:Ef.
    + cbn [PIL.putpixel load]. rewrite !Z.eqb_refl. cbn. now destruct (existsb _ cs).
    + now destruct (existsb _ cs).
  - cbn [orb].
    assert (Hsame : load (match f x' y' with
                          | Some v => PIL.putpixel im x' y' v
                          | None => im
                          end) x y = load im x y).
    { destruct (f x' y'); [|reflexivity]. cbn [PIL.putpixel load]. now rewrite E. }
    now rewrite Hsame.
Qed.

Lemma coords_existsb (w h x y : Z) :
  0 <= x < w -> 0 <= y < h ->
  existsb (fun c => (x =? fst c) && (y =? snd c)) (coords w h) = true.
Proof.
  intros Hx Hy. apply existsb_exists. exists (x, y). split.
  - apply coords_In. tauto.
  - cbn. now rewrite !Z.eqb_refl.
Qed.

Lemma dark_step_eq (src_pixels : Z -> Z -> pixel) (x y : Z) (result : Image) :
  dark_step src_pixels x y result
  = match dark_pixel (src_pixels x y) with
    | Some v => PIL.putpixel result x y v
    | None => result
    end.
Proof.
  unfold dark_step, dark_pixel. destruct (src_pixels x y) as [[r g] b].
  destruct (is_foreground_pixel r g b); cbn [negb]; [|reflexivity].
  destruct (_is_orange_accent r g b); [reflexivity|].
  now destruct (PrimFloat.ltb _ _).
Qed.

Lemma tinted_step_eq (src_pixels : Z -> Z -> pixel) (x y : Z) (result : Image) :
  tinted_step src_pixels x y result
  = match tinted_pixel (src_pixels x y) with
    | Some v => PIL.putpixel result x y v
    | None => result
    end.
Proof.
  unfold tinted_step, tinted_pixel. destruct (src_pixels x y) as [[r g] b].
  destruct (is_foreground_pixel r g b); cbn [negb]; [|reflexivity].
  destruct (_is_orange_accent r g b); [reflexivity|].
  now destruct (PrimFloat.ltb _ _).
Qed.

Lemma create_dark_icon_eq (source_img : Image) :
  create_dark_icon source_img
  = paint_list (fun x y => dark_pixel (load source_img x y))
      (coords (width source_img) (height source_img))
      (create_dark_gradient (width source_img, height source_img)).
Proof.
  unfold create_dark_icon, PIL.size, PIL.convert_RGB, paint_list.
  rewrite nested_loops_flat. apply fold_left_ext. intros im c. apply dark_step_eq.
Qed.

Lemma create_tinted_icon_eq (source_img : Image) :
  create_tinted_icon source_img
  = paint_list (fun x y => tinted_pixel (load source_img x y))
      (coords (width source_img) (height source_img))
      (PIL.new (width source_img) (height source_img) (0, 0, 0)).
Proof.
  unfold create_tinted_icon, PIL.size, PIL.convert_RGB, paint_list. cbn [fst snd].
  rewrite nested_loops_flat. apply fold_left_ext. intros im c. apply tinted_step_eq.
Qed.

(** The gradient: one colour per row, all the way across. *)
Lemma gradient_rows (w h : Z) (ys : list Z) (im : Image) :
  let out := Py.for_each ys
               (fun y gradient => PIL.draw_hline gradient 0 w y (gradient_color h y)) im in
  width out = width im /\ height out = height im
  /\ forall x y, 0 <= x <= w ->
       load out x y = if existsb (Z.eqb y) ys then gradient_color h y else load im x y.
Proof.
  unfold Py.for_each. revert im. induction ys as [|y' ys IH]; intros im.
  - cbn. tauto.
  - cbn [fold_left existsb]. specialize (IH (PIL.draw_hline im 0 w y' (gradient_color h y'))).
    cbv zeta in IH. destruct IH as (-> & -> & IH). cbn [PIL.draw_hline width height].
    repeat split. intros x y Hx. rewrite (IH x y Hx). cbn [PIL.draw_hline load].
    destruct (Z.eqb_spec y y') as [->|Hne]; cbn [orb andb].
    + replace (0 <=? x) with true by (symmetry; apply Z.leb_le; lia).
      replace (x <=? w) with true by (symmetry; apply Z.leb_le; lia).
      now destruct (existsb _ ys).
    + reflexivity.
Qed.

Lemma create_dark_gradient_spec (w h : Z) :
  width (create_dark_gradient (w, h)) = w
  /\ height (create_dark_gradient (w, h)) = h
  /\ forall x y, 0 <= x <= w -> 0 <= y < h ->
       load (create_dark_gradient (w, h)) x y = gradient_color h y.
Proof.
  unfold create_dark_gradient.
  pose proof (gradient_rows w h (Py.range h) (PIL.new w h (0, 0, 0))) as H.
  cbv zeta in H. destruct H as (Hw & Hh & Hl). repeat split; try assumption.
  intros x y Hx Hy. rewrite (Hl x y Hx).
  replace (existsb (Z.eqb y) (Py.range h)) with true; [reflexivity|].
  symmetry. apply existsb_exists. exists y. split; [now apply range_In | apply Z.eqb_refl].
Qed.



(** Each output pixel, from the source pixel at the same place. *)
Lemma create_dark_icon_load (source_img : Image) (x y : Z) :
  0 <= x < width source_img -> 0 <= y < height source_img ->
  load (create_dark_icon source_img) x y
  = match dark_pixel (load source_img x y) with
    | Some v => v
    | None => gradient_color (height source_img) y
    end.
Proof.
  intros Hx Hy. rewrite create_dark_icon_eq, paint_list_load, coords_existsb by assumption.
  destruct (dark_pixel _); [reflexivity|].
  apply create_dark_gradient_spec; lia.
Qed.

Lemma create_tinted_icon_load (source_img : Image) (x y : Z) :
  0 <= x < width source_img -> 0 <= y < height source_img ->
  load (create_tinted_icon source_img) x y
  = match tinted_pixel (load source_img x y) with
    | Some v => v
    | None => (0, 0, 0)
    end.
Proof.
  intros Hx Hy. rewrite create_tinted_icon_eq, paint_list_load, coords_existsb by assumption.
  reflexivity.
Qed.

(** C5 as stated fails at the threshold.  This colour is no accent and its
    luminance 0.299 r + 0.587 g + 0.114 b is 205 exactly, not below 205; the
    binary64 sum of the code is a hair less, so it is classified
    foreground. *)
Example luminance_205_rounds_below :
  299 * 197 + 587 * 225 + 114 * 123 = 205 * 1000
  /\ _is_orange_accent 197 225 123 = false
  /\ _luminance 197 225 123 = 204.99999999999997%float
  /\ is_foreground_pixel 197 225 123 = true.
Proof. repeat split; vm_compute; reflexivity. Qed.

(** C6. Where the source pixel is classified background, the dark variant
    holds the gradient colour of that row and the tinted variant holds
    black. *)
Theorem background_is_gradient_or_black (source_img : Image) (x y r g b : Z) :
  0 <= x < width source_img -> 0 <= y < height source_img ->
  load source_img x y = (r, g, b) ->
  is_foreground_pixel r g b = false ->
  load (create_dark_icon source_img) x y = gradient_color (height source_img) y
  /\ load (create_tinted_icon source_img) x y = (0, 0, 0).
Proof.
  intros Hx Hy Hp Hbg.
  rewrite create_dark_icon_load, create_tinted_icon_load by assumption.
  rewrite Hp. unfold dark_pixel, tinted_pixel. rewrite Hbg. cbn [negb]. tauto.
Qed.

Lemma background_is_gradient_or_black_witness :
  load (create_dark_icon Sample.block_4x4) 3 3 = gradient_color 4 3
  /\ load (create_tinted_icon Sample.block_4x4) 3 3 = (0, 0, 0).
Proof.
  apply (background_is_gradient_or_black Sample.block_4x4 3 3 255 255 255).
  - cbn. lia.
  - cbn. lia.
  - reflexivity.
  - vm_compute. reflexivity.
Defined.

(** C8. The pixel (200, 120, 30) is an accent; wherever it stands in the
    source, the dark variant holds (210, 126, 30) there (red and green times
    1.05, capped at 255, blue kept) and the tinted variant (255, 255, 255). *)
Theorem accent_pixel_recolors (source_img : Image) (x y : Z) :
  0 <= x < width source_img -> 0 <= y < height source_img ->
  load source_img x y = (200, 120, 30) ->
  _is_orange_accent 200 120 30 = true
  /\ load (create_dark_icon source_img) x y
     = (Z.min 255 (Py.int (Py.float_of_int 200 * 1.05)),
        Z.min 255 (Py.int (Py.float_of_int 120 * 1.05)), 30)
  /\ load (create_dark_icon source_img) x y = (210, 126, 30)
  /\ load (create_tinted_icon source_img) x y = (255, 255, 255).
Proof.
  intros Hx Hy Hp.
  rewrite create_dark_icon_load, create_tinted_icon_load by assumption.
  rewrite Hp. repeat split; vm_compute; reflexivity.
Qed.

Lemma accent_pixel_recolors_witness :
  _is_orange_accent 200 120 30 = true
  /\ load (create_dark_icon Sample.accent_1x1) 0 0
     = (Z.min 255 (Py.int (Py.float_of_int 200 * 1.05)),
        Z.min 255 (Py.int (Py.float_of_int 120 * 1.05)), 30)
  /\ load (create_dark_icon Sample.accent_1x1) 0 0 = (210, 126, 30)
  /\ load (create_tinted_icon Sample.accent_1x1) 0 0 = (255, 255, 255).
Proof.
  apply (accent_pixel_recolors Sample.accent_1x1 0 0); [cbn; lia | cbn; lia | reflexivity].
Defined.



(** ** Binary64 rounding, from the definitions of [SpecFloat] *)

Module IEEE.

Import F64.

Lemma digits2_pos_bounds (p : positive) :
  2 ^ (Z.pos (digits2_pos p) - 1) <= Z.pos p < 2 ^ Z.pos (digits2_pos p).
Proof.
  induction p as [p IH|p IH|]; cbn [digits2_pos].
  - rewrite Pos2Z.inj_succ. replace (Z.succ (Z.pos (digits2_pos p)) - 1)
      with (Z.succ (Z.pos (digits2_pos p) - 1)) by lia.
    rewrite !Z.pow_succ_r by lia. lia.
  - rewrite Pos2Z.inj_succ. replace (Z.succ (Z.pos (digits2_pos p)) - 1)
      with (Z.succ (Z.pos (digits2_pos p) - 1)) by lia.
    rewrite !Z.pow_succ_r by lia. lia.
  - cbn. lia.
Qed.

Lemma digits2_pos_unique (p : positive) (n : Z) :
  2 ^ (n - 1) <= Z.pos p < 2 ^ n -> Z.pos (digits2_pos p) = n.
Proof.
  intros [Hlo Hhi]. pose proof (digits2_pos_bounds p) as [Hl Hh].
  assert (0 < n).
  { destruct (Z.ltb_spec 0 n); [assumption|].
    assert (2 ^ n <= 2 ^ 0) by (apply Z.pow_le_mono_r; lia). cbn in *. lia. }
  destruct (Z.lt_trichotomy (Z.pos (digits2_pos p)) n) as [Hlt|[Heq|Hgt]]; [|assumption|].
  - assert (2 ^ Z.pos (digits2_pos p) <= 2 ^ (n - 1)) by (apply Z.pow_le_mono_r; lia). lia.
  - assert (2 ^ n <= 2 ^ (Z.pos (digits2_pos p) - 1)) by (apply Z.pow_le_mono_r; lia). lia.
Qed.

Lemma iter_pos_nat {A : Type} (f : A -> A) (p : positive) (x : A) :
  iter_pos f p x = Nat.iter (Pos.to_nat p) f x.
Proof.
  revert x. induction p as [p IH|p IH|]; intros x; cbn [iter_pos].
  - rewrite !IH, Pos2Nat.inj_xI, <- Nat.iter_succ_r, <- Nat.iter_add.
    f_equal. lia.
  - rewrite !IH, Pos2Nat.inj_xO, <- Nat.iter_add. f_equal. lia.
  - reflexivity.
Qed.

(** One step of the shift halves the mantissa and keeps the location right. *)
Lemma shr_1_spec (mrs : shr_record) (N D : Z) :
  0 <= shr_m mrs -> 0 < D ->
  loc_ok (loc_of_shr_record mrs) N D ->
  let mrs' := shr_1 mrs in
  shr_m mrs' = shr_m mrs / 2
  /\ loc_ok (loc_of_shr_record mrs') ((shr_m mrs mod 2) * D + N) (2 * D).
Proof.
  destruct mrs as [m r s]. cbn [shr_m]. intros Hm HD [HN Hl].
  assert (Hs : orb r s = false <-> N = 0).
  { destruct r, s; cbn in Hl |- *; split; intros; try discriminate; try lia; try tauto. }
  assert (Hfin : forall (h : Z) (b : bool),
            m / 2 = h -> (b = true -> m mod 2 = 1) -> (b = false -> m mod 2 = 0) ->
            shr_m (Build_shr_record h b (orb r s)) = m / 2
            /\ loc_ok (loc_of_shr_record (Build_shr_record h b (orb r s)))
                 (m mod 2 * D + N) (2 * D)).
  { intros h b Hh Hb1 Hb0. split; [now cbn|]. unfold loc_ok.
    destruct b; [rewrite (Hb1 eq_refl)|rewrite (Hb0 eq_refl)];
      (destruct (orb r s) eqn:E; cbn [loc_of_shr_record];
       [assert (N <> 0) by (intros HN0; apply Hs in HN0; congruence)
       |assert (N = 0) by now apply Hs]).
    - split; [lia|]. split; [lia|]. apply Z.compare_gt_iff. lia.
    - split; [lia|]. split; [lia|]. apply Z.compare_eq_iff. lia.
    - split; [lia|]. split; [lia|]. apply Z.compare_lt_iff. lia.
    - lia. }
  destruct m as [|[p|p|]|p]; try lia; cbn [shr_1].
  - apply (Hfin 0 false); [reflexivity | discriminate | reflexivity].
  - apply (Hfin (Z.pos p) true); [|intros _|discriminate].
    + rewrite Pos2Z.inj_xI. symmetry. apply Z.div_unique with 1; lia.
    + rewrite Pos2Z.inj_xI. symmetry. apply Z.mod_unique with (Z.pos p); lia.
  - apply (Hfin (Z.pos p) false); [|discriminate|intros _].
    + rewrite Pos2Z.inj_xO. symmetry. apply Z.div_unique with 0; lia.
    + rewrite Pos2Z.inj_xO. symmetry. apply Z.mod_unique with (Z.pos p); lia.
  - apply (Hfin 0 true); [reflexivity | reflexivity | discriminate].
Qed.

Lemma shr_iter_spec (n : nat) (mrs : shr_record) (N D : Z) :
  0 <= shr_m mrs -> 0 < D ->
  loc_ok (loc_of_shr_record mrs) N D ->
  let mrs' := Nat.iter n shr_1 mrs in
  shr_m mrs' = shr_m mrs / 2 ^ Z.of_nat n
  /\ loc_ok (loc_of_shr_record mrs')
       ((shr_m mrs mod 2 ^ Z.of_nat n) * D + N) (2 ^ Z.of_nat n * D).
Proof.
  intros Hm HD Hl. induction n as [|n IH].
  - cbn [Nat.iter Z.of_nat]. rewrite Z.pow_0_r, Z.div_1_r, Z.mod_1_r.
    split; [reflexivity|]. now replace (0 * D + N) with N by lia; replace (1 * D) with D by lia.
  - cbn zeta in IH |- *. destruct IH as [IHm IHl]. rewrite Nat.iter_succ.
    assert (Hp : 0 < 2 ^ Z.of_nat n) by (apply Z.pow_pos_nonneg; lia).
    assert (Hm' : 0 <= shr_m (Nat.iter n shr_1 mrs)).
    { rewrite IHm. apply Z.div_pos; lia. }
    assert (HD' : 0 < 2 ^ Z.of_nat n * D) by lia.
    destruct (shr_1_spec _ _ _ Hm' HD' IHl) as [H1 H2].
    rewrite Nat2Z.inj_succ, Z.pow_succ_r by lia.
    split.
    + rewrite H1, IHm, Z.div_div by lia. f_equal. lia.
    + rewrite IHm in H2.
      replace (shr_m mrs mod (2 * 2 ^ Z.of_nat n))
        with (shr_m mrs mod 2 ^ Z.of_nat n
              + 2 ^ Z.of_nat n * ((shr_m mrs / 2 ^ Z.of_nat n) mod 2)).
      2:{ rewrite (Z.mul_comm 2). symmetry. apply Z.rem_mul_r; lia. }
      replace ((shr_m mrs mod 2 ^ Z.of_nat n
                + 2 ^ Z.of_nat n * ((shr_m mrs / 2 ^ Z.of_nat n) mod 2)) * D + N)
        with ((shr_m mrs / 2 ^ Z.of_nat n) mod 2 * (2 ^ Z.of_nat n * D)
              + (shr_m mrs mod 2 ^ Z.of_nat n * D + N)) by ring.
      now replace (2 * 2 ^ Z.of_nat n * D) with (2 * (2 ^ Z.of_nat n * D)) by ring.
Qed.

Lemma shr_spec (mrs : shr_record) (e n N D : Z) :
  0 <= shr_m mrs -> 0 < D -> 0 <= n ->
  loc_ok (loc_of_shr_record mrs) N D ->
  let '(mrs', e') := shr mrs e n in
  e' = e + n
  /\ shr_m mrs' = shr_m mrs / 2 ^ n
  /\ loc_ok (loc_of_shr_record mrs') ((shr_m mrs mod 2 ^ n) * D + N) (2 ^ n * D).
Proof.
  intros Hm HD Hn Hl. unfold shr. destruct n as [|p|p]; try lia.
  - rewrite Z.pow_0_r, Z.div_1_r, Z.mod_1_r. split; [lia|]. split; [reflexivity|].
    now replace (0 * D + N) with N by lia; replace (1 * D) with D by lia.
  - split; [reflexivity|]. rewrite iter_pos_nat.
    pose proof (shr_iter_spec (Pos.to_nat p) mrs N D Hm HD Hl) as H.
    cbn zeta in H. now rewrite positive_nat_Z in H.
Qed.

Lemma loc_of_shr_record_of_loc (m : Z) (l : location) :
  loc_of_shr_record (shr_record_of_loc m l) = l /\ shr_m (shr_record_of_loc m l) = m.
Proof. destruct l as [|[]]; split; reflexivity. Qed.

(** Rounding to nearest, ties to even, moves by at most half a unit. *)
Lemma round_nearest_even_spec (q : Z) (l : location) (N D : Z) :
  loc_ok l N D ->
  let q' := round_nearest_even q l in
  (q' = q \/ q' = q + 1) /\ 2 * Z.abs (q' * D - (q * D + N)) <= D.
Proof.
  intros [HN Hl]. unfold round_nearest_even. cbv zeta.
  destruct l as [|[]].
  - split; [now left|]. subst N. replace (q * D - (q * D + 0)) with 0 by ring. cbn. lia.
  - destruct Hl as [HN0 Hc]. apply Z.compare_eq_iff in Hc.
    destruct (Z.even q); split; try tauto.
    + replace (q * D - (q * D + N)) with (- N) by ring. lia.
    + replace ((q + 1) * D - (q * D + N)) with (D - N) by ring. lia.
  - destruct Hl as [HN0 Hc]. change (2 * N < D) in Hc.
    split; [now left|]. replace (q * D - (q * D + N)) with (- N) by ring. lia.
  - destruct Hl as [HN0 Hc]. change (2 * N > D) in Hc.
    split; [now right|]. replace ((q + 1) * D - (q * D + N)) with (D - N) by ring. lia.
Qed.

Lemma fexp_normal (x : Z) : -1021 <= x -> fexp prec emax x = x - 53.
Proof. unfold fexp, SpecFloat.emin, prec, emax. lia. Qed.

Lemma Zdigits2_lower (m : Z) : 2 ^ 52 <= m -> 53 <= Zdigits2 m.
Proof.
  intros Hm. destruct m as [|p|p]; try (cbn in Hm; lia). cbn [Zdigits2].
  pose proof (digits2_pos_bounds p) as [_ Hh].
  destruct (Z.ltb_spec (Z.pos (digits2_pos p)) 53); [|assumption].
  assert (2 ^ Z.pos (digits2_pos p) <= 2 ^ 52) by (apply Z.pow_le_mono_r; lia). lia.
Qed.

Lemma Zdigits2_bounds (m : Z) :
  0 < m -> 2 ^ (Zdigits2 m - 1) <= m < 2 ^ Zdigits2 m.
Proof. destruct m as [|p|p]; try lia. intros _. apply digits2_pos_bounds. Qed.

Lemma Zdigits2_unique (m n : Z) : 2 ^ (n - 1) <= m < 2 ^ n -> 0 < m -> Zdigits2 m = n.
Proof. destruct m as [|p|p]; try lia. intros H _. now apply digits2_pos_unique. Qed.

(** The rounding step shared by the operations: from a mantissa of at least
    53 bits and a location, to a normal float within half a unit in the
    last place kept. *)
Lemma binary_round_aux_spec (s : bool) (m e : Z) (l : location) (N D : Z) :
  2 ^ 52 <= m -> 0 < D -> loc_ok l N D ->
  -1074 <= e -> e + Zdigits2 m <= 1023 ->
  exists (q : positive) (k : Z),
    binary_round_aux prec emax s m e l = S754_finite s q (e + k)
    /\ 2 ^ 52 <= Z.pos q < 2 ^ 53
    /\ Zdigits2 m - 53 <= k <= Zdigits2 m - 52
    /\ 2 * Z.abs (Z.pos q * 2 ^ k * D - (m * D + N)) <= 2 ^ (Zdigits2 m - 53) * D.
Proof.
  intros Hm HD Hl He Hov.
  pose proof (Zdigits2_lower m Hm) as Hd.
  assert (Hm0 : 0 < m) by (assert (0 < 2 ^ 52) by (apply Z.pow_pos_nonneg; lia); lia).
  pose proof (Zdigits2_bounds m Hm0) as [Hlo Hhi].
  set (d := Zdigits2 m) in *. set (n1 := d - 53).
  assert (Hp1 : 0 < 2 ^ n1) by (apply Z.pow_pos_nonneg; lia).
  unfold binary_round_aux, shr_fexp. fold d.
  rewrite fexp_normal by lia. replace (d + e - 53 - e) with n1 by lia.
  destruct (loc_of_shr_record_of_loc m l) as [Hloc Hsm].
  pose proof (shr_spec (shr_record_of_loc m l) e n1 N D) as H1.
  rewrite Hsm, Hloc in H1. specialize (H1 ltac:(lia) HD ltac:(lia) Hl).
  destruct (shr (shr_record_of_loc m l) e n1) as [mrs' e'].
  destruct H1 as (-> & Hq1 & Hl1).
  set (q1 := shr_m mrs') in *.
  assert (Hq1b : 2 ^ 52 <= q1 < 2 ^ 53).
  { rewrite Hq1. replace d with (53 + n1) in Hhi by lia. replace (d - 1) with (52 + n1) in Hlo by lia.
    rewrite Z.pow_add_r in Hlo, Hhi by lia. split.
    - apply Z.div_le_lower_bound; lia.
    - apply Z.div_lt_upper_bound; lia. }
  pose proof (round_nearest_even_spec q1 (loc_of_shr_record mrs') _ _ Hl1) as H2.
  cbv zeta in H2. set (q2 := round_nearest_even q1 (loc_of_shr_record mrs')) in *.
  destruct H2 as [Hq2 Herr].
  assert (Hdecomp : q1 * (2 ^ n1 * D) + (m mod 2 ^ n1 * D + N) = m * D + N).
  { rewrite Hq1. rewrite (Z.div_mod m (2 ^ n1)) at 3 by lia. ring. }
  rewrite Hdecomp in Herr.
  destruct (Z.ltb_spec q2 (2 ^ 53)) as [Hlt|Hge].
  - (* no carry *)
    assert (Hd2 : Zdigits2 q2 = 53) by (apply Zdigits2_unique; cbn; lia).
    rewrite Hd2, fexp_normal by lia. replace (53 + (e + n1) - 53 - (e + n1)) with 0 by lia.
    cbn [shr shr_record_of_loc shr_m].
    destruct q2 as [|q|q] eqn:Eq2; try lia.
    exists q, n1. replace (e + n1 <=? emax - prec) with true
      by (symmetry; apply Z.leb_le; unfold emax, prec; lia).
    repeat split; lia.
  - (* the mantissa rounded up to 2^53 *)
    assert (Eq2 : q2 = 2 ^ 53) by lia.
    rewrite Eq2. change (Zdigits2 (2 ^ 53)) with 54.
    rewrite fexp_normal by lia. replace (54 + (e + n1) - 53 - (e + n1)) with 1 by lia.
    cbn [shr shr_record_of_loc shr_m iter_pos]. 
    change (shr_m (shr_1 {| shr_m := 2 ^ 53; shr_r := false; shr_s := false |}))
      with (Z.pos (Z.to_pos (2 ^ 52))).
    exists (Z.to_pos (2 ^ 52)), (n1 + 1).
    replace (e + n1 + 1 <=? emax - prec) with true
      by (symmetry; apply Z.leb_le; unfold emax, prec; lia).
    replace (e + n1 + 1) with (e + (n1 + 1)) by lia.
    repeat split; try (cbn; lia); try lia.
    replace (Z.pos (Z.to_pos (2 ^ 52)) * 2 ^ (n1 + 1) * D) with (q2 * (2 ^ n1 * D)).
    + lia.
    + rewrite Eq2, Z.pow_add_r by lia. change (Z.pos (Z.to_pos (2 ^ 52))) with (2 ^ 52).
      change (2 ^ 53) with (2 ^ 52 * 2). ring.
Qed.

Lemma binary_round_aux_rel (s : bool) (m e : Z) (l : location) (N D : Z) :
  2 ^ 52 <= m -> 0 < D -> loc_ok l N D ->
  -1074 <= e -> e + Zdigits2 m <= 1023 ->
  exists (q : positive) (k : Z),
    binary_round_aux prec emax s m e l = S754_finite s q (e + k)
    /\ 2 ^ 52 <= Z.pos q < 2 ^ 53
    /\ 0 <= Zdigits2 m - 53 <= k /\ k <= Zdigits2 m - 52
    /\ 2 ^ 53 * Z.abs (Z.pos q * 2 ^ k * D - (m * D + N)) <= Z.pos q * 2 ^ k * D
    /\ (Zdigits2 m = 53 -> N = 0 -> Z.pos q * 2 ^ k = m).
Proof.
  intros Hm HD Hl He Hov.
  destruct (binary_round_aux_spec s m e l N D Hm HD Hl He Hov) as (q & k & Hr & Hq & Hk & Herr).
  pose proof (Zdigits2_lower m Hm) as Hd.
  exists q, k. split; [exact Hr|]. split; [exact Hq|]. split; [lia|]. split; [lia|].
  set (n1 := Zdigits2 m - 53) in *.
  assert (Hp1 : 0 < 2 ^ n1) by (apply Z.pow_pos_nonneg; lia).
  assert (Hpk : 2 ^ n1 <= 2 ^ k) by (apply Z.pow_le_mono_r; lia).
  split.
  - set (E := Z.abs (Z.pos q * 2 ^ k * D - (m * D + N))) in *.
    assert (2 ^ 52 * 2 ^ n1 * D <= Z.pos q * 2 ^ k * D).
    { apply Z.mul_le_mono_nonneg_r; [lia|]. apply Z.mul_le_mono_nonneg; lia. }
    change (2 ^ 53) with (2 ^ 52 * 2). nia.
  - intros Hd53 HN. subst N. replace n1 with 0 in * by lia.
    assert (Hk01 : k = 0 \/ k = 1) by lia.
    destruct Hk01 as [->| ->].
    + rewrite Z.pow_0_r, Z.mul_1_r in *. nia.
    + change (2 ^ 1) with 2 in *. change (2 ^ 0) with 1 in *.
      assert (Hmlt : m < 2 ^ 53).
      { pose proof (Zdigits2_bounds m ltac:(lia)) as [_ Hh]. now rewrite Hd53 in Hh. }
      assert (Z.abs (Z.pos q * 2 * D - (m * D + 0)) = (Z.pos q * 2 - m) * D) by nia.
      nia.
Qed.

#[local] Open Scope R_scope.

Lemma pow2_pos (e : Z) : 0 < pow2 e.
Proof. apply powerRZ_lt. lra. Qed.

Lemma pow2_add (a b : Z) : pow2 (a + b) = pow2 a * pow2 b.
Proof. apply powerRZ_add. lra. Qed.

Lemma pow2_IZR (k : Z) : (0 <= k)%Z -> pow2 k = IZR (2 ^ k).
Proof.
  intros Hk. unfold pow2. rewrite <- (Z2Nat.id k) by assumption.
  rewrite <- pow_powerRZ, pow_IZR. reflexivity.
Qed.

Lemma pow2_le (a b : Z) : (a <= b)%Z -> pow2 a <= pow2 b.
Proof.
  intros H. replace b with (a + (b - a))%Z by lia. rewrite pow2_add, (pow2_IZR (b - a)) by lia.
  assert (1 <= IZR (2 ^ (b - a))).
  { apply IZR_le. assert (0 < 2 ^ (b - a))%Z by (apply Z.pow_pos_nonneg; lia). lia. }
  pose proof (pow2_pos a). nra.
Qed.

Lemma u_pow2_53 : u * IZR (2 ^ 53) = 1.
Proof.
  unfold u. rewrite <- (pow2_IZR 53) by lia. rewrite <- pow2_add. reflexivity.
Qed.

Lemma u_bounds : 0 < u < / 1000000000000000.
Proof.
  pose proof u_pow2_53 as H. pose proof (pow2_pos (-53)) as Hp. fold u in Hp.
  split; [assumption|].
  assert (H2 : IZR (2 ^ 53) = 9007199254740992) by (now change (2 ^ 53)%Z with 9007199254740992%Z).
  rewrite H2 in H. apply Rmult_lt_reg_r with 1000000000000000; [lra|].
  rewrite Rinv_l by lra. nra.
Qed.

(** From the integer bound of the rounding step to the values. *)
Lemma rel_err_R (Q k m N D e : Z) :
  (0 <= k)%Z -> (0 < D)%Z ->
  (2 ^ 53 * Z.abs (Q * 2 ^ k * D - (m * D + N)) <= Q * 2 ^ k * D)%Z ->
  Rabs (IZR Q * pow2 (e + k) - (IZR m + IZR N / IZR D) * pow2 e)
  <= u * (IZR Q * pow2 (e + k)).
Proof.
  intros Hk HD H. apply IZR_le in H.
  rewrite !mult_IZR, abs_IZR, minus_IZR, plus_IZR, !mult_IZR in H.
  assert (HDr : 0 < IZR D) by now apply IZR_lt.
  rewrite (Z.add_comm e k), pow2_add, (pow2_IZR k) by assumption.
  set (A := IZR Q * IZR (2 ^ k)) in *.
  set (B := IZR m + IZR N / IZR D).
  replace (IZR Q * (IZR (2 ^ k) * pow2 e) - B * pow2 e) with ((A - B) * pow2 e)
    by (unfold A; ring).
  replace (IZR Q * (IZR (2 ^ k) * pow2 e)) with (A * pow2 e) by (unfold A; ring).
  replace (A * IZR D - (IZR m * IZR D + IZR N)) with ((A - B) * IZR D) in H
    by (unfold B; field; lra).
  rewrite Rabs_mult, (Rabs_pos_eq (IZR D)) in H by lra.
  rewrite Rabs_mult, (Rabs_pos_eq (pow2 e)) by (pose proof (pow2_pos e); lra).
  pose proof (pow2_pos e) as Hp. pose proof u_pow2_53 as Hu. pose proof u_bounds as [Hu0 _].
  pose proof (Rabs_pos (A - B)) as Ha.
  assert (H' : IZR (2 ^ 53) * Rabs (A - B) <= A).
  { apply Rmult_le_reg_r with (IZR D); [assumption|]. lra. }
  assert (Rabs (A - B) <= u * A).
  { replace (Rabs (A - B)) with (u * (IZR (2 ^ 53) * Rabs (A - B))).
    - apply Rmult_le_compat_l; lra.
    - rewrite <- Rmult_assoc, Hu. ring. }
  replace (u * (A * pow2 e)) with (u * A * pow2 e) by ring.
  apply Rmult_le_compat_r; lra.
Qed.

Lemma Zdigits2_upper (m n : Z) : (0 < m < 2 ^ n)%Z -> (Zdigits2 m <= n)%Z.
Proof.
  intros [H0 Hn]. pose proof (Zdigits2_bounds m H0) as [Hl _].
  destruct (Z.leb_spec (Zdigits2 m) n); [assumption|].
  assert (2 ^ n <= 2 ^ (Zdigits2 m - 1))%Z.
  { apply Z.pow_le_mono_r; [lia|]. lia. }
  lia.
Qed.

Lemma Zdigits2_lower_gen (m n : Z) : (2 ^ n <= m)%Z -> (0 <= n)%Z -> (n + 1 <= Zdigits2 m)%Z.
Proof.
  intros Hn H0. assert (0 < 2 ^ n)%Z by (apply Z.pow_pos_nonneg; lia).
  pose proof (Zdigits2_bounds m ltac:(lia)) as [_ Hh].
  destruct (Z.leb_spec (n + 1) (Zdigits2 m)); [assumption|].
  assert (2 ^ Zdigits2 m <= 2 ^ n)%Z.
  { apply Z.pow_le_mono_r; lia. }
  lia.
Qed.

Lemma pnormal_val (x : float) (lo hi : Z) :
  pnormal x lo hi ->
  exists m e, Prim2SF x = S754_finite false m e
              /\ (2 ^ 52 <= Z.pos m < 2 ^ 53)%Z /\ (lo <= e <= hi)%Z
              /\ val x = IZR (Z.pos m) * pow2 e.
Proof.
  intros (m & e & H & Hm & He). exists m, e. repeat split; try assumption; try lia.
  unfold val. rewrite H. cbn [SF2R]. ring.
Qed.

Lemma pnormal_pos (x : float) (lo hi : Z) : pnormal x lo hi -> 0 < val x.
Proof.
  intros H. destruct (pnormal_val _ _ _ H) as (m & e & _ & Hm & _ & ->).
  pose proof (pow2_pos e). assert (0 < IZR (Z.pos m)) by (apply IZR_lt; lia). nra.
Qed.

(** Multiplication of positive normal floats: the standard model. *)
Lemma mul_pnormal (x y : float) (a b c d : Z) :
  pnormal x a b -> pnormal y c d ->
  (-1074 <= a + c)%Z -> (b + d <= 917)%Z ->
  pnormal (x * y) (a + c + 52) (b + d + 54)
  /\ Rabs (val (x * y) - val x * val y) <= u * val (x * y).
Proof.
  intros Hx Hy Hlo Hhi.
  destruct (pnormal_val _ _ _ Hx) as (mx & ex & Ex & Hmx & Hex & Vx).
  destruct (pnormal_val _ _ _ Hy) as (my & ey & Ey & Hmy & Hey & Vy).
  assert (Hprod : (2 ^ 104 <= Z.pos (mx * my) < 2 ^ 106)%Z).
  { rewrite Pos2Z.inj_mul. change (2 ^ 104)%Z with (2 ^ 52 * 2 ^ 52)%Z.
    change (2 ^ 106)%Z with (2 ^ 53 * 2 ^ 53)%Z. nia. }
  assert (Hd : (105 <= Zdigits2 (Z.pos (mx * my)) <= 106)%Z).
  { split; [apply (Zdigits2_lower_gen _ 104); lia | apply Zdigits2_upper; lia]. }
  destruct (binary_round_aux_rel false (Z.pos (mx * my)) (ex + ey) loc_Exact 0 1)
    as (q & k & Hr & Hq & Hk1 & Hk2 & Herr & _).
  { change (2 ^ 104)%Z with (2 ^ 52 * 2 ^ 52)%Z in Hprod.
    assert (0 < 2 ^ 52)%Z by (apply Z.pow_pos_nonneg; lia). nia. }
  { lia. }
  { unfold loc_ok. lia. }
  { lia. }
  { lia. }
  assert (Er : Prim2SF (x * y) = S754_finite false q (ex + ey + k)).
  { rewrite mul_spec, Ex, Ey. exact Hr. }
  split.
  - exists q, (ex + ey + k)%Z. repeat split; try assumption; lia.
  - assert (Vr : val (x * y) = IZR (Z.pos q) * pow2 (ex + ey + k))
      by (unfold val; rewrite Er; cbn [SF2R]; ring).
    rewrite Vr, Vx, Vy.
    pose proof (rel_err_R (Z.pos q) k (Z.pos (mx * my)) 0 1 (ex + ey) ltac:(lia) ltac:(lia) Herr) as H.
    replace (IZR (Z.pos (mx * my)) + 0 / 1) with (IZR (Z.pos mx) * IZR (Z.pos my)) in H
      by (rewrite Pos2Z.inj_mul, mult_IZR; field).
    replace (IZR (Z.pos mx) * pow2 ex * (IZR (Z.pos my) * pow2 ey))
      with (IZR (Z.pos mx) * IZR (Z.pos my) * pow2 (ex + ey)) by (rewrite pow2_add; ring).
    exact H.
Qed.

Lemma new_location_ok (m2 r : Z) :
  (0 < m2)%Z -> (0 <= r < m2)%Z -> loc_ok (new_location m2 r) r m2.
Proof.
  intros Hm Hr. unfold new_location, new_location_even, new_location_odd, loc_ok.
  split; [assumption|].
  destruct (Z.even m2) eqn:Ev; destruct (Z.eqb_spec r 0) as [->|Hr0]; try reflexivity.
  - split; [lia | reflexivity].
  - split; [lia|].
    assert (Hodd : Z.odd m2 = true) by (rewrite <- Z.negb_even, Ev; reflexivity).
    apply Z.odd_spec in Hodd as [t Ht].
    destruct (Z.compare_spec (2 * r + 1) m2).
    + apply Z.compare_lt_iff. lia.
    + apply Z.compare_lt_iff. lia.
    + apply Z.compare_gt_iff. lia.
Qed.

Lemma SFdiv_core_binary_spec (mx my : positive) (ex ey : Z) :
  (2 ^ 52 <= Z.pos mx < 2 ^ 53)%Z -> (2 ^ 52 <= Z.pos my < 2 ^ 53)%Z ->
  (-1021 <= ex - ey)%Z ->
  SFdiv_core_binary prec emax (Z.pos mx) ex (Z.pos my) ey
  = ((Z.pos mx * 2 ^ 53 / Z.pos my)%Z, (ex - ey - 53)%Z,
     new_location (Z.pos my) ((Z.pos mx * 2 ^ 53) mod Z.pos my)%Z).
Proof.
  intros Hmx Hmy He. unfold SFdiv_core_binary. cbn [Zdigits2].
  rewrite (digits2_pos_unique mx 53), (digits2_pos_unique my 53) by (cbn; lia).
  rewrite fexp_normal by lia.
  replace (Z.min (53 + ex - (53 + ey) - 53) (ex - ey))%Z with (ex - ey - 53)%Z by lia.
  replace (ex - ey - (ex - ey - 53))%Z with 53%Z by lia.
  rewrite Z.shiftl_mul_pow2 by lia.
  unfold Z.div, Z.modulo. now destruct (Z.div_eucl _ _).
Qed.

(** Division of positive normal floats: the standard model. *)
Lemma div_pnormal (x y : float) (a b c d : Z) :
  pnormal x a b -> pnormal y c d ->
  (-1021 <= a - d)%Z -> (b - c <= 1000)%Z ->
  pnormal (x / y) (a - d - 53) (b - c - 51)
  /\ Rabs (val (x / y) - val x / val y) <= u * val (x / y).
Proof.
  intros Hx Hy Hlo Hhi.
  destruct (pnormal_val _ _ _ Hx) as (mx & ex & Ex & Hmx & Hex & Vx).
  destruct (pnormal_val _ _ _ Hy) as (my & ey & Ey & Hmy & Hey & Vy).
  set (M := (Z.pos mx * 2 ^ 53)%Z).
  assert (HM : (M = Z.pos my * (M / Z.pos my) + M mod Z.pos my)%Z) by (apply Z.div_mod; lia).
  assert (Hrem : (0 <= M mod Z.pos my < Z.pos my)%Z) by (apply Z.mod_pos_bound; lia).
  assert (Hq : (2 ^ 52 <= M / Z.pos my < 2 ^ 54)%Z).
  { split.
    - apply Z.div_le_lower_bound; [lia|]. unfold M. change (2 ^ 53)%Z with (2 * 2 ^ 52)%Z. nia.
    - apply Z.div_lt_upper_bound; [lia|]. unfold M.
      change (2 ^ 54)%Z with (2 ^ 53 * 2)%Z. change (2 ^ 53)%Z with (2 ^ 52 * 2)%Z in *. nia. }
  assert (Hd : (Zdigits2 (M / Z.pos my) <= 54)%Z) by (apply Zdigits2_upper; lia).
  pose proof (Zdigits2_lower _ (proj1 Hq)) as Hd'.
  destruct (binary_round_aux_rel false (M / Z.pos my) (ex - ey - 53)
              (new_location (Z.pos my) (M mod Z.pos my)) (M mod Z.pos my) (Z.pos my))
    as (q & k & Hr & Hqb & Hk1 & Hk2 & Herr & _); try lia.
  { apply new_location_ok; lia. }
  assert (Er : Prim2SF (x / y) = S754_finite false q (ex - ey - 53 + k)).
  { rewrite div_spec, Ex, Ey. unfold SF64div, SFdiv.
    rewrite SFdiv_core_binary_spec by (assumption || lia). exact Hr. }
  split.
  - exists q, (ex - ey - 53 + k)%Z. repeat split; try assumption; lia.
  - assert (Vr : val (x / y) = IZR (Z.pos q) * pow2 (ex - ey - 53 + k))
      by (unfold val; rewrite Er; cbn [SF2R]; ring).
    rewrite Vr, Vx, Vy.
    pose proof (rel_err_R (Z.pos q) k (M / Z.pos my) (M mod Z.pos my) (Z.pos my)
                  (ex - ey - 53) ltac:(lia) ltac:(lia) Herr) as H.
    replace (IZR (Z.pos mx) * pow2 ex / (IZR (Z.pos my) * pow2 ey))
      with ((IZR (M / Z.pos my) + IZR (M mod Z.pos my) / IZR (Z.pos my)) * pow2 (ex - ey - 53));
      [exact H|].
    assert (Hmy0 : 0 < IZR (Z.pos my)) by (apply IZR_lt; lia).
    pose proof (pow2_pos ey) as Hpy.
    replace (IZR (M / Z.pos my) + IZR (M mod Z.pos my) / IZR (Z.pos my))
      with (IZR M / IZR (Z.pos my)).
    2:{ rewrite HM at 1. rewrite plus_IZR, mult_IZR. field. lra. }
    unfold M. rewrite mult_IZR, <- (pow2_IZR 53) by lia.
    replace (pow2 ex) with (pow2 53 * pow2 (ex - ey - 53) * pow2 ey).
    + field. lra.
    + rewrite <- !pow2_add. f_equal. lia.
Qed.

Lemma pos_iter_xO (m d : positive) :
  Z.pos (Pos.iter xO m d) = (Z.pos m * 2 ^ Z.pos d)%Z.
Proof.
  induction d as [|d IH] using Pos.peano_ind.
  - cbn [Pos.iter]. rewrite Pos2Z.inj_xO. change (2 ^ 1)%Z with 2%Z. lia.
  - rewrite Pos.iter_succ, Pos2Z.inj_xO, IH, Pos2Z.inj_succ, Z.pow_succ_r by lia. ring.
Qed.

Lemma shl_align_spec (mx : positive) (ex ex' : Z) :
  fst (shl_align mx ex ex') = mx /\ snd (shl_align mx ex ex') = ex /\ (ex <= ex')%Z
  \/ Z.pos (fst (shl_align mx ex ex')) = (Z.pos mx * 2 ^ (ex - ex'))%Z
     /\ snd (shl_align mx ex ex') = ex' /\ (ex' < ex)%Z.
Proof.
  unfold shl_align. destruct (ex' - ex)%Z as [|p|p] eqn:E; cbn [fst snd].
  - left. repeat split; lia.
  - left. repeat split; lia.
  - right. rewrite pos_iter_xO. replace (ex - ex')%Z with (Z.pos p) by lia. repeat split; lia.
Qed.

(** Rounding an integer mantissa with its exponent ([binary_round]). *)
Lemma binary_round_rel (s : bool) (p : positive) (e : Z) :
  (-1021 <= e)%Z -> (e + Zdigits2 (Z.pos p) <= 1022)%Z ->
  exists (q : positive) (e'' : Z),
    binary_round prec emax s p e = S754_finite s q e''
    /\ (2 ^ 52 <= Z.pos q < 2 ^ 53)%Z
    /\ (e + Zdigits2 (Z.pos p) - 53 <= e'' <= e + Zdigits2 (Z.pos p) - 52)%Z
    /\ Rabs (IZR (Z.pos q) * pow2 e'' - IZR (Z.pos p) * pow2 e) <= u * (IZR (Z.pos q) * pow2 e'')
    /\ ((Zdigits2 (Z.pos p) <= 53)%Z -> IZR (Z.pos q) * pow2 e'' = IZR (Z.pos p) * pow2 e).
Proof.
  intros He Hov. unfold binary_round.
  pose proof (Zdigits2_bounds (Z.pos p) ltac:(lia)) as Hdb.
  change (Z.pos (digits2_pos p)) with (Zdigits2 (Z.pos p)).
  set (dp := Zdigits2 (Z.pos p)) in *.
  assert (Hdp : (1 <= dp)%Z) by (unfold dp; cbn; lia).
  rewrite fexp_normal by lia.
  pose proof (shl_align_spec p e (dp + e - 53)) as Hsh.
  destruct (shl_align p e (dp + e - 53)) as [m' e'] eqn:Esh. cbn [fst snd] in Hsh.
  assert (Hm' : (2 ^ 52 <= Z.pos m')%Z /\ (-1074 <= e')%Z /\ (e' + Zdigits2 (Z.pos m') = Z.max e (dp + e - 53) + Z.max dp 53 - (Z.max e (dp + e - 53) - e'))%Z
                /\ IZR (Z.pos m') * pow2 e' = IZR (Z.pos p) * pow2 e
                /\ (e' + Zdigits2 (Z.pos m') = e + Z.max dp 53 + (e' - e))%Z
                /\ (Zdigits2 (Z.pos m') = Z.max dp 53)%Z /\ (e' = Z.min e (dp + e - 53))%Z).
  { destruct Hsh as [(-> & -> & Hle)|(Hm & -> & Hlt)].
    - assert (53 <= dp)%Z by lia. fold dp.
      assert (2 ^ 52 <= 2 ^ (dp - 1))%Z by (apply Z.pow_le_mono_r; lia).
      repeat split; try lia.
    - assert (dp < 53)%Z by lia.
      assert (Hb : (2 ^ 52 <= Z.pos m' < 2 ^ 53)%Z).
      { rewrite Hm. replace (e - (dp + e - 53))%Z with (53 - dp)%Z by lia.
        assert (E52 : (2 ^ 52 = 2 ^ (dp - 1) * 2 ^ (53 - dp))%Z)
          by (rewrite <- Z.pow_add_r by lia; f_equal; lia).
        assert (E53 : (2 ^ 53 = 2 ^ dp * 2 ^ (53 - dp))%Z)
          by (rewrite <- Z.pow_add_r by lia; f_equal; lia).
        rewrite E52, E53.
        assert (0 < 2 ^ (53 - dp))%Z by (apply Z.pow_pos_nonneg; lia). nia. }
      assert (Hd' : Zdigits2 (Z.pos m') = 53%Z) by (apply Zdigits2_unique; cbn; lia).
      repeat split; try lia.
      rewrite Hm, mult_IZR, <- pow2_IZR by lia.
      rewrite Rmult_assoc, <- pow2_add. do 2 f_equal. lia. }
  destruct Hm' as (Hm52 & He' & _ & Hval & _ & Hdm & Hemin).
  destruct (binary_round_aux_rel s (Z.pos m') e' loc_Exact 0 1 Hm52)
    as (q & k & Hr & Hqb & Hk1 & Hk2 & Herr & Hex); try lia.
  { unfold loc_ok. lia. }
  exists q, (e' + k)%Z. split; [exact Hr|]. split; [exact Hqb|]. split; [lia|].
  pose proof (rel_err_R (Z.pos q) k (Z.pos m') 0 1 e' ltac:(lia) ltac:(lia) Herr) as H.
  replace (IZR (Z.pos m') + 0 / 1) with (IZR (Z.pos m')) in H by field.
  rewrite Hval in H. split; [exact H|].
  intros Hle. rewrite <- Hval.
  assert (Hqk : (Z.pos q * 2 ^ k = Z.pos m')%Z) by (apply Hex; lia).
  rewrite <- Hqk, mult_IZR, <- pow2_IZR, (Z.add_comm e' k), pow2_add by lia. ring.
Qed.

Lemma float_of_int_pnormal (n : Z) :
  (1 <= n < 2 ^ 53)%Z ->
  pnormal (Py.float_of_int n) (-52) 1 /\ val (Py.float_of_int n) = IZR n.
Proof.
  intros Hn. unfold Py.float_of_int.
  replace (n <? 0)%Z with false by (symmetry; apply Z.ltb_ge; lia).
  assert (E : Prim2SF (of_uint63 (Uint63.of_Z n)) = binary_normalize prec emax n 0 false).
  { rewrite of_uint63_spec. f_equal. rewrite Uint63.of_Z_spec. apply Z.mod_small.
    change Uint63.wB with (2 ^ 63)%Z. assert (2 ^ 53 < 2 ^ 63)%Z by (now cbn). lia. }
  destruct n as [|p|p]; try lia. cbn [binary_normalize] in E.
  assert (Hd : (Zdigits2 (Z.pos p) <= 53)%Z) by (apply Zdigits2_upper; lia).
  assert (Hd1 : (1 <= Zdigits2 (Z.pos p))%Z) by (cbn; lia).
  destruct (binary_round_rel false p 0 ltac:(lia) ltac:(lia))
    as (q & e'' & Hr & Hq & He & _ & Hex).
  rewrite Hr in E. split.
  - exists q, e''. repeat split; try assumption; lia.
  - unfold val. rewrite E. cbn [SF2R]. rewrite Rmult_1_l, (Hex Hd).
    change (pow2 0) with 1. ring.
Qed.

(** Subtraction of positive normal floats: exact zero, or the standard
    model. *)
Lemma sub_pnormal (x y : float) (a b c d : Z) :
  pnormal x a b -> pnormal y c d ->
  (-1021 <= a)%Z -> (-1021 <= c)%Z -> (b <= 900)%Z -> (d <= 900)%Z ->
  Rabs (val (x - y) - (val x - val y)) <= u * Rabs (val (x - y)).
Proof.
  intros Hx Hy Ha Hc Hb Hd.
  destruct (pnormal_val _ _ _ Hx) as (mx & ex & Ex & Hmx & Hex & Vx).
  destruct (pnormal_val _ _ _ Hy) as (my & ey & Ey & Hmy & Hey & Vy).
  set (ez := Z.min ex ey).
  assert (Hax : Z.pos (fst (shl_align mx ex ez)) = (Z.pos mx * 2 ^ (ex - ez))%Z).
  { destruct (shl_align_spec mx ex ez) as [(-> & _ & Hle)|(H & _ & _)]; [|exact H].
    replace (ex - ez)%Z with 0%Z by lia. now rewrite Z.pow_0_r, Z.mul_1_r. }
  assert (Hay : Z.pos (fst (shl_align my ey ez)) = (Z.pos my * 2 ^ (ey - ez))%Z).
  { destruct (shl_align_spec my ey ez) as [(-> & _ & Hle)|(H & _ & _)]; [|exact H].
    replace (ey - ez)%Z with 0%Z by lia. now rewrite Z.pow_0_r, Z.mul_1_r. }
  assert (E : Prim2SF (x - y)
              = binary_normalize prec emax
                  (Z.pos mx * 2 ^ (ex - ez) - Z.pos my * 2 ^ (ey - ez))%Z ez false).
  { rewrite sub_spec, Ex, Ey. unfold SF64sub, SFsub. fold ez. cbn [cond_Zopp].
    now rewrite Hax, Hay. }
  assert (Hdiff : val x - val y
                  = IZR (Z.pos mx * 2 ^ (ex - ez) - Z.pos my * 2 ^ (ey - ez)) * pow2 ez).
  { rewrite Vx, Vy, minus_IZR, !mult_IZR, <- !pow2_IZR by lia.
    replace (pow2 ex) with (pow2 (ex - ez) * pow2 ez) by (rewrite <- pow2_add; f_equal; lia).
    replace (pow2 ey) with (pow2 (ey - ez) * pow2 ez) by (rewrite <- pow2_add; f_equal; lia).
    ring. }
  assert (Hbig : (Z.abs (Z.pos mx * 2 ^ (ex - ez) - Z.pos my * 2 ^ (ey - ez))
                  < 2 ^ (53 + Z.max ex ey - ez))%Z).
  { assert (0 < 2 ^ (ex - ez))%Z by (apply Z.pow_pos_nonneg; lia).
    assert (0 < 2 ^ (ey - ez))%Z by (apply Z.pow_pos_nonneg; lia).
    assert (Z.pos mx * 2 ^ (ex - ez) < 2 ^ (53 + Z.max ex ey - ez))%Z.
    { replace (53 + Z.max ex ey - ez)%Z with (53 + (Z.max ex ey - ez))%Z by lia.
      rewrite Z.pow_add_r by lia.
      assert (2 ^ (ex - ez) <= 2 ^ (Z.max ex ey - ez))%Z by (apply Z.pow_le_mono_r; lia). nia. }
    assert (Z.pos my * 2 ^ (ey - ez) < 2 ^ (53 + Z.max ex ey - ez))%Z.
    { replace (53 + Z.max ex ey - ez)%Z with (53 + (Z.max ex ey - ez))%Z by lia.
      rewrite Z.pow_add_r by lia.
      assert (2 ^ (ey - ez) <= 2 ^ (Z.max ex ey - ez))%Z by (apply Z.pow_le_mono_r; lia). nia. }
    lia. }
  rewrite Hdiff. unfold val. rewrite E.
  destruct (Z.pos mx * 2 ^ (ex - ez) - Z.pos my * 2 ^ (ey - ez))%Z as [|p|p] eqn:ED;
    cbn [binary_normalize].
  - cbn [SF2R]. rewrite Rmult_0_l, Rminus_0_r, Rabs_R0. lra.
  - assert (Hdp : (Zdigits2 (Z.pos p) <= 53 + Z.max ex ey - ez)%Z)
      by (apply Zdigits2_upper; lia).
    destruct (binary_round_rel false p ez ltac:(lia) ltac:(lia))
      as (q & e'' & -> & Hq & He & Herr & _).
    cbn [SF2R]. rewrite !Rmult_1_l. rewrite (Rabs_pos_eq (IZR (Z.pos q) * pow2 e'')); [exact Herr|].
    pose proof (pow2_pos e''). assert (0 < IZR (Z.pos q)) by (apply IZR_lt; lia). nra.
  - assert (Hdp : (Zdigits2 (Z.pos p) <= 53 + Z.max ex ey - ez)%Z)
      by (apply Zdigits2_upper; lia).
    destruct (binary_round_rel true p ez ltac:(lia) ltac:(lia))
      as (q & e'' & -> & Hq & He & Herr & _).
    cbn [SF2R].
    replace (-1 * IZR (Z.pos q) * pow2 e'' - IZR (Z.neg p) * pow2 ez)
      with (- (IZR (Z.pos q) * pow2 e'' - IZR (Z.pos p) * pow2 ez))
      by (change (Z.neg p) with (- Z.pos p)%Z; rewrite opp_IZR; ring).
    replace (-1 * IZR (Z.pos q) * pow2 e'') with (- (IZR (Z.pos q) * pow2 e'')) by ring.
    rewrite !Rabs_Ropp, (Rabs_pos_eq (IZR (Z.pos q) * pow2 e'')); [exact Herr|].
    pose proof (pow2_pos e''). assert (0 < IZR (Z.pos q)) by (apply IZR_lt; lia). nra.
Qed.

(** [round] lands within a half of the value. *)
Lemma SFround_err (x : spec_float) : Rabs (IZR (Py.SFround x) - SF2R x) <= / 2.
Proof.
  destruct x as [s|s| |s m e]; cbn [Py.SFround SF2R];
    try (rewrite Rminus_0_r, Rabs_R0; lra).
  set (q := Py.int_part m e).
  set (a := match Py.frac_cmp_half m e with
            | Eq => if Z.even q then q else (q + 1)%Z
            | Lt => q
            | Gt => (q + 1)%Z
            end).
  assert (H : Rabs (IZR a - IZR (Z.pos m) * pow2 e) <= / 2).
  { unfold a, q, Py.int_part, Py.frac_cmp_half. destruct (Z.leb_spec 0 e) as [He|He].
    - rewrite mult_IZR, <- pow2_IZR by assumption.
      replace (IZR (Z.pos m) * pow2 e - IZR (Z.pos m) * pow2 e) with 0 by ring.
      rewrite Rabs_R0. lra.
    - set (P := (2 ^ (- e))%Z).
      assert (HP : (0 < P)%Z) by (apply Z.pow_pos_nonneg; lia).
      assert (HPr : 0 < IZR P) by now apply IZR_lt.
      pose proof (Z.div_mod (Z.pos m) P ltac:(lia)) as Hdm.
      pose proof (Z.mod_pos_bound (Z.pos m) P HP) as Hr.
      assert (Hv : IZR (Z.pos m) * pow2 e
                   = IZR (Z.pos m / P) + IZR (Z.pos m mod P) / IZR P).
      { rewrite Hdm at 1. rewrite plus_IZR, mult_IZR.
        replace (pow2 e) with (/ IZR P).
        - field. lra.
        - unfold P. rewrite <- pow2_IZR by lia.
          apply Rmult_eq_reg_r with (pow2 (- e)); [|pose proof (pow2_pos (- e)); lra].
          rewrite <- pow2_add, Rinv_l by (pose proof (pow2_pos (- e)); lra).
          replace (e + - e)%Z with 0%Z by lia. reflexivity. }
      rewrite Hv.
      assert (Hrr : 0 <= IZR (Z.pos m mod P) < IZR P)
        by (split; [apply IZR_le | apply IZR_lt]; lia).
      set (f := IZR (Z.pos m mod P) / IZR P).
      assert (Hf : f * IZR P = IZR (Z.pos m mod P)) by (unfold f; field; lra).
      destruct (Z.compare_spec (2 * (Z.pos m mod P)) P) as [Hc|Hc|Hc].
      + assert (HcR : 2 * IZR (Z.pos m mod P) = IZR P)
          by (rewrite <- mult_IZR; f_equal; exact Hc).
        assert (2 * f = 1).
        { apply Rmult_eq_reg_r with (IZR P); [|lra].
          replace (2 * f * IZR P) with (2 * (f * IZR P)) by ring. rewrite Hf. lra. }
        destruct (Z.even (Z.pos m / P)); [|rewrite plus_IZR];
          apply Rabs_le; lra.
      + apply IZR_lt in Hc. rewrite mult_IZR in Hc.
        assert (2 * f < 1) by (apply Rmult_lt_reg_r with (IZR P); [lra|]; nra).
        assert (0 <= f) by (apply Rmult_le_reg_r with (IZR P); [lra|]; nra).
        apply Rabs_le; lra.
      + apply IZR_lt in Hc. rewrite mult_IZR in Hc.
        assert (1 < 2 * f) by (apply Rmult_lt_reg_r with (IZR P); [lra|]; nra).
        assert (f < 1) by (apply Rmult_lt_reg_r with (IZR P); [lra|]; nra).
        rewrite plus_IZR. apply Rabs_le; lra. }
  destruct s.
  - rewrite opp_IZR.
    replace (- IZR a - -1 * IZR (Z.pos m) * pow2 e) with (- (IZR a - IZR (Z.pos m) * pow2 e)) by ring.
    now rewrite Rabs_Ropp.
  - now rewrite Rmult_1_l.
Qed.

Lemma round_err (x : float) : Rabs (IZR (Py.round x) - val x) <= / 2.
Proof. apply SFround_err. Qed.

Lemma one_pnormal : pnormal 1%float (-52) (-52) /\ val 1%float = 1.
Proof.
  assert (E : Prim2SF 1%float = S754_finite false 4503599627370496 (-52))
    by (vm_compute; reflexivity).
  split.
  - exists 4503599627370496%positive, (-52)%Z. repeat split; try assumption; cbn; lia.
  - unfold val. rewrite E. cbn [SF2R].
    change 4503599627370496%Z with (2 ^ 52)%Z. rewrite <- pow2_IZR, Rmult_1_l, <- pow2_add by lia.
    reflexivity.
Qed.

(** [x < 1.0] as Python tests it. *)
Lemma ltb_one (x : float) (lo hi : Z) :
  pnormal x lo hi -> PrimFloat.ltb x 1%float = true -> val x < 1.
Proof.
  intros Hx Hlt. destruct (pnormal_val _ _ _ Hx) as (m & e & E & Hm & _ & V).
  rewrite ltb_spec, E in Hlt.
  replace (Prim2SF 1%float) with (S754_finite false 4503599627370496 (-52)) in Hlt
    by (vm_compute; reflexivity).
  unfold SFltb, SFcompare in Hlt.
  destruct (Z.compare_spec e (-52)) as [He|He|He]; try discriminate.
  - rewrite Pos.compare_cont_spec in Hlt.
    destruct (Pos.compare_spec m 4503599627370496) as [Hc|Hc|Hc]; try discriminate.
    exfalso. apply Pos2Z.pos_lt_pos in Hc.
    assert (Z.pos 4503599627370496 = 2 ^ 52)%Z by reflexivity. lia.
  - rewrite V.
    assert (IZR (Z.pos m) < IZR (2 ^ 53)) by (apply IZR_lt; lia).
    assert (pow2 e <= pow2 (-53)) by (apply pow2_le; lia).
    pose proof u_pow2_53 as Hu. unfold u in Hu. pose proof (pow2_pos e).
    assert (0 < IZR (Z.pos m)) by (apply IZR_lt; lia). nra.
Qed.

Lemma eqb_zero (x : float) (lo hi : Z) :
  pnormal x lo hi -> PrimFloat.eqb x 0%float = false.
Proof.
  intros (m & e & E & _). rewrite eqb_spec, E.
  replace (Prim2SF 0%float) with (S754_zero false) by (vm_compute; reflexivity).
  reflexivity.
Qed.

Lemma mul_zero_l (x y : float) (lo hi : Z) :
  Prim2SF x = S754_zero false -> pnormal y lo hi -> Prim2SF (x * y) = S754_zero false.
Proof.
  intros Ex (m & e & Ey & _). rewrite mul_spec, Ex, Ey. reflexivity.
Qed.

End IEEE.

(** ** The geometry of the crop, in real numbers *)

Module Geometry.

Import F64 IEEE.
#[local] Open Scope R_scope.

Lemma Rabs_le_inv (x b : R) : Rabs x <= b -> - b <= x <= b.
Proof. unfold Rabs. destruct (Rcase_abs x); lra. Qed.

Lemma u_small : 0 < u /\ u <= / 1000000000000000.
Proof. pose proof u_bounds. lra. Qed.

(** [round(float(k) * y)] is within a half, and a relative error, of
    [k * y]. *)
Lemma scaled_round (k : Z) (y : float) (lo hi : Z) :
  (0 <= k < 2 ^ 53)%Z -> pnormal y lo hi -> (-1022 <= lo)%Z -> (hi <= 900)%Z ->
  Rabs (IZR (Py.round (Py.float_of_int k * y)) - IZR k * val y)
  <= / 2 + 2 * u * (IZR k * val y).
Proof.
  intros Hk Hy Hlo Hhi. pose proof u_small as [Hu0 Hu1].
  pose proof (pnormal_pos _ _ _ Hy) as Hvy.
  destruct (Z.eq_dec k 0) as [->|Hk0].
  - assert (E : Prim2SF (Py.float_of_int 0 * y) = S754_zero false).
    { apply mul_zero_l with lo hi; [vm_compute; reflexivity | assumption]. }
    unfold Py.round. rewrite E. cbn [Py.SFround].
    rewrite Rmult_0_l, Rminus_0_r, Rabs_R0. lra.
  - destruct (float_of_int_pnormal k ltac:(lia)) as [Hpk Vk].
    destruct (mul_pnormal _ _ _ _ _ _ Hpk Hy ltac:(lia) ltac:(lia)) as [Hp Herr].
    pose proof (pnormal_pos _ _ _ Hp) as Hv.
    pose proof (round_err (Py.float_of_int k * y)) as Hr.
    rewrite Vk in Herr.
    set (v := val (Py.float_of_int k * y)) in *.
    set (t := IZR k * val y) in *.
    set (R := IZR (Py.round (Py.float_of_int k * y))) in *.
    apply Rabs_le_inv in Herr, Hr. apply Rabs_le.
    assert (Ht : 0 < t) by (unfold t; apply Rmult_lt_0_compat; [apply IZR_lt; lia | assumption]).
    assert (Huv : u * v <= 2 * u * t) by nra.
    lra.
Qed.

Lemma pnormal_weaken (x : float) (lo hi lo' hi' : Z) :
  pnormal x lo hi -> (lo' <= lo)%Z -> (hi <= hi')%Z -> pnormal x lo' hi'.
Proof.
  intros (m & e & E & Hm & He) Hl Hh. exists m, e. repeat split; try assumption; lia.
Qed.

(** Lines 85-87 on an image of at most 2^31 pixels a side: the scale is a
    normal float in (0, 1], not below 2^-22, and a downscaled side of two
    pixels or more is the rounded product. *)
Lemma downscale_spec (w h : Z) :
  (1 <= w < 2 ^ 31)%Z -> (1 <= h < 2 ^ 31)%Z ->
  exists scale sw sh,
    downscale w h CROP_DOWNSCALE_MAX = Some (scale, sw, sh)
    /\ pnormal scale (-106) 2
    /\ 0 < val scale <= 1 /\ 1 <= val scale * 4194304
    /\ (1 <= sw)%Z /\ (1 <= sh)%Z
    /\ ((2 <= sw)%Z -> IZR sw <= IZR w * val scale + / 2 + eps)
    /\ ((2 <= sh)%Z -> IZR sh <= IZR h * val scale + / 2 + eps).
Proof.
  intros Hw Hh. pose proof u_small as [Hu0 Hu1]. unfold downscale, CROP_DOWNSCALE_MAX.
  set (m := Z.max w h).
  assert (Hm : (1 <= m < 2 ^ 31)%Z) by (unfold m; lia).
  assert (H31 : (2 ^ 31 < 2 ^ 53)%Z) by (apply Z.pow_lt_mono_r; lia).
  destruct (float_of_int_pnormal m ltac:(lia)) as [Hpm Vm].
  destruct (float_of_int_pnormal 700 ltac:(cbn; lia)) as [Hp7 V7].
  unfold Py.truediv. rewrite (eqb_zero _ _ _ Hpm).
  destruct (div_pnormal _ _ _ _ _ _ Hp7 Hpm ltac:(lia) ltac:(lia)) as [Hpq Herr].
  rewrite V7, Vm in Herr. cbn [Z.sub Z.add Z.opp Pos.add Pos.succ Z.pos_sub] in Hpq.
  set (q := (Py.float_of_int 700 / Py.float_of_int m)%float) in *.
  set (scale := Py.fmin 1 q).
  assert (Hs : pnormal scale (-106) 2 /\ 0 < val scale <= 1 /\ 1 <= val scale * 4194304).
  { unfold scale, Py.fmin. destruct (PrimFloat.ltb q 1) eqn:Hlt.
    - pose proof (ltb_one _ _ _ Hpq Hlt) as Hq1. pose proof (pnormal_pos _ _ _ Hpq) as Hq0.
      split; [exact Hpq|]. split; [lra|].
      apply Rabs_le_inv in Herr.
      assert (HM : 0 < IZR m <= 2147483648).
      { split; [apply IZR_lt; lia|]. apply IZR_le. change (2 ^ 31)%Z with 2147483648%Z in Hm. lia. }
      assert (Ht : 700 / IZR m * IZR m = 700) by (field; lra).
      set (t := 700 / IZR m) in *.
      assert (Ht0 : 0 < t) by (unfold t; apply Rdiv_lt_0_compat; lra).
      assert (t * 2147483648 >= 700) by nra.
      nra.
    - destruct one_pnormal as [H1 V1]. split; [apply (pnormal_weaken _ _ _ _ _ H1); lia|].
      rewrite V1. lra. }
  destruct Hs as (Hps & Hsv & Hslo).
  exists scale, (Z.max 1 (Py.round (Py.float_of_int w * scale))),
    (Z.max 1 (Py.round (Py.float_of_int h * scale))).
  split; [reflexivity|]. split; [exact Hps|]. split; [exact Hsv|]. split; [exact Hslo|].
  split; [lia|]. split; [lia|].
  assert (Hside : forall n : Z, (1 <= n < 2 ^ 31)%Z ->
            (2 <= Z.max 1 (Py.round (Py.float_of_int n * scale)))%Z ->
            IZR (Z.max 1 (Py.round (Py.float_of_int n * scale)))
            <= IZR n * val scale + / 2 + eps).
  { intros n Hn H2. rewrite Z.max_r by lia.
    pose proof (scaled_round n scale (-106) 2 ltac:(lia) Hps ltac:(lia) ltac:(lia)) as Hr.
    apply Rabs_le_inv in Hr.
    assert (Hn' : 0 < IZR n <= 2147483648).
    { split; [apply IZR_lt; lia|]. apply IZR_le. change (2 ^ 31)%Z with 2147483648%Z in Hn. lia. }
    assert (IZR n * val scale <= 2147483648) by nra.
    assert (0 <= IZR n * val scale) by nra.
    unfold eps. nra. }
  split; apply Hside; assumption.
Qed.

(** Line 116: [inv = 1.0 / scale]. *)
Lemma inverse_spec (scale : float) :
  pnormal scale (-106) 2 -> 0 < val scale <= 1 ->
  exists inv, Py.truediv 1 scale = Some inv
              /\ pnormal inv (-107) 3
              /\ Rabs (val inv * val scale - 1) <= 2 * u.
Proof.
  intros Hps Hs. pose proof u_small as [Hu0 Hu1].
  unfold Py.truediv. rewrite (eqb_zero _ _ _ Hps).
  exists (1 / scale)%float. split; [reflexivity|].
  destruct one_pnormal as [H1 V1].
  destruct (div_pnormal _ _ _ _ _ _ H1 Hps ltac:(lia) ltac:(lia)) as [Hp Herr].
  split; [exact Hp|]. rewrite V1 in Herr.
  pose proof (pnormal_pos _ _ _ Hp) as Hi.
  set (i := val (1 / scale)) in *. set (s := val scale) in *.
  apply Rabs_le_inv in Herr. apply Rabs_le.
  assert (Hrs : 1 / s * s = 1) by (field; lra).
  set (r := 1 / s) in *.
  assert (Hr0 : 0 < r) by (unfold r; apply Rdiv_lt_0_compat; lra).
  assert (i * s - 1 <= u * i * s) by nra.
  assert (- (u * i * s) <= i * s - 1) by nra.
  assert (i * s <= 2) by nra.
  nra.
Qed.

(** Lines 117-120: a bound of the scan, scaled back and rounded, is within
    a half (and a little) of its exact position. *)
Lemma position (k : Z) (inv scale : float) :
  pnormal inv (-107) 3 -> 0 < val scale <= 1 ->
  Rabs (val inv * val scale - 1) <= 2 * u ->
  (0 <= k)%Z -> IZR k <= 4294967296 * val scale ->
  Rabs (IZR (Py.round (Py.float_of_int k * inv)) - IZR k * / val scale) <= / 2 + eps.
Proof.
  intros Hpi Hs His Hk0 Hk. pose proof u_small as [Hu0 Hu1].
  assert (Hkz : (k <= 2 ^ 32)%Z).
  { apply le_IZR. change (2 ^ 32)%Z with 4294967296%Z. nra. }
  assert (H53 : (2 ^ 32 < 2 ^ 53)%Z) by (apply Z.pow_lt_mono_r; lia).
  pose proof (scaled_round k inv (-107) 3 ltac:(lia) Hpi ltac:(lia) ltac:(lia)) as Hr.
  pose proof (pnormal_pos _ _ _ Hpi) as Hi.
  set (i := val inv) in *. set (s := val scale) in *.
  set (P := IZR (Py.round (Py.float_of_int k * inv))) in *.
  assert (Hrs : / s * s = 1) by (field; lra).
  set (r := / s) in *.
  assert (Hr0 : 0 < r) by (unfold r; apply Rinv_0_lt_compat; lra).
  assert (HK : 0 <= IZR k) by (apply IZR_le; lia).
  apply Rabs_le_inv in Hr, His. apply Rabs_le.
  assert (Hkr : IZR k * r <= 4294967296).
  { replace 4294967296 with (4294967296 * s * r) by (rewrite Rmult_assoc, (Rmult_comm s), Hrs; ring).
    apply Rmult_le_compat_r; lra. }
  assert (Hkr0 : 0 <= IZR k * r) by nra.
  assert (Hir : Rabs (i - r) <= 2 * u * r).
  { apply Rabs_le. replace (i - r) with ((i * s - 1) * r) by (rewrite Rmult_minus_distr_r, Rmult_assoc, (Rmult_comm s), Hrs; ring).
    split; nra. }
  apply Rabs_le_inv in Hir.
  assert (Hki : Rabs (IZR k * i - IZR k * r) <= 2 * u * (IZR k * r)).
  { apply Rabs_le. split; nra. }
  apply Rabs_le_inv in Hki.
  assert (IZR k * i <= 4294967297) by nra.
  assert (0 <= IZR k * i) by nra.
  unfold eps. split; nra.
Qed.

(** Line 124: the inset, 6 percent of the longer side. *)
Lemma inset_spec (side : Z) :
  (1 <= side <= 2 ^ 33)%Z ->
  let inset_px := Py.round (Py.float_of_int side * (CROP_INSET_PERCENT / 100)) in
  IZR inset_px <= 601 / 10000 * IZR side + / 2 + eps
  /\ 599 / 10000 * IZR side - / 2 - eps <= IZR inset_px.
Proof.
  intros Hs. pose proof u_small as [Hu0 Hu1].
  assert (E6 : CROP_INSET_PERCENT = Py.float_of_int 6) by (vm_compute; reflexivity).
  assert (E100 : 100%float = Py.float_of_int 100) by (vm_compute; reflexivity).
  rewrite E6, E100.
  destruct (float_of_int_pnormal 6 ltac:(cbn; lia)) as [H6 V6].
  destruct (float_of_int_pnormal 100 ltac:(cbn; lia)) as [H100 V100].
  destruct (div_pnormal _ _ _ _ _ _ H6 H100 ltac:(lia) ltac:(lia)) as [Hpc Herr].
  rewrite V6, V100 in Herr. cbn [Z.sub Z.add Z.opp Pos.add Pos.succ Z.pos_sub] in Hpc.
  set (c0 := (Py.float_of_int 6 / Py.float_of_int 100)%float) in *.
  pose proof (pnormal_pos _ _ _ Hpc) as Hc0. apply Rabs_le_inv in Herr.
  assert (Hc : 5999 / 100000 <= val c0 <= 6001 / 100000) by (split; nra).
  assert (H53 : (2 ^ 33 < 2 ^ 53)%Z) by (apply Z.pow_lt_mono_r; lia).
  pose proof (scaled_round side c0 (-106) 2 ltac:(lia) Hpc ltac:(lia) ltac:(lia)) as Hr.
  cbv zeta. apply Rabs_le_inv in Hr.
  assert (HS : 1 <= IZR side <= 8589934592).
  { split; [apply IZR_le; lia|]. apply IZR_le. change (2 ^ 33)%Z with 8589934592%Z in Hs. lia. }
  assert (IZR side * val c0 <= 600000000) by nra.
  assert (0 <= IZR side * val c0) by nra.
  unfold eps. split; nra.
Qed.

Lemma half_spec (n : Z) :
  (1 <= n <= 2 ^ 34)%Z ->
  pnormal (Py.float_of_int n / 2) (-106) 2
  /\ Rabs (val (Py.float_of_int n / 2) - IZR n / 2) <= eps / 4.
Proof.
  intros Hn. pose proof u_small as [Hu0 Hu1].
  assert (H53 : (2 ^ 34 < 2 ^ 53)%Z) by (apply Z.pow_lt_mono_r; lia).
  assert (E2 : 2%float = Py.float_of_int 2) by (vm_compute; reflexivity).
  rewrite E2.
  destruct (float_of_int_pnormal n ltac:(lia)) as [Hpn Vn].
  destruct (float_of_int_pnormal 2 ltac:(cbn; lia)) as [H2 V2].
  destruct (div_pnormal _ _ _ _ _ _ Hpn H2 ltac:(lia) ltac:(lia)) as [Hp Herr].
  rewrite Vn, V2 in Herr. cbn [Z.sub Z.add Z.opp Pos.add Pos.succ Z.pos_sub] in Hp.
  split; [exact Hp|].
  pose proof (pnormal_pos _ _ _ Hp) as Hv. apply Rabs_le_inv in Herr. apply Rabs_le.
  assert (HN : 1 <= IZR n <= 17179869184).
  { split; [apply IZR_le; lia|]. apply IZR_le. change (2 ^ 34)%Z with 17179869184%Z in Hn. lia. }
  set (v := val (Py.float_of_int n / Py.float_of_int 2)) in *.
  assert (v <= 17179869184) by nra.
  unfold eps. split; nra.
Qed.

(** Lines 131-136: the rounded left (top) edge of the centred square. *)
Lemma center_spec (S side2 : Z) :
  (1 <= S <= 2 ^ 34)%Z -> (1 <= side2 <= 2 ^ 34)%Z ->
  Rabs (IZR (Py.round (Py.float_of_int S / 2 - Py.float_of_int side2 / 2))
        - (IZR S - IZR side2) / 2) <= / 2 + eps.
Proof.
  intros HS H2. pose proof u_small as [Hu0 Hu1].
  destruct (half_spec S HS) as [Hpc Hc]. destruct (half_spec side2 H2) as [Hph Hh].
  pose proof (sub_pnormal _ _ _ _ _ _ Hpc Hph ltac:(lia) ltac:(lia) ltac:(lia) ltac:(lia)) as Hsub.
  pose proof (round_err (Py.float_of_int S / 2 - Py.float_of_int side2 / 2)) as Hr.
  set (cx := val (Py.float_of_int S / 2)) in *.
  set (hs := val (Py.float_of_int side2 / 2)) in *.
  set (v := val (Py.float_of_int S / 2 - Py.float_of_int side2 / 2)) in *.
  set (L := IZR (Py.round (Py.float_of_int S / 2 - Py.float_of_int side2 / 2))) in *.
  assert (HSr : 1 <= IZR S <= 17179869184).
  { split; [apply IZR_le; lia|]. apply IZR_le. change (2 ^ 34)%Z with 17179869184%Z in HS. lia. }
  assert (H2r : 1 <= IZR side2 <= 17179869184).
  { split; [apply IZR_le; lia|]. apply IZR_le. change (2 ^ 34)%Z with 17179869184%Z in H2. lia. }
  apply Rabs_le_inv in Hc, Hh, Hr. unfold eps in *.
  assert (Hv : Rabs v <= 17179869186).
  { unfold Rabs in *. destruct (Rcase_abs v), (Rcase_abs (v - (cx - hs))); nra. }
  assert (Hvd : - (u * 17179869186) <= v - (cx - hs) <= u * 17179869186).
  { assert (Rabs (v - (cx - hs)) <= u * 17179869186) by nra. now apply Rabs_le_inv. }
  apply Rabs_le. split; nra.
Qed.

(** One axis of the crop.  [lo] and [hi] are the scaled-back bounds of the
    scan ([left] and [right], or [top] and [bottom]), [L] the rounded edge
    of the centred square, [w] the size of the image along the axis. *)
Lemma axis_bounds (w sw lo_k hi_k lo hi : Z) (s : R) :
  0 < s <= 1 -> 1 <= s * 4194304 ->
  (1 <= w < 2 ^ 31)%Z ->
  IZR sw <= IZR w * s + / 2 + eps ->
  (0 <= lo_k < hi_k)%Z -> (hi_k < sw)%Z ->
  Rabs (IZR lo - IZR lo_k * / s) <= / 2 + eps ->
  Rabs (IZR hi - IZR (hi_k + 1) * / s) <= / 2 + eps ->
  (0 <= lo)%Z /\ (lo + 1 <= hi)%Z /\ (hi <= 2 ^ 32)%Z.
Proof.
  intros Hs Hs22 Hw Hsw Hk Hk' Hlo Hhi. unfold eps in *.
  assert (Hrs : / s * s = 1) by (field; lra).
  set (r := / s) in *.
  assert (Hr1 : 1 <= r) by nra.
  assert (Hr22 : r <= 4194304) by nra.
  assert (HW : 1 <= IZR w <= 2147483648).
  { split; [apply IZR_le; lia|]. apply IZR_le. change (2 ^ 31)%Z with 2147483648%Z in Hw. lia. }
  assert (HA0 : 0 <= IZR lo_k) by (apply IZR_le; lia).
  assert (HAB : IZR lo_k + 2 <= IZR (hi_k + 1)).
  { rewrite <- (plus_IZR lo_k 2). apply IZR_le. lia. }
  assert (HBC : IZR (hi_k + 1) <= IZR sw) by (apply IZR_le; lia).
  assert (HC : IZR sw * r <= IZR w + (/ 2 + / 10000) * r).
  { replace (IZR w) with (IZR w * s * r) by (rewrite Rmult_assoc, (Rmult_comm s), Hrs; ring).
    nra. }
  apply Rabs_le_inv in Hlo, Hhi.
  assert (HA : 0 <= IZR lo_k * r) by nra.
  assert (HB : IZR lo_k * r + 2 * r <= IZR (hi_k + 1) * r) by nra.
  assert (HB' : IZR (hi_k + 1) * r <= IZR sw * r) by nra.
  repeat split.
  - apply le_IZR. assert (-1 < IZR lo) by lra.
    apply IZR_le. apply Z.lt_succ_r. apply lt_IZR. rewrite succ_IZR. lra.
  - apply Z.lt_succ_r. apply lt_IZR. rewrite succ_IZR, plus_IZR. lra.
  - apply le_IZR. change (2 ^ 32)%Z with 4294967296%Z. lra.
Qed.

Lemma axis (w sw lo_k hi_k lo hi side inset_px L : Z) (s : R) :
  0 < s <= 1 ->
  (1 <= w)%Z ->
  IZR sw <= IZR w * s + / 2 + eps ->
  (0 <= lo_k < hi_k)%Z -> (hi_k < sw)%Z ->
  Rabs (IZR lo - IZR lo_k * / s) <= / 2 + eps ->
  Rabs (IZR hi - IZR (hi_k + 1) * / s) <= / 2 + eps ->
  (hi - lo <= side)%Z -> (1 <= side)%Z ->
  IZR inset_px <= 601 / 10000 * IZR side + / 2 + eps ->
  Rabs (IZR L - (IZR (lo + hi) - IZR (side - 2 * inset_px)) / 2) <= / 2 + eps ->
  (0 <= side - 2 * inset_px)%Z ->
  (0 <= Z.max 0 L <= Z.min w (L + (side - 2 * inset_px)))%Z
  /\ (Z.min w (L + (side - 2 * inset_px)) <= w)%Z.
Proof.
  intros Hs Hw Hsw Hk Hk' Hlo Hhi Hside Hside1 Hin HL H2. unfold eps in *.
  assert (Hrs : / s * s = 1) by (field; lra).
  set (r := / s) in *.
  assert (Hr1 : 1 <= r) by nra.
  assert (HW : 1 <= IZR w) by (apply IZR_le; lia).
  assert (HA0 : 0 <= IZR lo_k) by (apply IZR_le; lia).
  assert (HAC : IZR lo_k + 2 <= IZR sw).
  { rewrite <- (plus_IZR lo_k 2). apply IZR_le. lia. }
  assert (HAB : IZR lo_k + 2 <= IZR (hi_k + 1)).
  { rewrite <- (plus_IZR lo_k 2). apply IZR_le. lia. }
  assert (HBC : IZR (hi_k + 1) <= IZR sw) by (apply IZR_le; lia).
  assert (HC : IZR sw * r <= IZR w + (/ 2 + / 10000) * r).
  { replace (IZR w) with (IZR w * s * r) by (rewrite Rmult_assoc, (Rmult_comm s), Hrs; ring).
    nra. }
  apply Rabs_le_inv in Hlo, Hhi, HL.
  assert (HA : 0 <= IZR lo_k * r) by nra.
  assert (HAC' : IZR lo_k * r + 2 * r <= IZR sw * r) by nra.
  assert (HB : IZR lo_k * r + 2 * r <= IZR (hi_k + 1) * r) by nra.
  assert (HB' : IZR (hi_k + 1) * r <= IZR sw * r) by nra.
  assert (HS : IZR hi - IZR lo <= IZR side) by (rewrite <- minus_IZR; apply IZR_le; lia).
  assert (HS1 : 1 <= IZR side) by (apply IZR_le; lia).
  rewrite plus_IZR, minus_IZR, mult_IZR in HL.
  assert (HLw : (L <= w)%Z).
  { apply Z.lt_succ_r. apply lt_IZR. rewrite succ_IZR. lra. }
  assert (HL0 : (0 <= L + (side - 2 * inset_px))%Z).
  { apply Z.lt_succ_r. apply lt_IZR. rewrite succ_IZR, plus_IZR, minus_IZR, mult_IZR. lra. }
  lia.
Qed.

(** Lines 116-143 on the path past line 112: the clamped square lies inside
    the image and is not inverted. *)
Lemma square_box_in_bounds (w h : Z) (scale : float) (sw sh min_x min_y max_x max_y : Z) :
  (1 <= w < 2 ^ 31)%Z -> (1 <= h < 2 ^ 31)%Z ->
  downscale w h CROP_DOWNSCALE_MAX = Some (scale, sw, sh) ->
  (0 <= min_x < max_x)%Z -> (max_x < sw)%Z ->
  (0 <= min_y < max_y)%Z -> (max_y < sh)%Z ->
  exists sq_left sq_top sq_right sq_bottom,
    square_box w h scale CROP_INSET_PERCENT (min_x, min_y, max_x, max_y)
    = Some (sq_left, sq_top, sq_right, sq_bottom)
    /\ (0 <= sq_left <= sq_right)%Z /\ (sq_right <= w)%Z
    /\ (0 <= sq_top <= sq_bottom)%Z /\ (sq_bottom <= h)%Z.
Proof.
  intros Hw Hh Hd Hx Hx' Hy Hy'.
  destruct (downscale_spec w h Hw Hh)
    as (scale' & sw' & sh' & Hd' & Hps & Hs & Hs22 & _ & _ & Hsw & Hsh).
  rewrite Hd in Hd'. injection Hd' as <- <- <-.
  specialize (Hsw ltac:(lia)). specialize (Hsh ltac:(lia)).
  destruct (inverse_spec scale Hps Hs) as (inv & Einv & Hpi & His).
  unfold square_box. rewrite Einv. cbv zeta.
  set (left0 := Py.round (Py.float_of_int min_x * inv)).
  set (top0 := Py.round (Py.float_of_int min_y * inv)).
  set (right0 := Py.round (Py.float_of_int (max_x + 1) * inv)).
  set (bottom0 := Py.round (Py.float_of_int (max_y + 1) * inv)).
  set (side := Z.max (right0 - left0) (bottom0 - top0)).
  set (inset_px := Py.round (Py.float_of_int side * (CROP_INSET_PERCENT / 100))).
  replace (left0 + inset_px + (right0 - inset_px))%Z with (left0 + right0)%Z by lia.
  replace (top0 + inset_px + (bottom0 - inset_px))%Z with (top0 + bottom0)%Z by lia.
  replace (Z.max (right0 - inset_px - (left0 + inset_px)) (bottom0 - inset_px - (top0 + inset_px)))
    with (side - 2 * inset_px)%Z by (unfold side; lia).
  set (L := Py.round (Py.float_of_int (left0 + right0) / 2
                      - Py.float_of_int (side - 2 * inset_px) / 2)).
  set (T := Py.round (Py.float_of_int (top0 + bottom0) / 2
                      - Py.float_of_int (side - 2 * inset_px) / 2)).
  do 4 eexists. split; [reflexivity|].
  (* the scan bounds stay below 2^32 * scale *)
  assert (Hcap : forall n k : Z, (1 <= n < 2 ^ 31)%Z ->
            (IZR k <= IZR n * val scale + / 2 + eps)%R ->
            (IZR k <= 4294967296 * val scale)%R).
  { intros n k Hn Hk. unfold eps in Hk.
    assert (1 <= IZR n <= 2147483648)%R.
    { split; [apply IZR_le; lia|]. apply IZR_le. change (2 ^ 31)%Z with 2147483648%Z in Hn. lia. }
    nra. }
  assert (Hpos : forall n sz k : Z, (1 <= n < 2 ^ 31)%Z ->
            (IZR sz <= IZR n * val scale + / 2 + eps)%R -> (0 <= k <= sz)%Z ->
            (Rabs (IZR (Py.round (Py.float_of_int k * inv)) - IZR k * / val scale)
             <= / 2 + eps)%R).
  { intros n sz k Hn Hsz Hk. apply position; try assumption; try lia.
    apply Rle_trans with (IZR sz); [apply IZR_le; lia | now apply (Hcap n)]. }
  pose proof (Hpos w sw min_x Hw Hsw ltac:(lia)) as Hl. fold left0 in Hl.
  pose proof (Hpos w sw (max_x + 1)%Z Hw Hsw ltac:(lia)) as Hr. fold right0 in Hr.
  pose proof (Hpos h sh min_y Hh Hsh ltac:(lia)) as Ht. fold top0 in Ht.
  pose proof (Hpos h sh (max_y + 1)%Z Hh Hsh ltac:(lia)) as Hb. fold bottom0 in Hb.
  destruct (axis_bounds w sw min_x max_x left0 right0 (val scale) Hs Hs22 Hw Hsw Hx Hx' Hl Hr)
    as (Hl0 & Hlr & Hr32).
  destruct (axis_bounds h sh min_y max_y top0 bottom0 (val scale) Hs Hs22 Hh Hsh Hy Hy' Ht Hb)
    as (Ht0 & Htb & Hb32).
  assert (Hside : (1 <= side <= 2 ^ 32)%Z) by (unfold side; lia).
  assert (H3233 : (2 ^ 32 < 2 ^ 33)%Z) by (apply Z.pow_lt_mono_r; lia).
  assert (H3334 : (2 ^ 33 < 2 ^ 34)%Z) by (apply Z.pow_lt_mono_r; lia).
  assert (E33 : (2 ^ 33 = 2 * 2 ^ 32)%Z) by reflexivity.
  pose proof (inset_spec side ltac:(lia)) as Hin. cbv zeta in Hin. fold inset_px in Hin.
  destruct Hin as [Hin_hi Hin_lo].
  assert (HSr : (1 <= IZR side)%R) by (apply IZR_le; lia).
  assert (Hin0 : (0 <= inset_px)%Z).
  { apply Z.lt_succ_r. apply lt_IZR. rewrite succ_IZR. unfold eps in *. lra. }
  assert (Hside2 : (1 <= side - 2 * inset_px)%Z).
  { destruct (Z_le_gt_dec side 8) as [H8|H8].
    - assert (inset_px <= 0)%Z; [|lia].
      apply Z.lt_succ_r. apply lt_IZR. rewrite succ_IZR.
      assert (IZR side <= 8)%R by (apply IZR_le; lia). unfold eps in *. lra.
    - assert (0 < side - 2 * inset_px)%Z; [|lia].
      apply lt_IZR. rewrite minus_IZR, mult_IZR.
      assert (9 <= IZR side)%R by (apply IZR_le; lia). unfold eps in *. lra. }
  pose proof (center_spec (left0 + right0) (side - 2 * inset_px) ltac:(lia) ltac:(lia)) as HL.
  fold L in HL. rewrite <- minus_IZR in HL. rewrite minus_IZR in HL.
  pose proof (center_spec (top0 + bottom0) (side - 2 * inset_px) ltac:(lia) ltac:(lia)) as HT.
  fold T in HT.
  destruct (axis w sw min_x max_x left0 right0 side inset_px L (val scale)
              Hs ltac:(lia) Hsw Hx Hx' Hl Hr ltac:(unfold side; lia) ltac:(lia) Hin_hi HL ltac:(lia))
    as [HxA HxB].
  destruct (axis h sh min_y max_y top0 bottom0 side inset_px T (val scale)
              Hs ltac:(lia) Hsh Hy Hy' Ht Hb ltac:(unfold side; lia) ltac:(lia) Hin_hi HT ltac:(lia))
    as [HyA HyB].
  repeat split; lia.
Qed.

End Geometry.

(** ** The clamped square is well formed *)

Lemma downscaled_inv (resample : Filter) (img : Image) (downscale_max : Z)
    (scale : float) (small : Image) :
  downscaled resample img downscale_max = Some (scale, small) ->
  downscale (width img) (height img) downscale_max
  = Some (scale, width small, height small).
Proof.
  unfold downscaled, PIL.convert_RGB, PIL.size.
  destruct (downscale _ _ _) as [[[s sw] sh]|]; [|discriminate].
  intros E. injection E as <- <-. unfold PIL.resize.
  destruct ((sw =? width img) && (sh =? height img)) eqn:Hc; cbn [width height].
  - apply andb_prop in Hc as [H1 H2]. apply Z.eqb_eq in H1, H2. now subst.
  - reflexivity.
Qed.

(** Past the test of line 112 the bounds are strictly ordered and inside
    the downscaled image. *)
Lemma scan_bounds_range (sat_thresh lum_thresh : float) (small : Image)
    (min_x min_y max_x max_y : Z) :
  1 <= width small -> 1 <= height small ->
  scan_bounds sat_thresh lum_thresh small = (min_x, min_y, max_x, max_y) ->
  degenerate (min_x, min_y, max_x, max_y) = false ->
  (0 <= min_x < max_x) /\ max_x < width small
  /\ (0 <= min_y < max_y) /\ max_y < height small.
Proof.
  intros Hw Hh Hs Hdeg. apply degenerate_false in Hdeg.
  pose proof (scan_bounds_spec sat_thresh lum_thresh small Hw Hh) as H.
  rewrite Hs in H. destruct H as [_ Hatt].
  assert (Hne : min_x <= max_x) by lia.
  destruct (Hatt (or_introl Hne)) as ((y1 & H1) & (x2 & H2) & (y3 & H3) & (x4 & H4)).
  unfold interesting in *. lia.
Qed.

Lemma square_box_of_scan (resample : Filter) (img : Image)
    (sat_thresh lum_thresh scale : float) (small : Image) :
  1 <= width img < 2 ^ 31 -> 1 <= height img < 2 ^ 31 ->
  downscaled resample img CROP_DOWNSCALE_MAX = Some (scale, small) ->
  degenerate (scan_bounds sat_thresh lum_thresh small) = false ->
  exists sq_left sq_top sq_right sq_bottom,
    square_box (width img) (height img) scale CROP_INSET_PERCENT
      (scan_bounds sat_thresh lum_thresh small)
    = Some (sq_left, sq_top, sq_right, sq_bottom)
    /\ (0 <= sq_left <= sq_right) /\ sq_right <= width img
    /\ (0 <= sq_top <= sq_bottom) /\ sq_bottom <= height img.
Proof.
  intros Hw Hh Hd Hdeg.
  pose proof (downscaled_size _ _ _ _ _ Hd) as [Hsw Hsh].
  apply downscaled_inv in Hd.
  destruct (scan_bounds sat_thresh lum_thresh small) as [[[min_x min_y] max_x] max_y] eqn:Hs.
  destruct (scan_bounds_range _ _ _ _ _ _ _ Hsw Hsh Hs Hdeg) as (Hx & Hx' & Hy & Hy').
  exact (Geometry.square_box_in_bounds _ _ _ _ _ _ _ _ _ Hw Hh Hd Hx Hx' Hy Hy').
Qed.

Lemma crop_accepts (img : Image) (l t r b : Z) :
  l <= r -> t <= b -> exists cropped, PIL.crop img (l, t, r, b) = Some cropped.
Proof.
  intros Hlr Htb. unfold PIL.crop.
  replace ((r <? l) || (b <? t)) with false
    by (symmetry; apply orb_false_iff; split; apply Z.ltb_ge; lia).
  eexists. reflexivity.
Qed.

(** C10. On the path past line 112, for an image of width and height at
    least 1 (and below 2^31, as every Pillow image is), the clamped square
    satisfies 0 <= sq_left <= sq_right <= w and 0 <= sq_top <= sq_bottom <= h:
    [crop] is given a rectangle it accepts. *)
Theorem crop_rectangle_well_formed (resample : Filter) (img : Image)
    (sat_thresh lum_thresh scale : float) (small : Image) :
  1 <= width img < 2 ^ 31 -> 1 <= height img < 2 ^ 31 ->
  downscaled resample img CROP_DOWNSCALE_MAX = Some (scale, small) ->
  degenerate (scan_bounds sat_thresh lum_thresh small) = false ->
  exists sq_left sq_top sq_right sq_bottom cropped,
    square_box (width img) (height img) scale CROP_INSET_PERCENT
      (scan_bounds sat_thresh lum_thresh small)
    = Some (sq_left, sq_top, sq_right, sq_bottom)
    /\ (0 <= sq_left <= sq_right) /\ sq_right <= width img
    /\ (0 <= sq_top <= sq_bottom) /\ sq_bottom <= height img
    /\ PIL.crop img (sq_left, sq_top, sq_right, sq_bottom) = Some cropped.
Proof.
  intros Hw Hh Hd Hdeg.
  destruct (square_box_of_scan resample img sat_thresh lum_thresh scale small Hw Hh Hd Hdeg)
    as (l & t & r & b & Hbox & Hl & Hr & Ht & Hb).
  destruct (crop_accepts img l t r b) as [cropped Hc]; try lia.
  exists l, t, r, b, cropped. repeat split; try assumption; lia.
Qed.

Lemma crop_rectangle_well_formed_witness :
  exists sq_left sq_top sq_right sq_bottom cropped,
    square_box 4 4 1 CROP_INSET_PERCENT
      (scan_bounds CROP_SAT_THRESH CROP_LUM_THRESH Sample.block_4x4)
    = Some (sq_left, sq_top, sq_right, sq_bottom)
    /\ (0 <= sq_left <= sq_right) /\ sq_right <= 4
    /\ (0 <= sq_top <= sq_bottom) /\ sq_bottom <= 4
    /\ PIL.crop Sample.block_4x4 (sq_left, sq_top, sq_right, sq_bottom) = Some cropped.
Proof.
  apply (crop_rectangle_well_formed Sample.nearest Sample.block_4x4
           CROP_SAT_THRESH CROP_LUM_THRESH 1%float Sample.block_4x4).
  - cbn. lia.
  - cbn. lia.
  - vm_compute. reflexivity.
  - vm_compute. reflexivity.
Defined.

Lemma crop_to_gradient_tile_square_total (resample : Filter) (img : Image)
    (sat_thresh lum_thresh : float) :
  1 <= width img < 2 ^ 31 -> 1 <= height img < 2 ^ 31 ->
  exists out,
    crop_to_gradient_tile_square resample img sat_thresh lum_thresh
      CROP_INSET_PERCENT CROP_DOWNSCALE_MAX = Some out.
Proof.
  intros Hw Hh.
  destruct (Geometry.downscale_spec _ _ Hw Hh) as (scale & sw & sh & Hd & _).
  assert (Hdd : downscaled resample img CROP_DOWNSCALE_MAX
                = Some (scale, PIL.resize resample img sw sh BILINEAR)).
  { unfold downscaled, PIL.convert_RGB, PIL.size. now rewrite Hd. }
  rewrite (crop_to_gradient_tile_square_eq _ _ _ _ _ _ _ _ Hdd).
  destruct (degenerate _) eqn:Hdeg; [now exists img|].
  destruct (square_box_of_scan resample img sat_thresh lum_thresh _ _ Hw Hh Hdd Hdeg)
    as (l & t & r & b & -> & Hl & Hr & Ht & Hb).
  destruct (crop_accepts img l t r b) as [cropped ->]; try lia.
  eexists. reflexivity.
Qed.

Lemma accepted_sides (w h : Z) :
  1 <= w -> 1 <= h -> Z.max w h * Z.max w h <= 2 * PIL.MAX_IMAGE_PIXELS ->
  w < 2 ^ 31 /\ h < 2 ^ 31 /\ w * h <= 2 * PIL.MAX_IMAGE_PIXELS.
Proof.
  intros Hw Hh H. change (2 * PIL.MAX_IMAGE_PIXELS) with 178956970 in *.
  change (2 ^ 31) with 2147483648.
  assert (Hm : Z.max w h <= 13377).
  { destruct (Z.le_gt_cases (Z.max w h) 13377) as [Hm|Hm]; [exact Hm|].
    assert (13378 * 13378 <= Z.max w h * Z.max w h)
      by (apply Z.mul_le_mono_nonneg; lia).
    lia. }
  assert (w * h <= Z.max w h * Z.max w h) by (apply Z.mul_le_mono_nonneg; lia).
  lia.
Qed.

(** A box inside an image that has passed the size check passes it. *)
Lemma crop_bomb_check_inside (w h l t r b : Z) :
  1 <= w -> 1 <= h -> w * h <= 2 * PIL.MAX_IMAGE_PIXELS ->
  0 <= l <= r -> r <= w -> 0 <= t <= b -> b <= h ->
  PIL.crop_bomb_check (l, t, r, b) = Some tt.
Proof.
  intros Hw Hh HL Hl Hr Ht Hb.
  unfold PIL.crop_bomb_check, PIL._decompression_bomb_check. cbn [fst snd].
  rewrite !Z.abs_eq by lia.
  replace (2 * PIL.MAX_IMAGE_PIXELS <? Z.max 1 (r - l) * Z.max 1 (b - t)) with false;
    [reflexivity|].
  symmetry. apply Z.ltb_ge. transitivity (w * h); [|exact HL].
  apply Z.mul_le_mono_nonneg; lia.
Qed.

(** No exception on the way.  Take an image of sides of 1 at least whose
    longer side squared is within Pillow's size limit, so that the image,
    every box in it and the padded square are within the limit.  The
    cropper returns an image, square unless it is the input itself, and on
    the path past line 112 the box it hands to [crop] passes the size check
    of [crop]. *)
Theorem crop_to_gradient_tile_square_returns (resample : Filter) (img : Image)
    (sat_thresh lum_thresh : float) :
  1 <= width img -> 1 <= height img ->
  Z.max (width img) (height img) * Z.max (width img) (height img)
  <= 2 * PIL.MAX_IMAGE_PIXELS ->
  (exists out,
     crop_to_gradient_tile_square resample img sat_thresh lum_thresh
       CROP_INSET_PERCENT CROP_DOWNSCALE_MAX = Some out
     /\ (width out = height out \/ out = img))
  /\ (forall scale small,
        downscaled resample img CROP_DOWNSCALE_MAX = Some (scale, small) ->
        degenerate (scan_bounds sat_thresh lum_thresh small) = false ->
        exists box,
          square_box (width img) (height img) scale CROP_INSET_PERCENT
            (scan_bounds sat_thresh lum_thresh small) = Some box
          /\ PIL.crop_bomb_check box = Some tt).
Proof.
  intros Hw1 Hh1 Hlim.
  destruct (accepted_sides _ _ Hw1 Hh1 Hlim) as (Hw2 & Hh2 & HL).
  assert (Hw : 1 <= width img < 2 ^ 31) by lia.
  assert (Hh : 1 <= height img < 2 ^ 31) by lia.
  split.
  - destruct (crop_to_gradient_tile_square_total resample img sat_thresh lum_thresh Hw Hh)
      as [out Hout].
    exists out. split; [exact Hout|].
    destruct (downscaled resample img CROP_DOWNSCALE_MAX) as [[scale small]|] eqn:Hd.
    + rewrite (crop_to_gradient_tile_square_eq _ _ _ _ _ _ _ _ Hd) in Hout.
      destruct (degenerate _).
      * right. now injection Hout as <-.
      * destruct (square_box _ _ _ _ _) as [box|]; [|discriminate].
        destruct (PIL.crop img box) as [cropped|]; [|discriminate].
        injection Hout as <-. left. apply pad_to_square_square.
    + unfold crop_to_gradient_tile_square, PIL.convert_RGB, PIL.size in Hout.
      rewrite Hd in Hout. discriminate.
  - intros scale small Hd Hdeg.
    destruct (square_box_of_scan resample img sat_thresh lum_thresh _ _ Hw Hh Hd Hdeg)
      as (l & t & r & b & Hbox & Hl & Hr & Ht & Hb).
    exists (l, t, r, b). split; [exact Hbox|].
    apply (crop_bomb_check_inside (width img) (height img)); assumption.
Qed.

Lemma crop_to_gradient_tile_square_returns_witness :
  (exists out,
     crop_to_gradient_tile_square Sample.nearest Sample.block_4x4
       CROP_SAT_THRESH CROP_LUM_THRESH CROP_INSET_PERCENT CROP_DOWNSCALE_MAX = Some out
     /\ (width out = height out \/ out = Sample.block_4x4))
  /\ (forall scale small,
        downscaled Sample.nearest Sample.block_4x4 CROP_DOWNSCALE_MAX
        = Some (scale, small) ->
        degenerate (scan_bounds CROP_SAT_THRESH CROP_LUM_THRESH small) = false ->
        exists box,
          square_box (width Sample.block_4x4) (height Sample.block_4x4) scale
            CROP_INSET_PERCENT (scan_bounds CROP_SAT_THRESH CROP_LUM_THRESH small)
          = Some box
          /\ PIL.crop_bomb_check box = Some tt).
Proof.
  apply (crop_to_gradient_tile_square_returns Sample.nearest Sample.block_4x4);
    [cbn; lia | cbn; lia | vm_compute; discriminate].
Defined.

(** ** More of binary64: sums, comparisons, truncation *)

Module Arith64.

Import F64 IEEE.
#[local] Open Scope R_scope.

Lemma val_zero (x : float) (s : bool) : Prim2SF x = S754_zero s -> val x = 0.
Proof. intros E. unfold val. now rewrite E. Qed.

Lemma nonneg_val (x : float) (lo hi : Z) : nonneg x lo hi -> 0 <= val x.
Proof.
  intros [E|H]; [rewrite (val_zero _ _ E); lra | pose proof (pnormal_pos _ _ _ H); lra].
Qed.

Lemma nonneg_weaken (x : float) (lo hi lo' hi' : Z) :
  nonneg x lo hi -> (lo' <= lo)%Z -> (hi <= hi')%Z -> nonneg x lo' hi'.
Proof.
  intros [E|(m & e & E & Hm & He)] Hl Hh; [now left|right].
  exists m, e. repeat split; try assumption; lia.
Qed.

(** Addition of positive normal floats: the standard model. *)
Lemma add_pnormal (x y : float) (a b c d : Z) :
  pnormal x a b -> pnormal y c d ->
  (-1021 <= a)%Z -> (-1021 <= c)%Z -> (b <= 900)%Z -> (d <= 900)%Z ->
  pnormal (x + y) (Z.min a c) (Z.max b d + 2)
  /\ Rabs (val (x + y) - (val x + val y)) <= u * val (x + y).
Proof.
  intros Hx Hy Ha Hc Hb Hd.
  destruct (pnormal_val _ _ _ Hx) as (mx & ex & Ex & Hmx & Hex & Vx).
  destruct (pnormal_val _ _ _ Hy) as (my & ey & Ey & Hmy & Hey & Vy).
  set (ez := Z.min ex ey). set (M := Z.max ex ey).
  assert (Hax : Z.pos (fst (shl_align mx ex ez)) = (Z.pos mx * 2 ^ (ex - ez))%Z).
  { destruct (shl_align_spec mx ex ez) as [(-> & _ & Hle)|(H & _ & _)]; [|exact H].
    replace (ex - ez)%Z with 0%Z by lia. now rewrite Z.pow_0_r, Z.mul_1_r. }
  assert (Hay : Z.pos (fst (shl_align my ey ez)) = (Z.pos my * 2 ^ (ey - ez))%Z).
  { destruct (shl_align_spec my ey ez) as [(-> & _ & Hle)|(H & _ & _)]; [|exact H].
    replace (ey - ez)%Z with 0%Z by lia. now rewrite Z.pow_0_r, Z.mul_1_r. }
  assert (E : Prim2SF (x + y)
              = binary_normalize prec emax
                  (Z.pos mx * 2 ^ (ex - ez) + Z.pos my * 2 ^ (ey - ez))%Z ez false).
  { rewrite add_spec, Ex, Ey. unfold SF64add, SFadd. fold ez. cbn [cond_Zopp].
    now rewrite Hax, Hay. }
  assert (Hsum : val x + val y
                 = IZR (Z.pos mx * 2 ^ (ex - ez) + Z.pos my * 2 ^ (ey - ez)) * pow2 ez).
  { rewrite Vx, Vy, plus_IZR, !mult_IZR, <- !pow2_IZR by lia.
    replace (pow2 ex) with (pow2 (ex - ez) * pow2 ez) by (rewrite <- pow2_add; f_equal; lia).
    replace (pow2 ey) with (pow2 (ey - ez) * pow2 ez) by (rewrite <- pow2_add; f_equal; lia).
    ring. }
  assert (Hpx : (0 < 2 ^ (ex - ez))%Z) by (apply Z.pow_pos_nonneg; lia).
  assert (Hpy : (0 < 2 ^ (ey - ez))%Z) by (apply Z.pow_pos_nonneg; lia).
  assert (HpM : (0 < 2 ^ (M - ez))%Z) by (apply Z.pow_pos_nonneg; lia).
  assert (Hlx : (2 ^ (ex - ez) <= 2 ^ (M - ez))%Z) by (apply Z.pow_le_mono_r; lia).
  assert (Hly : (2 ^ (ey - ez) <= 2 ^ (M - ez))%Z) by (apply Z.pow_le_mono_r; lia).
  assert (Hbig : (2 ^ (52 + (M - ez)) <= Z.pos mx * 2 ^ (ex - ez) + Z.pos my * 2 ^ (ey - ez)
                  < 2 ^ (54 + (M - ez)))%Z).
  { rewrite !Z.pow_add_r by lia. change (2 ^ 54)%Z with (2 * 2 ^ 53)%Z. split.
    - destruct (Z.max_spec ex ey) as [[_ HM]|[_ HM]]; fold M in HM; rewrite HM; nia.
    - nia. }
  rewrite Hsum.
  destruct (Z.pos mx * 2 ^ (ex - ez) + Z.pos my * 2 ^ (ey - ez))%Z as [|p|p] eqn:ED;
    try lia.
  cbn [binary_normalize] in E.
  assert (Hdl : (53 + (M - ez) <= Zdigits2 (Z.pos p))%Z).
  { pose proof (Zdigits2_lower_gen (Z.pos p) (52 + (M - ez))) as H. lia. }
  assert (Hdu : (Zdigits2 (Z.pos p) <= 54 + (M - ez))%Z) by (apply Zdigits2_upper; lia).
  destruct (binary_round_rel false p ez ltac:(lia) ltac:(lia))
    as (q & e'' & Hr & Hq & He & Herr & _).
  rewrite Hr in E.
  assert (Vr : val (x + y) = IZR (Z.pos q) * pow2 e'')
    by (unfold val; rewrite E; cbn [SF2R]; ring).
  split.
  - exists q, e''. repeat split; try assumption; lia.
  - rewrite Vr. exact Herr.
Qed.

Lemma add_nonneg (x y : float) (a b c d : Z) :
  nonneg x a b -> nonneg y c d ->
  (-1021 <= a)%Z -> (-1021 <= c)%Z -> (b <= 900)%Z -> (d <= 900)%Z ->
  nonneg (x + y) (Z.min a c) (Z.max b d + 2)
  /\ Rabs (val (x + y) - (val x + val y)) <= u * val (x + y).
Proof.
  intros [Ex|Hx] [Ey|Hy] Ha Hc Hb Hd.
  - assert (E : Prim2SF (x + y) = S754_zero false) by (rewrite add_spec, Ex, Ey; reflexivity).
    split; [now left|]. rewrite (val_zero _ _ E), (val_zero _ _ Ex), (val_zero _ _ Ey).
    rewrite Rplus_0_l, Rminus_0_r, Rabs_R0. lra.
  - assert (E : Prim2SF (x + y) = Prim2SF y).
    { rewrite add_spec, Ex. destruct Hy as (m & e & -> & _). reflexivity. }
    assert (V : val (x + y) = val y) by (unfold val; now rewrite E).
    split.
    + right. destruct Hy as (m & e & Ey & Hm & He). exists m, e.
      rewrite E. repeat split; try assumption; lia.
    + rewrite V, (val_zero _ _ Ex), Rplus_0_l, Rminus_diag, Rabs_R0.
      pose proof (pnormal_pos _ _ _ Hy). pose proof u_bounds. nra.
  - assert (E : Prim2SF (x + y) = Prim2SF x).
    { rewrite add_spec, Ey. destruct Hx as (m & e & -> & _). reflexivity. }
    assert (V : val (x + y) = val x) by (unfold val; now rewrite E).
    split.
    + right. destruct Hx as (m & e & Ex & Hm & He). exists m, e.
      rewrite E. repeat split; try assumption; lia.
    + rewrite V, (val_zero _ _ Ey), Rplus_0_r, Rminus_diag, Rabs_R0.
      pose proof (pnormal_pos _ _ _ Hx). pose proof u_bounds. nra.
  - destruct (add_pnormal _ _ _ _ _ _ Hx Hy Ha Hc Hb Hd) as [H1 H2].
    split; [now right | exact H2].
Qed.

Lemma mul_nonneg (x y : float) (a b c d : Z) :
  pnormal x a b -> nonneg y c d ->
  (-1074 <= a + c)%Z -> (b + d <= 917)%Z ->
  nonneg (x * y) (a + c + 52) (b + d + 54)
  /\ Rabs (val (x * y) - val x * val y) <= u * val (x * y).
Proof.
  intros Hx [Ey|Hy] Hlo Hhi.
  - assert (E : Prim2SF (x * y) = S754_zero false).
    { rewrite mul_spec, Ey. destruct Hx as (m & e & -> & _). reflexivity. }
    split; [now left|]. rewrite (val_zero _ _ E), (val_zero _ _ Ey).
    rewrite Rmult_0_r, Rminus_0_r, Rabs_R0. lra.
  - destruct (mul_pnormal _ _ _ _ _ _ Hx Hy Hlo Hhi) as [H1 H2].
    split; [now right | exact H2].
Qed.

(** [float(n)] for a small natural number. *)
Lemma float_of_int_nonneg (n : Z) :
  (0 <= n < 2 ^ 53)%Z ->
  nonneg (Py.float_of_int n) (-52) 1 /\ val (Py.float_of_int n) = IZR n.
Proof.
  intros Hn. destruct (Z.eq_dec n 0) as [->|Hn0].
  - assert (E : Prim2SF (Py.float_of_int 0) = S754_zero false) by (vm_compute; reflexivity).
    split; [now left | exact (val_zero _ _ E)].
  - destruct (float_of_int_pnormal n ltac:(lia)) as [H V]. split; [now right | exact V].
Qed.

(** [x < y] as Python tests it, on floats that are zero or positive normal. *)
Lemma ltb_pnormal (x y : float) (a b c d : Z) :
  pnormal x a b -> pnormal y c d -> (PrimFloat.ltb x y = true <-> val x < val y).
Proof.
  intros Hx Hy.
  destruct (pnormal_val _ _ _ Hx) as (mx & ex & Ex & Hmx & _ & Vx).
  destruct (pnormal_val _ _ _ Hy) as (my & ey & Ey & Hmy & _ & Vy).
  rewrite ltb_spec, Ex, Ey, Vx, Vy. unfold SFltb, SFcompare.
  assert (Hmxr : IZR (2 ^ 52) <= IZR (Z.pos mx) < IZR (2 ^ 53))
    by (split; [apply IZR_le | apply IZR_lt]; lia).
  assert (Hmyr : IZR (2 ^ 52) <= IZR (Z.pos my) < IZR (2 ^ 53))
    by (split; [apply IZR_le | apply IZR_lt]; lia).
  assert (E53 : IZR (2 ^ 53) = 2 * IZR (2 ^ 52)).
  { change (2 ^ 53)%Z with (2 * 2 ^ 52)%Z. now rewrite mult_IZR. }
  assert (H52 : 0 < IZR (2 ^ 52)) by (apply IZR_lt; now cbn).
  assert (Hstep : forall e1 e2 : Z, (e1 < e2)%Z -> 2 * pow2 e1 <= pow2 e2).
  { intros e1 e2 H. apply Rle_trans with (pow2 (e1 + 1)).
    - rewrite pow2_add. change (pow2 1) with (2 ^ 1). lra.
    - apply pow2_le. lia. }
  pose proof (pow2_pos ex) as Hpx. pose proof (pow2_pos ey) as Hpy.
  destruct (Z.compare_spec ex ey) as [He|He|He].
  - subst ey. rewrite Pos.compare_cont_spec. cbn [Pos.switch_Eq].
    destruct (Pos.compare_spec mx my) as [Hc|Hc|Hc].
    + subst my. split; [discriminate | lra].
    + split; [intros _|reflexivity].
      apply Rmult_lt_compat_r; [assumption|]. apply IZR_lt. lia.
    + split; [discriminate|]. intros H. exfalso.
      assert (IZR (Z.pos my) < IZR (Z.pos mx)) by (apply IZR_lt; lia). nra.
  - split; [intros _|reflexivity]. pose proof (Hstep _ _ He). nra.
  - split; [discriminate|]. intros H. exfalso. pose proof (Hstep _ _ He). nra.
Qed.

Lemma ltb_nonneg (x y : float) (a b c d : Z) :
  nonneg x a b -> nonneg y c d -> (PrimFloat.ltb x y = true <-> val x < val y).
Proof.
  intros [Ex|Hx] [Ey|Hy].
  - rewrite ltb_spec, Ex, Ey, (val_zero _ _ Ex), (val_zero _ _ Ey). cbn. split; [discriminate|lra].
  - pose proof (pnormal_pos _ _ _ Hy). rewrite ltb_spec, Ex, (val_zero _ _ Ex).
    destruct Hy as (m & e & -> & _). cbn. tauto.
  - pose proof (pnormal_pos _ _ _ Hx). rewrite ltb_spec, Ey, (val_zero _ _ Ey).
    destruct Hx as (m & e & -> & _). cbn. split; [discriminate|lra].
  - now apply (ltb_pnormal _ _ a b c d).
Qed.

Lemma pow2_neg (k : Z) : (0 <= k)%Z -> pow2 (- k) = / IZR (2 ^ k).
Proof.
  intros Hk. rewrite <- (pow2_IZR k) by assumption.
  pose proof (pow2_pos k) as Hp.
  apply Rmult_eq_reg_r with (pow2 k); [|lra].
  rewrite <- pow2_add, Rinv_l by lra.
  replace (- k + k)%Z with 0%Z by lia. reflexivity.
Qed.

(** [int(x)] is the floor of a float that is not negative. *)
Lemma int_floor (x : float) :
  0 <= val x -> IZR (Py.int x) <= val x < IZR (Py.int x) + 1.
Proof.
  unfold val, Py.int. destruct (Prim2SF x) as [s|s| |s m e]; cbn [SF2R Py.SFtrunc];
    try (intros _; lra).
  intros Hv. pose proof (pow2_pos e) as Hp.
  assert (Hm : 0 < IZR (Z.pos m)) by (apply IZR_lt; lia).
  destruct s; [exfalso; nra|]. rewrite Rmult_1_l in *.
  unfold Py.int_part. destruct (Z.leb_spec 0 e) as [He|He].
  - rewrite mult_IZR, <- pow2_IZR by assumption. lra.
  - set (P := (2 ^ (- e))%Z).
    assert (HP : (0 < P)%Z) by (apply Z.pow_pos_nonneg; lia).
    assert (HPr : 0 < IZR P) by now apply IZR_lt.
    pose proof (Z.div_mod (Z.pos m) P ltac:(lia)) as Hdm.
    pose proof (Z.mod_pos_bound (Z.pos m) P HP) as Hr.
    assert (Hv' : IZR (Z.pos m) * pow2 e = IZR (Z.pos m / P) + IZR (Z.pos m mod P) / IZR P).
    { rewrite Hdm at 1. rewrite plus_IZR, mult_IZR.
      replace e with (- (- e))%Z at 1 by lia. rewrite pow2_neg by lia. fold P. field. lra. }
    rewrite Hv'.
    assert (Hrr : 0 <= IZR (Z.pos m mod P) < IZR P)
      by (split; [apply IZR_le | apply IZR_lt]; lia).
    set (f := IZR (Z.pos m mod P) / IZR P).
    assert (Hf : f * IZR P = IZR (Z.pos m mod P)) by (unfold f; field; lra).
    assert (0 <= f) by (apply Rmult_le_reg_r with (IZR P); [lra|]; nra).
    assert (f < 1) by (apply Rmult_lt_reg_r with (IZR P); [lra|]; nra).
    lra.
Qed.

Lemma int_unique (x : float) (n : Z) :
  IZR n <= val x < IZR n + 1 -> 0 <= val x -> Py.int x = n.
Proof.
  intros Hn H0. pose proof (int_floor x H0) as Hf.
  assert (H1 : (Py.int x < n + 1)%Z) by (apply lt_IZR; rewrite plus_IZR; lra).
  assert (H2 : (n < Py.int x + 1)%Z) by (apply lt_IZR; rewrite plus_IZR; lra).
  lia.
Qed.

(** A literal, from its mantissa and exponent. *)
Lemma literal (x : float) (m : positive) (k : Z) :
  Prim2SF x = S754_finite false m (- k) -> (2 ^ 52 <= Z.pos m < 2 ^ 53)%Z -> (0 <= k)%Z ->
  pnormal x (- k) (- k) /\ val x = IZR (Z.pos m) / IZR (2 ^ k).
Proof.
  intros E Hm Hk. split.
  - exists m, (- k)%Z. repeat split; try assumption; lia.
  - unfold val. rewrite E. cbn [SF2R]. rewrite pow2_neg by assumption.
    unfold Rdiv. ring.
Qed.

End Arith64.

(** ** The luminance against exact arithmetic *)

Module Luminance.

Import F64 IEEE Geometry Arith64.
#[local] Open Scope R_scope.

Lemma mul_nonneg_l (x y : float) (a b c d : Z) :
  nonneg x a b -> pnormal y c d ->
  (-1074 <= a + c)%Z -> (b + d <= 917)%Z ->
  nonneg (x * y) (a + c + 52) (b + d + 54)
  /\ Rabs (val (x * y) - val x * val y) <= u * val (x * y).
Proof.
  intros [Ex|Hx] Hy Hlo Hhi.
  - assert (E : Prim2SF (x * y) = S754_zero false).
    { rewrite mul_spec, Ex. destruct Hy as (m & e & -> & _). reflexivity. }
    split; [now left|]. rewrite (val_zero _ _ E), (val_zero _ _ Ex).
    rewrite Rmult_0_l, Rminus_0_r, Rabs_R0. lra.
  - destruct (mul_pnormal _ _ _ _ _ _ Hx Hy Hlo Hhi) as [H1 H2].
    split; [now right | exact H2].
Qed.

Lemma coeff_299 : pnormal 0.299 (-54) (-54) /\ Rabs (val 0.299 - 299 / 1000) <= / 10 ^ 16.
Proof.
  destruct (literal 0.299 5386305154335113 54) as [H V];
    [vm_compute; reflexivity | cbn; lia | lia |].
  split; [exact H|]. rewrite V. change (2 ^ 54)%Z with 18014398509481984%Z.
  apply Rabs_le. split; lra.
Qed.

Lemma coeff_587 : pnormal 0.587 (-53) (-53) /\ Rabs (val 0.587 - 587 / 1000) <= / 10 ^ 16.
Proof.
  destruct (literal 0.587 5287225962532962 53) as [H V];
    [vm_compute; reflexivity | cbn; lia | lia |].
  split; [exact H|]. rewrite V. change (2 ^ 53)%Z with 9007199254740992%Z.
  apply Rabs_le. split; lra.
Qed.

Lemma coeff_114 : pnormal 0.114 (-56) (-56) /\ Rabs (val 0.114 - 114 / 1000) <= / 10 ^ 16.
Proof.
  destruct (literal 0.114 8214565720323785 56) as [H V];
    [vm_compute; reflexivity | cbn; lia | lia |].
  split; [exact H|]. rewrite V. change (2 ^ 56)%Z with 72057594037927936%Z.
  apply Rabs_le. split; lra.
Qed.

(** One term of the weighted sum: a coefficient below 1 times a channel. *)
Lemma term (c : float) (k : Z) (C : R) (n : Z) :
  pnormal c (- k) (- k) -> (0 <= k <= 100)%Z ->
  Rabs (val c - C) <= / 10 ^ 16 -> 0 <= C <= 1 ->
  (0 <= n <= 255)%Z ->
  nonneg (c * Py.float_of_int n) (- k + -52 + 52) (- k + 1 + 54)
  /\ Rabs (val (c * Py.float_of_int n) - C * IZR n) <= 3 / 10 ^ 13
  /\ val (c * Py.float_of_int n) <= 256.
Proof.
  intros Hc Hk HC HC1 Hn. pose proof u_bounds as [Hu0 Hu1].
  destruct (float_of_int_nonneg n) as [Hf Vf].
  { assert (2 ^ 8 < 2 ^ 53)%Z by (apply Z.pow_lt_mono_r; lia). change (2 ^ 8)%Z with 256%Z in *. lia. }
  destruct (mul_nonneg c (Py.float_of_int n) (- k) (- k) (-52) 1 Hc Hf ltac:(lia) ltac:(lia))
    as [Hp Herr].
  split; [exact Hp|].
  pose proof (nonneg_val _ _ _ Hp) as Hp0. rewrite Vf in Herr.
  pose proof (pnormal_pos _ _ _ Hc) as Hc0.
  set (P := val (c * Py.float_of_int n)) in *. set (V := val c) in *.
  assert (HN : 0 <= IZR n <= 255) by (split; apply IZR_le; lia).
  set (N := IZR n) in *.
  apply Rabs_le_inv in Herr, HC.
  assert (HV : 0 <= V <= 1 + / 10 ^ 16) by lra.
  assert (HVN : 0 <= V * N <= 255 + 255 / 10 ^ 16) by nra.
  assert (HuP : u * P <= P / 1000000000000000) by nra.
  assert (HP : P <= 256) by lra.
  assert (HuP' : u * P <= 256 / 1000000000000000) by nra.
  assert (HCN : - (255 / 10 ^ 16) <= V * N - C * N <= 255 / 10 ^ 16) by nra.
  split; [|exact HP]. apply Rabs_le. lra.
Qed.

(** The luminance of a colour, in binary64, against the exact weighted sum. *)
Lemma luminance_error (r g b : Z) :
  (0 <= r <= 255)%Z -> (0 <= g <= 255)%Z -> (0 <= b <= 255)%Z ->
  nonneg (_luminance r g b) (-56) 6
  /\ Rabs (val (_luminance r g b) - IZR (luminance_milli r g b) / 1000) <= 2 / 10 ^ 12.
Proof.
  intros Hr Hg Hb. pose proof u_bounds as [Hu0 Hu1].
  destruct coeff_299 as [H1 V1]. destruct coeff_587 as [H2 V2]. destruct coeff_114 as [H3 V3].
  destruct (term 0.299 54 (299 / 1000) r H1 ltac:(lia) V1 ltac:(lra) Hr) as (P1 & E1 & B1).
  destruct (term 0.587 53 (587 / 1000) g H2 ltac:(lia) V2 ltac:(lra) Hg) as (P2 & E2 & B2).
  destruct (term 0.114 56 (114 / 1000) b H3 ltac:(lia) V3 ltac:(lra) Hb) as (P3 & E3 & B3).
  destruct (add_nonneg _ _ _ _ _ _ P1 P2 ltac:(lia) ltac:(lia) ltac:(lia) ltac:(lia))
    as [S1 ES1].
  destruct (add_nonneg _ _ _ _ _ _ S1 P3 ltac:(lia) ltac:(lia) ltac:(lia) ltac:(lia))
    as [S2 ES2].
  unfold _luminance. split.
  - apply (nonneg_weaken _ _ _ _ _ S2); lia.
  - pose proof (nonneg_val _ _ _ S1) as HS1. pose proof (nonneg_val _ _ _ S2) as HS2.
    pose proof (nonneg_val _ _ _ P1) as HP1. pose proof (nonneg_val _ _ _ P2) as HP2.
    pose proof (nonneg_val _ _ _ P3) as HP3.
    unfold luminance_milli. rewrite !plus_IZR, !mult_IZR.
    set (p1 := val (0.299 * Py.float_of_int r)) in *.
    set (p2 := val (0.587 * Py.float_of_int g)) in *.
    set (p3 := val (0.114 * Py.float_of_int b)) in *.
    set (s1 := val (0.299 * Py.float_of_int r + 0.587 * Py.float_of_int g)) in *.
    set (s2 := val (0.299 * Py.float_of_int r + 0.587 * Py.float_of_int g
                    + 0.114 * Py.float_of_int b)) in *.
    assert (HR : 0 <= IZR r <= 255) by (split; apply IZR_le; lia).
    assert (HG : 0 <= IZR g <= 255) by (split; apply IZR_le; lia).
    assert (HB : 0 <= IZR b <= 255) by (split; apply IZR_le; lia).
    apply Rabs_le_inv in E1, E2, E3, ES1, ES2.
    assert (Hus1 : u * s1 <= / 1000000000000000 * s1) by (apply Rmult_le_compat_r; lra).
    assert (Hs1 : s1 <= 230) by lra.
    assert (Hus2 : u * s2 <= / 1000000000000000 * s2) by (apply Rmult_le_compat_r; lra).
    assert (Hs2 : s2 <= 256) by lra.
    apply Rabs_le. lra.
Qed.

End Luminance.

Lemma forallb_range (n : Z) (P : Z -> bool) :
  forallb P (Py.range n) = true -> forall i, 0 <= i < n -> P i = true.
Proof.
  intros H i Hi. rewrite forallb_forall in H. apply H. now apply range_In.
Qed.

Lemma on_luminance_spec (T : Z) (f : Z -> Z -> Z -> bool) :
  on_luminance T f = true ->
  forall r g b, 0 <= r <= 255 -> 0 <= g <= 255 -> 0 <= b <= 255 ->
    luminance_milli r g b = T -> f r g b = true.
Proof.
  intros H r g b Hr Hg Hb HT. unfold on_luminance in H.
  pose proof (forallb_range 256 _ H r ltac:(lia)) as H1. cbv beta in H1.
  pose proof (forallb_range 256 _ H1 g ltac:(lia)) as H2. cbv beta zeta in H2.
  unfold luminance_milli in HT.
  replace (T - 299 * r - 587 * g) with (b * 114) in H2 by lia.
  rewrite Z.mod_mul, Z.div_mul in H2 by lia.
  rewrite Z.eqb_refl in H2.
  replace (0 <=? b) with true in H2 by (symmetry; apply Z.leb_le; lia).
  replace (b <=? 255) with true in H2 by (symmetry; apply Z.leb_le; lia).
  exact H2.
Qed.

Lemma pixel_eqb_eq (p q : pixel) : pixel_eqb p q = true <-> p = q.
Proof.
  destruct p as [[r g] b], q as [[r' g'] b']. unfold pixel_eqb.
  rewrite !andb_true_iff, !Z.eqb_eq. split.
  - intros [[-> ->] ->]. reflexivity.
  - intros E. inversion E. tauto.
Qed.

Module Classify.

Import F64 IEEE Geometry Arith64 Luminance.
#[local] Open Scope R_scope.

(** The luminance against a whole threshold, read off the integers. *)
Lemma luminance_ltb (r g b T : Z) :
  (0 <= r <= 255)%Z -> (0 <= g <= 255)%Z -> (0 <= b <= 255)%Z -> (1 <= T < 2 ^ 53)%Z ->
  ((luminance_milli r g b < 1000 * T)%Z ->
     PrimFloat.ltb (_luminance r g b) (Py.float_of_int T) = true)
  /\ ((1000 * T < luminance_milli r g b)%Z ->
     PrimFloat.ltb (_luminance r g b) (Py.float_of_int T) = false).
Proof.
  intros Hr Hg Hb HT.
  destruct (luminance_error r g b Hr Hg Hb) as [Hn He].
  destruct (float_of_int_pnormal T HT) as [Hp Vp].
  pose proof (ltb_nonneg _ _ _ _ _ _ Hn (or_intror Hp)) as Hlt. rewrite Vp in Hlt.
  apply Rabs_le_inv in He. split; intros H.
  - apply Hlt. assert (Hz : (luminance_milli r g b <= 1000 * T - 1)%Z) by lia.
    apply IZR_le in Hz. rewrite minus_IZR, mult_IZR in Hz. lra.
  - apply not_true_is_false. intros E.
    apply Hlt in E. assert (Hz : (1000 * T + 1 <= luminance_milli r g b)%Z) by lia.
    apply IZR_le in Hz. rewrite plus_IZR, mult_IZR in Hz. lra.
Qed.

(** [int] of a float next to a fraction [K / D]: the quotient, or one less
    when the fraction is whole. *)
Lemma int_near_ratio (x : float) (K D : Z) :
  (0 < D <= 100000)%Z -> (0 <= K)%Z -> 0 <= val x ->
  Rabs (val x - IZR K / IZR D) <= 4 / 10 ^ 12 ->
  (K / D - 1 <= Py.int x <= K / D)%Z /\ ((K mod D <> 0)%Z -> Py.int x = (K / D)%Z).
Proof.
  intros HD HK H0 He. pose proof (int_floor x H0) as Hf. apply Rabs_le_inv in He.
  pose proof (Z.div_mod K D ltac:(lia)) as Hdm.
  pose proof (Z.mod_pos_bound K D ltac:(lia)) as Hr.
  assert (HDr : 1 <= IZR D <= 100000) by (split; apply IZR_le; lia).
  assert (Hv : IZR K / IZR D = IZR (K / D) + IZR (K mod D) / IZR D).
  { rewrite Hdm at 1. rewrite plus_IZR, mult_IZR. field. lra. }
  rewrite Hv in He.
  set (f := IZR (K mod D) / IZR D) in *.
  assert (Hfd : f * IZR D = IZR (K mod D)) by (unfold f; field; lra).
  assert (Hrr : 0 <= IZR (K mod D) <= IZR D - 1).
  { split; [apply IZR_le; lia|]. rewrite <- minus_IZR. apply IZR_le. lia. }
  assert (Hf0 : 0 <= f) by (apply Rmult_le_reg_r with (IZR D); [lra|]; nra).
  assert (Hf1 : f <= 1 - / 100000).
  { assert (f * IZR D <= (1 - / 100000) * IZR D) by nra.
    apply Rmult_le_reg_r with (IZR D); [lra | assumption]. }
  assert (Hup : (Py.int x < K / D + 1)%Z) by (apply lt_IZR; rewrite plus_IZR; lra).
  assert (Hlo : (K / D - 2 < Py.int x)%Z) by (apply lt_IZR; rewrite minus_IZR; lra).
  split; [lia|]. intros Hne.
  assert (Hr1 : 1 <= IZR (K mod D)) by (apply IZR_le; lia).
  assert (Hf2 : / 100000 <= f).
  { assert (/ 100000 * IZR D <= f * IZR D) by nra.
    apply Rmult_le_reg_r with (IZR D); [lra | assumption]. }
  assert (Hlo' : (K / D - 1 < Py.int x)%Z) by (apply lt_IZR; rewrite minus_IZR; lra).
  lia.
Qed.

Lemma coeff_055 : pnormal 0.55 (-53) (-53) /\ Rabs (val 0.55 - 55 / 100) <= / 10 ^ 16.
Proof.
  destruct (literal 0.55 4953959590107546 53) as [H V];
    [vm_compute; reflexivity | cbn; lia | lia |].
  split; [exact H|]. rewrite V. change (2 ^ 53)%Z with 9007199254740992%Z.
  apply Rabs_le. split; lra.
Qed.

Lemma luminance_milli_range (r g b : Z) :
  (0 <= r <= 255)%Z -> (0 <= g <= 255)%Z -> (0 <= b <= 255)%Z ->
  (0 <= luminance_milli r g b <= 255000)%Z.
Proof. unfold luminance_milli. lia. Qed.

(** [int(lum)], the gray of the tinted variant before it is clamped. *)
Lemma int_luminance (r g b : Z) :
  (0 <= r <= 255)%Z -> (0 <= g <= 255)%Z -> (0 <= b <= 255)%Z ->
  let N := luminance_milli r g b in
  (N / 1000 - 1 <= Py.int (_luminance r g b) <= N / 1000)%Z
  /\ ((N mod 1000 <> 0)%Z -> Py.int (_luminance r g b) = (N / 1000)%Z).
Proof.
  intros Hr Hg Hb N.
  destruct (luminance_error r g b Hr Hg Hb) as [Hn He].
  pose proof (luminance_milli_range r g b Hr Hg Hb) as HN. fold N in HN, He.
  apply (int_near_ratio _ N 1000); try lia.
  - exact (nonneg_val _ _ _ Hn).
  - apply Rabs_le_inv in He. apply Rabs_le. lra.
Qed.

(** [int(lum * 0.55)], the gray of the dark variant before it is clamped. *)
Lemma int_luminance_055 (r g b : Z) :
  (0 <= r <= 255)%Z -> (0 <= g <= 255)%Z -> (0 <= b <= 255)%Z ->
  let N := luminance_milli r g b in
  (11 * N / 20000 - 1 <= Py.int (_luminance r g b * 0.55) <= 11 * N / 20000)%Z
  /\ (((11 * N) mod 20000 <> 0)%Z -> Py.int (_luminance r g b * 0.55) = (11 * N / 20000)%Z).
Proof.
  intros Hr Hg Hb N. pose proof u_bounds as [Hu0 Hu1].
  destruct (luminance_error r g b Hr Hg Hb) as [Hn He].
  pose proof (luminance_milli_range r g b Hr Hg Hb) as HN. fold N in HN, He.
  destruct coeff_055 as [Hc Vc].
  destruct (mul_nonneg_l _ _ _ _ _ _ Hn Hc ltac:(lia) ltac:(lia)) as [Hp Hm].
  pose proof (nonneg_val _ _ _ Hp) as Hp0. pose proof (nonneg_val _ _ _ Hn) as Hn0.
  apply (int_near_ratio _ (11 * N) 20000); try lia; [exact Hp0|].
  rewrite mult_IZR.
  set (V := val (_luminance r g b * 0.55)) in *.
  set (L := val (_luminance r g b)) in *. set (C := val 0.55) in *.
  assert (HNr : 0 <= IZR N <= 255000) by (split; apply IZR_le; lia).
  apply Rabs_le_inv in He, Vc, Hm.
  assert (HL : 0 <= L <= 256) by lra.
  assert (HC : 0 <= C <= 1) by lra.
  assert (HLC : 0 <= L * C <= 256).
  { split; [apply Rmult_le_pos; lra|].
    replace 256 with (256 * 1) by ring. apply Rmult_le_compat; lra. }
  assert (HuV : u * V <= / 1000000000000000 * V) by (apply Rmult_le_compat_r; lra).
  assert (HV : V <= 257) by lra.
  assert (H1 : - (256 / 10 ^ 16) <= L * C - L * (55 / 100) <= 256 / 10 ^ 16).
  { replace (L * C - L * (55 / 100)) with (L * (C - 55 / 100)) by ring.
    assert (L * (C - 55 / 100) <= L * / 10 ^ 16) by (apply Rmult_le_compat_l; lra).
    assert (L * - / 10 ^ 16 <= L * (C - 55 / 100)) by (apply Rmult_le_compat_l; lra).
    lra. }
  apply Rabs_le. lra.
Qed.

End Classify.

(** Channel by channel: [int(c * 1.05)] is the integer [105 c / 100]. *)
Lemma scale_105 (c : Z) :
  0 <= c <= 255 -> Py.int (Py.float_of_int c * 1.05) = 105 * c / 100.
Proof.
  intros Hc.
  apply Z.eqb_eq.
  apply (forallb_range 256 (fun c => Py.int (Py.float_of_int c * 1.05) =? 105 * c / 100));
    [vm_compute; reflexivity | lia].
Qed.

Lemma rounds_below_205_milli (r g b : Z) :
  existsb (pixel_eqb (r, g, b)) rounds_below_205 = true -> luminance_milli r g b = 205000.
Proof.
  intros H. apply existsb_exists in H as (q & Hin & Hq).
  apply pixel_eqb_eq in Hq. subst q.
  cbn in Hin. repeat (destruct Hin as [E|Hin]; [inversion E; reflexivity|]). contradiction.
Qed.

(** C5, as the code has it: the classifier in integers.  For channels in
    0..255 a colour is foreground exactly when it is an accent, when its
    luminance (299 r + 587 g + 114 b) / 1000 is below 205, or when it is
    one of the eight colours of luminance 205 whose binary64 sum falls
    below. *)
Theorem is_foreground_pixel_in_integers (r g b : Z) :
  0 <= r <= 255 -> 0 <= g <= 255 -> 0 <= b <= 255 ->
  is_foreground_pixel r g b
  = _is_orange_accent r g b
    || (luminance_milli r g b <? 205000)
    || existsb (pixel_eqb (r, g, b)) rounds_below_205.
Proof.
  intros Hr Hg Hb.
  destruct (Classify.luminance_ltb r g b 205 Hr Hg Hb ltac:(cbn; lia)) as [Hlt Hgt].
  destruct (Z.lt_trichotomy (luminance_milli r g b) 205000) as [H|[H|H]].
  - unfold is_foreground_pixel. rewrite (Hlt ltac:(lia)).
    replace (luminance_milli r g b <? 205000) with true by (symmetry; apply Z.ltb_lt; lia).
    now destruct (_is_orange_accent r g b).
  - replace (luminance_milli r g b <? 205000) with false by (symmetry; apply Z.ltb_ge; lia).
    rewrite orb_false_r. apply eqb_prop.
    apply (on_luminance_spec 205000
             (fun r g b => Bool.eqb (is_foreground_pixel r g b)
                             (_is_orange_accent r g b
                              || existsb (pixel_eqb (r, g, b)) rounds_below_205)));
      [vm_compute; reflexivity | assumption..].
  - unfold is_foreground_pixel. rewrite (Hgt ltac:(lia)).
    replace (luminance_milli r g b <? 205000) with false by (symmetry; apply Z.ltb_ge; lia).
    destruct (existsb _ rounds_below_205) eqn:E.
    + apply rounds_below_205_milli in E. lia.
    + now destruct (_is_orange_accent r g b).
Qed.

Lemma is_foreground_pixel_in_integers_witness :
  is_foreground_pixel 197 225 123
  = _is_orange_accent 197 225 123
    || (luminance_milli 197 225 123 <? 205000)
    || existsb (pixel_eqb (197, 225, 123)) rounds_below_205.
Proof. apply (is_foreground_pixel_in_integers 197 225 123); lia. Defined.

(** ** The dark gradient *)

Module Gradient.

Import F64 IEEE Geometry Arith64.
#[local] Open Scope R_scope.

Lemma binary_round_aux_opp (s : bool) (m e : Z) (l : location) :
  binary_round_aux prec emax (negb s) m e l = SFopp (binary_round_aux prec emax s m e l).
Proof.
  unfold binary_round_aux.
  destruct (shr_fexp prec emax m e l) as [mrs' e'].
  destruct (shr_fexp prec emax _ e' loc_Exact) as [mrs'' e''].
  destruct (shr_m mrs''); try reflexivity.
  now destruct (e'' <=? emax - prec)%Z.
Qed.

Lemma SFmul_opp_l (mx my : positive) (ex ey : Z) :
  SFmul prec emax (S754_finite true mx ex) (S754_finite false my ey)
  = SFopp (SFmul prec emax (S754_finite false mx ex) (S754_finite false my ey)).
Proof. cbn [SFmul xorb]. apply (binary_round_aux_opp false). Qed.

Lemma SFadd_opp_r (mx my : positive) (ex ey : Z) :
  SFadd prec emax (S754_finite false mx ex) (S754_finite true my ey)
  = SFsub prec emax (S754_finite false mx ex) (S754_finite false my ey).
Proof. reflexivity. Qed.

(** [a + (-b) * y] is [a - b * y], for [b * y] a positive normal float. *)
Lemma add_neg_mul (a b y : float) (lo hi lo' hi' : Z) :
  pnormal a lo hi -> pnormal (b * y) lo' hi' ->
  (exists mb eb, Prim2SF b = S754_finite false mb eb) ->
  (exists my ey, Prim2SF y = S754_finite false my ey) ->
  Prim2SF (a + (- b) * y) = Prim2SF (a - b * y).
Proof.
  intros (ma & ea & Ea & _) (mp & ep & Ep & _) (mb & eb & Eb) (my & ey & Ey).
  assert (En : Prim2SF ((- b) * y) = S754_finite true mp ep).
  { rewrite mul_spec, opp_spec, Eb, Ey. cbn [SFopp negb]. unfold SF64mul.
    rewrite SFmul_opp_l. rewrite mul_spec, Eb, Ey in Ep. unfold SF64mul in Ep.
    now rewrite Ep. }
  rewrite add_spec, sub_spec, En, Ea, Ep. apply SFadd_opp_r.
Qed.

(** The gray of row 0 is the top colour. *)
Lemma gradient_top (h : Z) : (1 <= h < 2 ^ 53)%Z -> gradient_color h 0 = (49, 49, 49)%Z.
Proof.
  intros Hh. destruct (float_of_int_pnormal h Hh) as [(m & e & Eh & _) _].
  assert (Er : Prim2SF (Py.float_of_int 0 / Py.float_of_int h) = S754_zero false).
  { rewrite div_spec, Eh. reflexivity. }
  assert (Et : Prim2SF (Py.float_of_int (20 - 49)
                        * (Py.float_of_int 0 / Py.float_of_int h)) = S754_zero true).
  { rewrite mul_spec, Er. reflexivity. }
  assert (Ec : Py.int (Py.float_of_int 49
                       + Py.float_of_int (20 - 49)
                         * (Py.float_of_int 0 / Py.float_of_int h)) = 49%Z).
  { unfold Py.int. rewrite add_spec, Et. reflexivity. }
  unfold gradient_color. cbv zeta. now rewrite Ec.
Qed.

(** The arithmetic of a row's gray, in real numbers. *)
Lemma gradient_real (u H Y R T S V : R) :
  0 < u < / 1000000000000000 ->
  1 <= H <= 2147483648 -> 1 <= Y <= H - 1 ->
  0 < R -> 0 < T ->
  Rabs (R - Y / H) <= u * R ->
  Rabs (T - 29 * R) <= u * T ->
  Rabs (S - (49 - T)) <= u * Rabs S ->
  (0 <= S -> V <= S < V + 1) ->
  0 <= S /\ V * H < 49 * H - 29 * Y + 1 /\ 49 * H - 29 * Y - 1 < (V + 1) * H.
Proof.
  intros [Hu0 Hu1] HH HY HR0 HT0 Er Et Es Hf.
  assert (Hq : Y / H * H = Y) by (field; lra).
  set (Q := Y / H) in *.
  assert (HQ : 0 < Q < 1).
  { split.
    - apply Rmult_lt_reg_r with H; [lra|]. rewrite Hq. lra.
    - apply Rmult_lt_reg_r with H; [lra|]. rewrite Hq. lra. }
  apply Rabs_le in Er || idtac.
  assert (Er' : - (u * R) <= R - Q <= u * R).
  { unfold Rabs in Er. destruct (Rcase_abs (R - Q)); lra. }
  assert (Et' : - (u * T) <= T - 29 * R <= u * T).
  { unfold Rabs in Et. destruct (Rcase_abs (T - 29 * R)); lra. }
  clear Er Et.
  assert (HuR : u * R <= / 1000 * R) by (apply Rmult_le_compat_r; lra).
  assert (HR : R <= 2) by lra.
  assert (HuR2 : u * R <= u * 2) by (apply Rmult_le_compat_l; lra).
  assert (HuT : u * T <= / 1000 * T) by (apply Rmult_le_compat_r; lra).
  assert (HT : T <= 60) by lra.
  assert (HuT2 : u * T <= u * 60) by (apply Rmult_le_compat_l; lra).
  assert (HTq : - (120 * u) <= T - 29 * Q <= 120 * u) by lra.
  pose proof (Rabs_pos S) as HA0.
  assert (HSA : S <= Rabs S /\ - S <= Rabs S).
  { unfold Rabs. destruct (Rcase_abs S); lra. }
  assert (HAS : Rabs S = S \/ Rabs S = - S).
  { unfold Rabs. destruct (Rcase_abs S); [now right | now left]. }
  set (A := Rabs S) in *.
  assert (Es' : - (u * A) <= S - (49 - T) <= u * A).
  { unfold Rabs in Es. destruct (Rcase_abs (S - (49 - T))); lra. }
  clear Es.
  assert (HuA : u * A <= / 1000 * A) by (apply Rmult_le_compat_r; lra).
  assert (HA : A <= 100) by (destruct HAS; lra).
  assert (HuA2 : u * A <= u * 100) by (apply Rmult_le_compat_l; lra).
  assert (HSq : - (220 * u) <= S - (49 - 29 * Q) <= 220 * u) by lra.
  assert (HS0 : 0 <= S) by lra.
  specialize (Hf HS0).
  assert (HuH : u * H <= / 1000000000000000 * 2147483648)
    by (apply Rmult_le_compat; lra).
  assert (E1 : (49 - 29 * Q + 220 * u) * H = 49 * H - 29 * Y + 220 * (u * H))
    by (rewrite <- Hq; ring).
  assert (E2 : (49 - 29 * Q - 220 * u) * H = 49 * H - 29 * Y - 220 * (u * H))
    by (rewrite <- Hq; ring).
  assert (H1 : V * H <= (49 - 29 * Q + 220 * u) * H) by (apply Rmult_le_compat_r; lra).
  assert (H2 : (49 - 29 * Q - 220 * u) * H < (V + 1) * H) by (apply Rmult_lt_compat_r; lra).
  split; [exact HS0|]. split; lra.
Qed.

(** The gray of a row below the first: the interpolation, truncated. *)
Lemma gradient_value (h y : Z) :
  (1 <= h < 2 ^ 31)%Z -> (1 <= y < h)%Z ->
  let v := Py.int (Py.float_of_int 49
                   + Py.float_of_int (20 - 49) * (Py.float_of_int y / Py.float_of_int h)) in
  ((48 - v) * h <= 29 * y <= (49 - v) * h)%Z.
Proof.
  intros Hh Hy v. pose proof u_bounds as [Hu0 Hu1].
  assert (H31 : (2 ^ 31 < 2 ^ 53)%Z) by (apply Z.pow_lt_mono_r; lia).
  destruct (float_of_int_pnormal h ltac:(lia)) as [Hph Vh].
  destruct (float_of_int_pnormal y ltac:(lia)) as [Hpy Vy].
  destruct (float_of_int_pnormal 29 ltac:(cbn; lia)) as [Hp29 V29].
  destruct (float_of_int_pnormal 49 ltac:(cbn; lia)) as [Hp49 V49].
  destruct (div_pnormal _ _ _ _ _ _ Hpy Hph ltac:(lia) ltac:(lia)) as [Hpr Er].
  rewrite Vy, Vh in Er.
  set (ratio := (Py.float_of_int y / Py.float_of_int h)%float) in *.
  destruct (mul_pnormal _ _ _ _ _ _ Hp29 Hpr ltac:(lia) ltac:(lia)) as [Hpt Et].
  rewrite V29 in Et.
  set (t := (Py.float_of_int 29 * ratio)%float) in *.
  pose proof (sub_pnormal _ _ _ _ _ _ Hp49 Hpt ltac:(lia) ltac:(lia) ltac:(lia) ltac:(lia))
    as Es.
  rewrite V49 in Es.
  assert (Ev : v = Py.int (Py.float_of_int 49 - t)).
  { unfold v, Py.int. f_equal.
    replace (Py.float_of_int (20 - 49)) with (- Py.float_of_int 29)%float
      by (vm_compute; reflexivity).
    apply (add_neg_mul _ _ _ _ _ _ _ Hp49 Hpt).
    - destruct Hp29 as (mb & eb & Eb & _). now exists mb, eb.
    - destruct Hpr as (my & ey & Ey & _). now exists my, ey. }
  pose proof (pnormal_pos _ _ _ Hpr) as Hr0. pose proof (pnormal_pos _ _ _ Hpt) as Ht0.
  assert (HH : 1 <= IZR h <= 2147483648).
  { split; [apply IZR_le; lia|]. apply IZR_le. change (2 ^ 31)%Z with 2147483648%Z in Hh. lia. }
  assert (HY : 1 <= IZR y <= IZR h - 1).
  { split; [apply IZR_le; lia|]. rewrite <- minus_IZR. apply IZR_le. lia. }
  assert (Hf : 0 <= val (Py.float_of_int 49 - t) ->
               IZR v <= val (Py.float_of_int 49 - t) < IZR v + 1).
  { intros H0. rewrite Ev. now apply int_floor. }
  destruct (gradient_real u (IZR h) (IZR y) (val ratio) (val t) (val (Py.float_of_int 49 - t))
              (IZR v) (conj Hu0 Hu1) HH HY Hr0 Ht0 Er Et Es Hf) as (_ & H1 & H2).
  split.
  - assert (Hz : ((48 - v) * h < 29 * y + 1)%Z); [|lia].
    apply lt_IZR. rewrite plus_IZR, !mult_IZR, minus_IZR. lra.
  - assert (Hz : (29 * y < (49 - v) * h + 1)%Z); [|lia].
    apply lt_IZR. rewrite plus_IZR, !mult_IZR, minus_IZR. lra.
Qed.

End Gradient.

(** The gray of a row of the gradient: [chan] for the three channels alike. *)
Lemma gradient_color_gray (h y : Z) :
  gradient_color h y
  = let v := Py.int (Py.float_of_int 49
                     + Py.float_of_int (20 - 49) * (Py.float_of_int y / Py.float_of_int h)) in
    (v, v, v).
Proof. reflexivity. Qed.

Lemma gradient_color_spec (h y : Z) :
  1 <= h < 2 ^ 31 -> 0 <= y < h ->
  exists v, gradient_color h y = (v, v, v)
            /\ (48 - v) * h <= 29 * y <= (49 - v) * h
            /\ 20 <= v <= 49
            /\ (y = 0 -> v = 49).
Proof.
  intros Hh Hy. destruct (Z.eq_dec y 0) as [->|Hy0].
  - exists 49. rewrite Gradient.gradient_top.
    + repeat split; lia.
    + assert (2 ^ 31 < 2 ^ 53) by (apply Z.pow_lt_mono_r; lia). lia.
  - pose proof (Gradient.gradient_value h y Hh ltac:(lia)) as H. cbv zeta in H.
    rewrite gradient_color_gray. cbv zeta.
    set (v := Py.int _) in *. exists v. split; [reflexivity|]. split; [exact H|].
    split; [nia | lia].
Qed.

(** The dark gradient: an image of the size asked for, each row one gray,
    the linear interpolation from 49 down to (but short of) 20, truncated. *)
Theorem create_dark_gradient_rows (w h x y : Z) :
  1 <= h < 2 ^ 31 -> 0 <= x < w -> 0 <= y < h ->
  PIL.size (create_dark_gradient (w, h)) = (w, h)
  /\ exists v, load (create_dark_gradient (w, h)) x y = (v, v, v)
               /\ (48 - v) * h <= 29 * y <= (49 - v) * h
               /\ 20 <= v <= 49
               /\ (y = 0 -> v = 49).
Proof.
  intros Hh Hx Hy.
  destruct (create_dark_gradient_spec w h) as (Hw & Hh' & Hl).
  split; [unfold PIL.size; now rewrite Hw, Hh'|].
  rewrite Hl by lia. now apply gradient_color_spec.
Qed.

Lemma create_dark_gradient_rows_witness :
  PIL.size (create_dark_gradient (3, 4)) = (3, 4)
  /\ exists v, load (create_dark_gradient (3, 4)) 1 2 = (v, v, v)
               /\ (48 - v) * 4 <= 29 * 2 <= (49 - v) * 4
               /\ 20 <= v <= 49
               /\ (2 = 0 -> v = 49).
Proof. apply (create_dark_gradient_rows 3 4 1 2); lia. Defined.

(** ** The recolorers in integers *)

(** What the recolorers write for a colour, from the classification in
    integers. *)
Lemma dark_pixel_in_integers (r g b : Z) :
  0 <= r <= 255 -> 0 <= g <= 255 -> 0 <= b <= 255 ->
  let N := luminance_milli r g b in
  (_is_orange_accent r g b = true ->
     dark_pixel (r, g, b) = Some (Z.min 255 (105 * r / 100), Z.min 255 (105 * g / 100), b))
  /\ (_is_orange_accent r g b = false -> N < 120000 ->
        dark_pixel (r, g, b) = Some (240, 240, 240))
  /\ (_is_orange_accent r g b = false -> 120000 < N < 205000 ->
        exists v, dark_pixel (r, g, b) = Some (v, v, v)
                  /\ Z.max 70 (11 * N / 20000 - 1) <= v <= Z.max 70 (11 * N / 20000)
                  /\ ((11 * N) mod 20000 <> 0 -> v = Z.max 70 (11 * N / 20000))
                  /\ 70 <= v <= 112)
  /\ (_is_orange_accent r g b = false -> 205000 < N -> dark_pixel (r, g, b) = None).
Proof.
  intros Hr Hg Hb N.
  destruct (Classify.luminance_ltb r g b 205 Hr Hg Hb ltac:(cbn; lia)) as [Hlt205 Hgt205].
  destruct (Classify.luminance_ltb r g b 120 Hr Hg Hb ltac:(cbn; lia)) as [Hlt120 Hgt120].
  fold N in Hlt205, Hgt205, Hlt120, Hgt120.
  unfold dark_pixel, is_foreground_pixel.
  split; [|split; [|split]].
  - intros Ha. rewrite Ha. cbn [negb]. now rewrite !scale_105 by assumption.
  - intros Ha HN. rewrite Ha, (Hlt205 ltac:(lia)), (Hlt120 ltac:(lia)). reflexivity.
  - intros Ha HN. rewrite Ha, (Hlt205 ltac:(lia)), (Hgt120 ltac:(lia)). cbn [negb].
    destruct (Classify.int_luminance_055 r g b Hr Hg Hb) as [Hq Hq']. fold N in Hq, Hq'.
    set (q := Py.int (_luminance r g b * 0.55)) in *.
    exists (Z.max 70 (Z.min 140 q)). split; [reflexivity|].
    assert (Hq112 : 11 * N / 20000 < 113).
    { apply Z.div_lt_upper_bound; lia. }
    split; [lia|]. split; [|lia].
    intros Hne. rewrite (Hq' Hne). lia.
  - intros Ha HN. rewrite Ha, (Hgt205 ltac:(lia)). reflexivity.
Qed.

Lemma tinted_pixel_in_integers (r g b : Z) :
  0 <= r <= 255 -> 0 <= g <= 255 -> 0 <= b <= 255 ->
  let N := luminance_milli r g b in
  (_is_orange_accent r g b = true -> tinted_pixel (r, g, b) = Some (255, 255, 255))
  /\ (_is_orange_accent r g b = false -> N < 120000 ->
        tinted_pixel (r, g, b) = Some (255, 255, 255))
  /\ (_is_orange_accent r g b = false -> 120000 < N < 205000 ->
        exists v, tinted_pixel (r, g, b) = Some (v, v, v)
                  /\ Z.max 140 (N / 1000 - 1) <= v <= Z.max 140 (N / 1000)
                  /\ (N mod 1000 <> 0 -> v = Z.max 140 (N / 1000))
                  /\ 140 <= v <= 204)
  /\ (_is_orange_accent r g b = false -> 205000 < N -> tinted_pixel (r, g, b) = None).
Proof.
  intros Hr Hg Hb N.
  destruct (Classify.luminance_ltb r g b 205 Hr Hg Hb ltac:(cbn; lia)) as [Hlt205 Hgt205].
  destruct (Classify.luminance_ltb r g b 120 Hr Hg Hb ltac:(cbn; lia)) as [Hlt120 Hgt120].
  fold N in Hlt205, Hgt205, Hlt120, Hgt120.
  unfold tinted_pixel, is_foreground_pixel.
  split; [|split; [|split]].
  - intros Ha. rewrite Ha. reflexivity.
  - intros Ha HN. rewrite Ha, (Hlt205 ltac:(lia)), (Hlt120 ltac:(lia)). reflexivity.
  - intros Ha HN. rewrite Ha, (Hlt205 ltac:(lia)), (Hgt120 ltac:(lia)). cbn [negb].
    destruct (Classify.int_luminance r g b Hr Hg Hb) as [Hq Hq']. fold N in Hq, Hq'.
    set (q := Py.int (_luminance r g b)) in *.
    exists (Z.max 140 (Z.min 220 q)). split; [reflexivity|].
    assert (Hq204 : N / 1000 < 205).
    { apply Z.div_lt_upper_bound; lia. }
    split; [lia|]. split; [|lia].
    intros Hne. rewrite (Hq' Hne). lia.
  - intros Ha HN. rewrite Ha, (Hgt205 ltac:(lia)). reflexivity.
Qed.

(** The dark recolorer in integers.  For a source pixel with channels in
    0..255 and a thousand times its luminance [N]: an accent has red and
    green scaled by 105/100 and capped; a darker pixel turns (240,240,240);
    a mid-tone turns the gray 11 N / 20000 (one less at most where that is a
    whole number), raised to 70, never above 112; a lighter pixel keeps
    the gradient. *)
Theorem dark_icon_in_integers (source_img : Image) (x y r g b : Z) :
  0 <= x < width source_img -> 0 <= y < height source_img ->
  load source_img x y = (r, g, b) ->
  0 <= r <= 255 -> 0 <= g <= 255 -> 0 <= b <= 255 ->
  let N := luminance_milli r g b in
  let out := load (create_dark_icon source_img) x y in
  (_is_orange_accent r g b = true ->
     out = (Z.min 255 (105 * r / 100), Z.min 255 (105 * g / 100), b))
  /\ (_is_orange_accent r g b = false -> N < 120000 -> out = (240, 240, 240))
  /\ (_is_orange_accent r g b = false -> 120000 < N < 205000 ->
        exists v, out = (v, v, v)
                  /\ Z.max 70 (11 * N / 20000 - 1) <= v <= Z.max 70 (11 * N / 20000)
                  /\ ((11 * N) mod 20000 <> 0 -> v = Z.max 70 (11 * N / 20000))
                  /\ 70 <= v <= 112)
  /\ (_is_orange_accent r g b = false -> 205000 < N ->
        out = gradient_color (height source_img) y).
Proof.
  intros Hx Hy Hp Hr Hg Hb N out. subst out.
  rewrite create_dark_icon_load, Hp by assumption.
  destruct (dark_pixel_in_integers r g b Hr Hg Hb) as (H1 & H2 & H3 & H4). fold N in H2, H3, H4.
  split; [|split; [|split]].
  - intros Ha. now rewrite (H1 Ha).
  - intros Ha HN. now rewrite (H2 Ha HN).
  - intros Ha HN. destruct (H3 Ha HN) as (v & -> & Hv). now exists v.
  - intros Ha HN. now rewrite (H4 Ha HN).
Qed.

Lemma dark_icon_in_integers_witness :
  (_is_orange_accent 150 150 150 = true ->
     load (create_dark_icon Sample.gray_1x2) 0 1
     = (Z.min 255 (105 * 150 / 100), Z.min 255 (105 * 150 / 100), 150))
  /\ (_is_orange_accent 150 150 150 = false -> luminance_milli 150 150 150 < 120000 ->
      load (create_dark_icon Sample.gray_1x2) 0 1 = (240, 240, 240))
  /\ (_is_orange_accent 150 150 150 = false ->
      120000 < luminance_milli 150 150 150 < 205000 ->
        exists v, load (create_dark_icon Sample.gray_1x2) 0 1 = (v, v, v)
                  /\ Z.max 70 (11 * luminance_milli 150 150 150 / 20000 - 1) <= v
                     <= Z.max 70 (11 * luminance_milli 150 150 150 / 20000)
                  /\ ((11 * luminance_milli 150 150 150) mod 20000 <> 0 ->
                      v = Z.max 70 (11 * luminance_milli 150 150 150 / 20000))
                  /\ 70 <= v <= 112)
  /\ (_is_orange_accent 150 150 150 = false -> 205000 < luminance_milli 150 150 150 ->
        load (create_dark_icon Sample.gray_1x2) 0 1
        = gradient_color (height Sample.gray_1x2) 1).
Proof.
  apply (dark_icon_in_integers Sample.gray_1x2 0 1 150 150 150);
    [cbn; lia | cbn; lia | reflexivity | lia | lia | lia].
Defined.

(** C7, as the code has it.  For a foreground pixel that is no accent, with
    channels in 0..255 and [N] a thousand times its luminance, the dark
    variant holds (240, 240, 240) when the luminance is below 120; above
    120 it holds the gray max(70, 11 N / 20000), or one less than that
    quotient where 11 N / 20000 is a whole number, and the gray is 112 at
    most, so the clamp at 140 never acts; at 120 exactly it holds
    (240, 240, 240) or (70, 70, 70), as the binary64 sum falls below 120
    or not. *)
Theorem dark_recolor_of_plain_foreground_in_integers (source_img : Image)
    (x y r g b : Z) :
  0 <= x < width source_img -> 0 <= y < height source_img ->
  load source_img x y = (r, g, b) ->
  0 <= r <= 255 -> 0 <= g <= 255 -> 0 <= b <= 255 ->
  is_foreground_pixel r g b = true ->
  _is_orange_accent r g b = false ->
  let N := luminance_milli r g b in
  let out := load (create_dark_icon source_img) x y in
  (N < 120000 -> out = (240, 240, 240))
  /\ (N = 120000 ->
        out = if PrimFloat.ltb (_luminance r g b) 120%float
              then (240, 240, 240) else (70, 70, 70))
  /\ (120000 < N ->
        exists v, out = (v, v, v)
                  /\ Z.max 70 (11 * N / 20000 - 1) <= v <= Z.max 70 (11 * N / 20000)
                  /\ ((11 * N) mod 20000 <> 0 -> v = Z.max 70 (11 * N / 20000))
                  /\ 70 <= v <= 112).
Proof.
  intros Hx Hy Hp Hr Hg Hb Hfg Ha N out. subst out.
  rewrite create_dark_icon_load, Hp by assumption.
  destruct (Classify.luminance_ltb r g b 205 Hr Hg Hb ltac:(cbn; lia)) as [_ Hgt205].
  destruct (Classify.luminance_ltb r g b 120 Hr Hg Hb ltac:(cbn; lia)) as [Hlt120 Hgt120].
  fold N in Hgt205, Hlt120, Hgt120.
  assert (HN : N <= 205000).
  { destruct (Z.le_gt_cases N 205000) as [H|H]; [exact H|].
    unfold is_foreground_pixel in Hfg. rewrite Ha, (Hgt205 ltac:(lia)) in Hfg.
    discriminate. }
  destruct (Classify.int_luminance_055 r g b Hr Hg Hb) as [Hq Hq']. fold N in Hq, Hq'.
  unfold dark_pixel. rewrite Hfg, Ha. cbn [negb].
  replace (Py.float_of_int 120) with 120%float in * by (vm_compute; reflexivity).
  set (q := Py.int (_luminance r g b * 0.55)) in *.
  split; [|split].
  - intros H. now rewrite (Hlt120 ltac:(lia)).
  - intros H. clear Hgt205 Hlt120 Hgt120.
    destruct (PrimFloat.ltb (_luminance r g b) 120%float); [reflexivity|]. cbv zeta.
    rewrite H in Hq. change (11 * 120000 / 20000) with 66 in Hq.
    replace (Z.max 70 (Z.min 140 q)) with 70 by lia. reflexivity.
  - intros H. rewrite (Hgt120 ltac:(lia)).
    exists (Z.max 70 (Z.min 140 q)). split; [reflexivity|].
    assert (Hq112 : 11 * N / 20000 < 113).
    { apply Z.div_lt_upper_bound; lia. }
    split; [lia|]. split; [|lia].
    intros Hne. rewrite (Hq' Hne). lia.
Qed.

Lemma dark_recolor_of_plain_foreground_in_integers_witness :
  (luminance_milli 150 150 150 < 120000 ->
     load (create_dark_icon Sample.gray_1x2) 0 1 = (240, 240, 240))
  /\ (luminance_milli 150 150 150 = 120000 ->
        load (create_dark_icon Sample.gray_1x2) 0 1
        = if PrimFloat.ltb (_luminance 150 150 150) 120%float
          then (240, 240, 240) else (70, 70, 70))
  /\ (120000 < luminance_milli 150 150 150 ->
        exists v, load (create_dark_icon Sample.gray_1x2) 0 1 = (v, v, v)
                  /\ Z.max 70 (11 * luminance_milli 150 150 150 / 20000 - 1) <= v
                     <= Z.max 70 (11 * luminance_milli 150 150 150 / 20000)
                  /\ ((11 * luminance_milli 150 150 150) mod 20000 <> 0 ->
                      v = Z.max 70 (11 * luminance_milli 150 150 150 / 20000))
                  /\ 70 <= v <= 112).
Proof.
  apply (dark_recolor_of_plain_foreground_in_integers Sample.gray_1x2 0 1 150 150 150);
    [cbn; lia | cbn; lia | reflexivity | lia | lia | lia
     | vm_compute; reflexivity | vm_compute; reflexivity].
Defined.

(** C7 as stated fails where the luminance is a whole number.  Neither
    colour is an accent and both are foreground.  The first has luminance
    120 exactly, not below 120, and yet turns (240, 240, 240), not the gray
    70 of the clamp; the second has luminance 160 exactly, whose 0.55-fold is
    88, and turns the gray 87. *)
Lemma dark_recolor_at_whole_luminance :
  (299 * 127 + 587 * 131 + 114 * 45 = 120 * 1000
   /\ _is_orange_accent 127 131 45 = false
   /\ is_foreground_pixel 127 131 45 = true
   /\ load (create_dark_icon Sample.edge_1x2) 0 0 = (240, 240, 240))
  /\ (299 * 3 + 587 * 239 + 114 * 165 = 160 * 1000
      /\ 160 * 55 = 88 * 100
      /\ _is_orange_accent 3 239 165 = false
      /\ is_foreground_pixel 3 239 165 = true
      /\ load (create_dark_icon Sample.edge_1x2) 0 1 = (87, 87, 87)).
Proof. repeat split; vm_compute; reflexivity. Qed.

(** The tinted recolorer in integers: white for an accent and for a darker
    pixel, the gray N / 1000 (one less at most where that is a whole number)
    raised to 140 and never above 204 for a mid-tone, black for a lighter
    pixel. *)
Theorem tinted_icon_in_integers (source_img : Image) (x y r g b : Z) :
  0 <= x < width source_img -> 0 <= y < height source_img ->
  load source_img x y = (r, g, b) ->
  0 <= r <= 255 -> 0 <= g <= 255 -> 0 <= b <= 255 ->
  let N := luminance_milli r g b in
  let out := load (create_tinted_icon source_img) x y in
  (_is_orange_accent r g b = true -> out = (255, 255, 255))
  /\ (_is_orange_accent r g b = false -> N < 120000 -> out = (255, 255, 255))
  /\ (_is_orange_accent r g b = false -> 120000 < N < 205000 ->
        exists v, out = (v, v, v)
                  /\ Z.max 140 (N / 1000 - 1) <= v <= Z.max 140 (N / 1000)
                  /\ (N mod 1000 <> 0 -> v = Z.max 140 (N / 1000))
                  /\ 140 <= v <= 204)
  /\ (_is_orange_accent r g b = false -> 205000 < N -> out = (0, 0, 0)).
Proof.
  intros Hx Hy Hp Hr Hg Hb N out. subst out.
  rewrite create_tinted_icon_load, Hp by assumption.
  destruct (tinted_pixel_in_integers r g b Hr Hg Hb) as (H1 & H2 & H3 & H4).
  fold N in H2, H3, H4.
  split; [|split; [|split]].
  - intros Ha. now rewrite (H1 Ha).
  - intros Ha HN. now rewrite (H2 Ha HN).
  - intros Ha HN. destruct (H3 Ha HN) as (v & -> & Hv). now exists v.
  - intros Ha HN. now rewrite (H4 Ha HN).
Qed.

Lemma tinted_icon_in_integers_witness :
  (_is_orange_accent 150 150 150 = true ->
     load (create_tinted_icon Sample.gray_1x2) 0 1 = (255, 255, 255))
  /\ (_is_orange_accent 150 150 150 = false -> luminance_milli 150 150 150 < 120000 ->
      load (create_tinted_icon Sample.gray_1x2) 0 1 = (255, 255, 255))
  /\ (_is_orange_accent 150 150 150 = false ->
      120000 < luminance_milli 150 150 150 < 205000 ->
        exists v, load (create_tinted_icon Sample.gray_1x2) 0 1 = (v, v, v)
                  /\ Z.max 140 (luminance_milli 150 150 150 / 1000 - 1) <= v
                     <= Z.max 140 (luminance_milli 150 150 150 / 1000)
                  /\ (luminance_milli 150 150 150 mod 1000 <> 0 ->
                      v = Z.max 140 (luminance_milli 150 150 150 / 1000))
                  /\ 140 <= v <= 204)
  /\ (_is_orange_accent 150 150 150 = false -> 205000 < luminance_milli 150 150 150 ->
      load (create_tinted_icon Sample.gray_1x2) 0 1 = (0, 0, 0)).
Proof.
  apply (tinted_icon_in_integers Sample.gray_1x2 0 1 150 150 150);
    [cbn; lia | cbn; lia | reflexivity | lia | lia | lia].
Defined.

(** What the tinted recolorer writes is white or a gray from 140 to 220. *)
Lemma tinted_pixel_gray (p v : pixel) :
  tinted_pixel p = Some v ->
  exists c, v = (c, c, c) /\ 140 <= c <= 255.
Proof.
  destruct p as [[r g] b]. unfold tinted_pixel.
  destruct (is_foreground_pixel r g b); cbn [negb]; [|discriminate].
  destruct (_is_orange_accent r g b).
  - intros E. injection E as <-. exists 255. split; [reflexivity | lia].
  - destruct (PrimFloat.ltb _ _).
    + intros E. injection E as <-. exists 255. split; [reflexivity | lia].
    + cbv zeta. intros E. injection E as <-. eexists. split; [reflexivity | lia].
Qed.

Lemma tinted_pixel_none (r g b : Z) :
  tinted_pixel (r, g, b) = None <-> is_foreground_pixel r g b = false.
Proof.
  unfold tinted_pixel. destruct (is_foreground_pixel r g b); cbn [negb].
  - split; [|discriminate]. destruct (_is_orange_accent r g b); [discriminate|].
    destruct (PrimFloat.ltb _ _); discriminate.
  - tauto.
Qed.

(** The tinted variant is a mask of the glyph: a gray image, black exactly
    where the source pixel is classified background and not darker than 140
    elsewhere. *)
Theorem tinted_icon_is_glyph_mask (source_img : Image) (x y r g b : Z) :
  0 <= x < width source_img -> 0 <= y < height source_img ->
  load source_img x y = (r, g, b) ->
  exists c, load (create_tinted_icon source_img) x y = (c, c, c)
            /\ (c = 0 \/ 140 <= c <= 255)
            /\ (c = 0 <-> is_foreground_pixel r g b = false).
Proof.
  intros Hx Hy Hp. rewrite create_tinted_icon_load, Hp by assumption.
  destruct (tinted_pixel (r, g, b)) as [v|] eqn:E.
  - destruct (tinted_pixel_gray _ _ E) as (c & -> & Hc). exists c.
    split; [reflexivity|]. split; [now right|]. split.
    + lia.
    + intros Hbg. apply tinted_pixel_none in Hbg. congruence.
  - exists 0. split; [reflexivity|]. split; [now left|]. split; [|reflexivity].
    intros _. now apply tinted_pixel_none.
Qed.

Lemma tinted_icon_is_glyph_mask_witness :
  exists c, load (create_tinted_icon Sample.block_4x4) 1 1 = (c, c, c)
            /\ (c = 0 \/ 140 <= c <= 255)
            /\ (c = 0 <-> is_foreground_pixel 0 0 0 = false).
Proof.
  apply (tinted_icon_is_glyph_mask Sample.block_4x4 1 1 0 0 0);
    [cbn; lia | cbn; lia | reflexivity].
Defined.

(** What the dark recolorer writes has a red channel of 70 at least, for a
    source pixel with channels in 0..255. *)
Lemma dark_pixel_red (r g b : Z) (v : pixel) :
  0 <= r <= 255 -> 0 <= g <= 255 -> 0 <= b <= 255 ->
  dark_pixel (r, g, b) = Some v ->
  let '(r', g', b') := v in
  70 <= r' <= 255 /\ 0 <= g' <= 255 /\ 0 <= b' <= 255.
Proof.
  intros Hr Hg Hb. unfold dark_pixel.
  destruct (is_foreground_pixel r g b); cbn [negb]; [|discriminate].
  destruct (_is_orange_accent r g b) eqn:Ha.
  - intros E. injection E as <-. rewrite !scale_105 by assumption.
    unfold _is_orange_accent in Ha. rewrite !andb_true_iff, !Z.ltb_lt in Ha.
    assert (178 <= 105 * r / 100) by (apply Z.div_le_lower_bound; lia).
    assert (0 <= 105 * g / 100) by (apply Z.div_pos; lia).
    lia.
  - destruct (PrimFloat.ltb _ _).
    + intros E. injection E as <-. lia.
    + cbv zeta. intros E. injection E as <-. lia.
Qed.

Lemma dark_pixel_none (r g b : Z) :
  dark_pixel (r, g, b) = None <-> is_foreground_pixel r g b = false.
Proof.
  unfold dark_pixel. destruct (is_foreground_pixel r g b); cbn [negb].
  - split; [|discriminate]. destruct (_is_orange_accent r g b); [discriminate|].
    destruct (PrimFloat.ltb _ _); discriminate.
  - tauto.
Qed.

(** In the dark variant the glyph stands out of the background: the pixel
    is a valid colour, a background pixel is a gray of 49 at most and a
    foreground pixel has a red channel of 70 at least. *)
Theorem dark_icon_glyph_stands_out (source_img : Image) (x y r g b : Z) :
  1 <= height source_img < 2 ^ 31 ->
  0 <= x < width source_img -> 0 <= y < height source_img ->
  load source_img x y = (r, g, b) ->
  0 <= r <= 255 -> 0 <= g <= 255 -> 0 <= b <= 255 ->
  exists r' g' b',
    load (create_dark_icon source_img) x y = (r', g', b')
    /\ 0 <= r' <= 255 /\ 0 <= g' <= 255 /\ 0 <= b' <= 255
    /\ (is_foreground_pixel r g b = false -> 20 <= r' <= 49 /\ g' = r' /\ b' = r')
    /\ (is_foreground_pixel r g b = true -> 70 <= r').
Proof.
  intros Hh Hx Hy Hp Hr Hg Hb. rewrite create_dark_icon_load, Hp by assumption.
  destruct (dark_pixel (r, g, b)) as [[[r' g'] b']|] eqn:E.
  - pose proof (dark_pixel_red r g b _ Hr Hg Hb E) as Hv. cbv beta iota in Hv.
    exists r', g', b'. split; [reflexivity|].
    split; [lia|]. split; [lia|]. split; [lia|]. split.
    + intros Hbg. apply dark_pixel_none in Hbg. congruence.
    + intros _. lia.
  - destruct (gradient_color_spec (height source_img) y Hh Hy) as (v & -> & _ & Hv & _).
    exists v, v, v. split; [reflexivity|].
    split; [lia|]. split; [lia|]. split; [lia|]. split.
    + intros _. lia.
    + intros Hfg. apply dark_pixel_none in E. congruence.
Qed.

Lemma dark_icon_glyph_stands_out_witness :
  exists r' g' b',
    load (create_dark_icon Sample.block_4x4) 1 1 = (r', g', b')
    /\ 0 <= r' <= 255 /\ 0 <= g' <= 255 /\ 0 <= b' <= 255
    /\ (is_foreground_pixel 0 0 0 = false -> 20 <= r' <= 49 /\ g' = r' /\ b' = r')
    /\ (is_foreground_pixel 0 0 0 = true -> 70 <= r').
Proof.
  apply (dark_icon_glyph_stands_out Sample.block_4x4 1 1 0 0 0);
    [cbn; lia | cbn; lia | cbn; lia | reflexivity | lia | lia | lia].
Defined.

(** The saturation test of the scan at its default threshold, on the
    spread [d] of the channels: [d / 255.0 > 0.035] is [d >= 9]. *)
Lemma saturation_test (d : Z) :
  0 <= d <= 255 ->
  PrimFloat.ltb CROP_SAT_THRESH (Py.float_of_int d / 255.0) = (9 <=? d).
Proof.
  intros Hd. apply eqb_prop.
  apply (forallb_range 256
           (fun d => Bool.eqb (PrimFloat.ltb CROP_SAT_THRESH (Py.float_of_int d / 255.0))
                       (9 <=? d)));
    [vm_compute; reflexivity | lia].
Qed.

(** The criterion of the scan at the default thresholds, in integers: a
    pixel is of interest when its channels are 9 or more apart or its
    luminance is below 220. *)
Theorem of_interest_in_integers (r g b : Z) :
  0 <= r <= 255 -> 0 <= g <= 255 -> 0 <= b <= 255 ->
  of_interest CROP_SAT_THRESH CROP_LUM_THRESH (r, g, b)
  = (9 <=? Z.max (Z.max r g) b - Z.min (Z.min r g) b)
    || (luminance_milli r g b <? 220000).
Proof.
  intros Hr Hg Hb.
  destruct (Z.lt_trichotomy (luminance_milli r g b) 220000) as [H|[H|H]].
  - destruct (Classify.luminance_ltb r g b 220 Hr Hg Hb ltac:(cbn; lia)) as [Hlt _].
    unfold of_interest.
    replace CROP_LUM_THRESH with (Py.float_of_int 220) by (vm_compute; reflexivity).
    rewrite (Hlt ltac:(lia)).
    replace (luminance_milli r g b <? 220000) with true by (symmetry; apply Z.ltb_lt; lia).
    now rewrite !orb_true_r.
  - apply eqb_prop.
    apply (on_luminance_spec 220000
             (fun r g b => Bool.eqb (of_interest CROP_SAT_THRESH CROP_LUM_THRESH (r, g, b))
                             ((9 <=? Z.max (Z.max r g) b - Z.min (Z.min r g) b)
                              || (luminance_milli r g b <? 220000))));
      [vm_compute; reflexivity | assumption..].
  - destruct (Classify.luminance_ltb r g b 220 Hr Hg Hb ltac:(cbn; lia)) as [_ Hgt].
    unfold of_interest.
    replace CROP_LUM_THRESH with (Py.float_of_int 220) by (vm_compute; reflexivity).
    rewrite (Hgt ltac:(lia)).
    replace (luminance_milli r g b <? 220000) with false by (symmetry; apply Z.ltb_ge; lia).
    rewrite !orb_false_r.
    destruct (Z.ltb_spec 0 (Z.max (Z.max r g) b)) as [Hm|Hm].
    + apply saturation_test. lia.
    + replace (Z.max (Z.max r g) b - Z.min (Z.min r g) b) with 0 by lia.
      vm_compute. reflexivity.
Qed.

Lemma of_interest_in_integers_witness :
  of_interest CROP_SAT_THRESH CROP_LUM_THRESH (250, 250, 242)
  = (9 <=? Z.max (Z.max 250 250) 242 - Z.min (Z.min 250 250) 242)
    || (luminance_milli 250 250 242 <? 220000).
Proof. apply (of_interest_in_integers 250 250 242); lia. Defined.

(** The thresholds of the scan and of the classifier nest: a colour the
    recolorers take for foreground is of interest to the scan of the
    cropper at its default thresholds. *)
Theorem foreground_is_of_interest (r g b : Z) :
  0 <= r <= 255 -> 0 <= g <= 255 -> 0 <= b <= 255 ->
  is_foreground_pixel r g b = true ->
  of_interest CROP_SAT_THRESH CROP_LUM_THRESH (r, g, b) = true.
Proof.
  intros Hr Hg Hb Hfg.
  destruct (Classify.luminance_ltb r g b 220 Hr Hg Hb ltac:(cbn; lia)) as [Hlt _].
  destruct (Classify.luminance_ltb r g b 205 Hr Hg Hb ltac:(cbn; lia)) as [_ Hgt].
  unfold of_interest.
  replace CROP_LUM_THRESH with (Py.float_of_int 220) by (vm_compute; reflexivity).
  destruct (Z.lt_ge_cases (luminance_milli r g b) 220000) as [H|H].
  - rewrite (Hlt ltac:(lia)). apply orb_true_r.
  - apply orb_true_iff. left.
    unfold is_foreground_pixel in Hfg.
    destruct (_is_orange_accent r g b) eqn:Ha;
      [|rewrite (Hgt ltac:(lia)) in Hfg; discriminate].
    unfold _is_orange_accent in Ha. rewrite !andb_true_iff, !Z.ltb_lt in Ha.
    replace (0 <? Z.max (Z.max r g) b) with true by (symmetry; apply Z.ltb_lt; lia).
    rewrite saturation_test by lia. apply Z.leb_le. lia.
Qed.

Lemma foreground_is_of_interest_witness :
  of_interest CROP_SAT_THRESH CROP_LUM_THRESH (200, 120, 60) = true.
Proof.
  apply (foreground_is_of_interest 200 120 60); [lia | lia | lia | vm_compute; reflexivity].
Defined.

(** The luminance the script computes in binary64 is the exact weighted sum
    to within 2e-12, for channels in 0..255. *)
Theorem luminance_is_nearly_exact (r g b : Z) :
  0 <= r <= 255 -> 0 <= g <= 255 -> 0 <= b <= 255 ->
  (Rabs (F64.val (_luminance r g b) - IZR (299 * r + 587 * g + 114 * b) / 1000)
   <= 2 / 10 ^ 12)%R.
Proof.
  intros Hr Hg Hb. exact (proj2 (Luminance.luminance_error r g b Hr Hg Hb)).
Qed.

Lemma luminance_is_nearly_exact_witness :
  (Rabs (F64.val (_luminance 197 225 123) - IZR (299 * 197 + 587 * 225 + 114 * 123) / 1000)
   <= 2 / 10 ^ 12)%R.
Proof. apply (luminance_is_nearly_exact 197 225 123); lia. Defined.

(** The recolorers work pixel by pixel: two sources of one size that agree
    at a position give variants that agree there. *)
Theorem recolorers_are_pointwise (a b : Image) (x y : Z) :
  PIL.size a = PIL.size b ->
  0 <= x < width a -> 0 <= y < height a ->
  load a x y = load b x y ->
  load (create_dark_icon a) x y = load (create_dark_icon b) x y
  /\ load (create_tinted_icon a) x y = load (create_tinted_icon b) x y.
Proof.
  unfold PIL.size. intros E Hx Hy Hp. injection E as Ew Eh.
  rewrite !create_dark_icon_load, !create_tinted_icon_load by (rewrite <- ?Ew, <- ?Eh; assumption).
  now rewrite Hp, Eh.
Qed.

Lemma recolorers_are_pointwise_witness :
  load (create_dark_icon Sample.block_4x4) 0 0
  = load (create_dark_icon (PIL.putpixel Sample.block_4x4 3 3 Sample.K)) 0 0
  /\ load (create_tinted_icon Sample.block_4x4) 0 0
     = load (create_tinted_icon (PIL.putpixel Sample.block_4x4 3 3 Sample.K)) 0 0.
Proof.
  apply (recolorers_are_pointwise Sample.block_4x4 (PIL.putpixel Sample.block_4x4 3 3 Sample.K) 0 0);
    [reflexivity | cbn; lia | cbn; lia | reflexivity].
Defined.

(** ** The crop keeps a window of the image *)

Module Inside.

Import F64 IEEE Geometry Arith64.
#[local] Open Scope R_scope.

(** One axis of the crop again: the clamped square keeps at least one
    column (row) of the image. *)
Lemma axis_inside (w sw lo_k hi_k lo hi side2 L : Z) (s : R) :
  0 < s <= 1 -> (1 <= w)%Z ->
  IZR sw <= IZR w * s + / 2 + eps ->
  (0 <= lo_k < hi_k)%Z -> (hi_k < sw)%Z ->
  Rabs (IZR lo - IZR lo_k * / s) <= / 2 + eps ->
  Rabs (IZR hi - IZR (hi_k + 1) * / s) <= / 2 + eps ->
  (1 <= side2)%Z -> (side2 = 1 -> hi - lo = 1)%Z ->
  Rabs (IZR L - (IZR (lo + hi) - IZR side2) / 2) <= / 2 + eps ->
  (0 <= Z.max 0 L < Z.min w (L + side2))%Z /\ (Z.min w (L + side2) <= w)%Z.
Proof.
  intros Hs Hw Hsw Hk Hk' Hlo Hhi H2 H1 HL. unfold eps in *.
  set (r := / s) in *.
  assert (Hr1 : 1 <= r).
  { unfold r. rewrite <- Rinv_1. apply Rinv_le_contravar; lra. }
  assert (HA0 : 0 <= IZR lo_k) by (apply IZR_le; lia).
  assert (HAB : IZR lo_k + 2 <= IZR (hi_k + 1)).
  { rewrite <- (plus_IZR lo_k 2). apply IZR_le. lia. }
  assert (HBC : IZR (hi_k + 1) <= IZR sw) by (apply IZR_le; lia).
  assert (HA : 0 <= IZR lo_k * r) by (apply Rmult_le_pos; lra).
  assert (HB : (IZR lo_k + 2) * r <= IZR (hi_k + 1) * r) by (apply Rmult_le_compat_r; lra).
  assert (HB' : IZR (hi_k + 1) * r <= IZR sw * r) by (apply Rmult_le_compat_r; lra).
  assert (HD : IZR sw * r <= (IZR w * s + / 2 + / 10000) * r)
    by (apply Rmult_le_compat_r; lra).
  assert (HE : (IZR w * s + / 2 + / 10000) * r = IZR w + (/ 2 + / 10000) * r)
    by (unfold r; field; lra).
  apply Rabs_le_inv in Hlo, Hhi, HL.
  rewrite plus_IZR in HL.
  assert (HW : 1 <= IZR w) by (apply IZR_le; lia).
  assert (HS2 : 1 <= IZR side2) by (apply IZR_le; lia).
  assert (Hlo0 : (0 <= lo)%Z).
  { apply Z.lt_succ_r. apply lt_IZR. rewrite succ_IZR. lra. }
  assert (Hlh : (lo + 1 <= hi)%Z).
  { apply Z.lt_succ_r. apply lt_IZR. rewrite succ_IZR, plus_IZR. lra. }
  assert (Hlow : (lo <= w - 1)%Z).
  { apply Z.lt_succ_r. apply lt_IZR. rewrite succ_IZR, minus_IZR. lra. }
  assert (HLw : (L <= w - 1)%Z).
  { destruct (Z.eq_dec side2 1) as [E1|E1].
    - specialize (H1 E1). assert (Hh : IZR hi = IZR lo + 1).
      { rewrite <- (plus_IZR lo 1). f_equal. lia. }
      assert (HS21 : IZR side2 = 1) by (now rewrite E1).
      assert ((L <= lo)%Z); [|lia].
      apply Z.lt_succ_r. apply lt_IZR. rewrite succ_IZR. lra.
    - assert (HS22 : 2 <= IZR side2) by (apply IZR_le; lia).
      apply Z.lt_succ_r. apply lt_IZR. rewrite succ_IZR, minus_IZR. lra. }
  assert (HL0 : (1 <= L + side2)%Z).
  { assert (Hlr : 0 <= IZR lo) by (apply IZR_le; lia).
    assert (Hhr : IZR lo + 1 <= IZR hi).
    { rewrite <- (plus_IZR lo 1). apply IZR_le. lia. }
    assert ((0 < L + side2)%Z); [|lia].
    apply lt_IZR. rewrite plus_IZR. lra. }
  lia.
Qed.

(** Lines 116-143 on the path past line 112: the clamped square lies
    inside the image and keeps at least one pixel. *)
Lemma square_box_inside (w h : Z) (scale : float) (sw sh min_x min_y max_x max_y : Z) :
  (1 <= w < 2 ^ 31)%Z -> (1 <= h < 2 ^ 31)%Z ->
  downscale w h CROP_DOWNSCALE_MAX = Some (scale, sw, sh) ->
  (0 <= min_x < max_x)%Z -> (max_x < sw)%Z ->
  (0 <= min_y < max_y)%Z -> (max_y < sh)%Z ->
  exists sq_left sq_top sq_right sq_bottom,
    square_box w h scale CROP_INSET_PERCENT (min_x, min_y, max_x, max_y)
    = Some (sq_left, sq_top, sq_right, sq_bottom)
    /\ (0 <= sq_left < sq_right)%Z /\ (sq_right <= w)%Z
    /\ (0 <= sq_top < sq_bottom)%Z /\ (sq_bottom <= h)%Z.
Proof.
  intros Hw Hh Hd Hx Hx' Hy Hy'.
  destruct (downscale_spec w h Hw Hh)
    as (scale' & sw' & sh' & Hd' & Hps & Hs & Hs22 & _ & _ & Hsw & Hsh).
  rewrite Hd in Hd'. injection Hd' as <- <- <-.
  specialize (Hsw ltac:(lia)). specialize (Hsh ltac:(lia)).
  destruct (inverse_spec scale Hps Hs) as (inv & Einv & Hpi & His).
  unfold square_box. rewrite Einv. cbv zeta.
  set (left0 := Py.round (Py.float_of_int min_x * inv)).
  set (top0 := Py.round (Py.float_of_int min_y * inv)).
  set (right0 := Py.round (Py.float_of_int (max_x + 1) * inv)).
  set (bottom0 := Py.round (Py.float_of_int (max_y + 1) * inv)).
  set (side := Z.max (right0 - left0) (bottom0 - top0)).
  set (inset_px := Py.round (Py.float_of_int side * (CROP_INSET_PERCENT / 100))).
  replace (left0 + inset_px + (right0 - inset_px))%Z with (left0 + right0)%Z by lia.
  replace (top0 + inset_px + (bottom0 - inset_px))%Z with (top0 + bottom0)%Z by lia.
  replace (Z.max (right0 - inset_px - (left0 + inset_px)) (bottom0 - inset_px - (top0 + inset_px)))
    with (side - 2 * inset_px)%Z by (unfold side; lia).
  set (L := Py.round (Py.float_of_int (left0 + right0) / 2
                      - Py.float_of_int (side - 2 * inset_px) / 2)).
  set (T := Py.round (Py.float_of_int (top0 + bottom0) / 2
                      - Py.float_of_int (side - 2 * inset_px) / 2)).
  do 4 eexists. split; [reflexivity|].
  assert (Hcap : forall n k : Z, (1 <= n < 2 ^ 31)%Z ->
            (IZR k <= IZR n * val scale + / 2 + eps)%R ->
            (IZR k <= 4294967296 * val scale)%R).
  { intros n k Hn Hk. unfold eps in Hk.
    assert (1 <= IZR n <= 2147483648)%R.
    { split; [apply IZR_le; lia|]. apply IZR_le. change (2 ^ 31)%Z with 2147483648%Z in Hn. lia. }
    nra. }
  assert (Hpos : forall n sz k : Z, (1 <= n < 2 ^ 31)%Z ->
            (IZR sz <= IZR n * val scale + / 2 + eps)%R -> (0 <= k <= sz)%Z ->
            (Rabs (IZR (Py.round (Py.float_of_int k * inv)) - IZR k * / val scale)
             <= / 2 + eps)%R).
  { intros n sz k Hn Hsz Hk. apply position; try assumption; try lia.
    apply Rle_trans with (IZR sz); [apply IZR_le; lia | now apply (Hcap n)]. }
  pose proof (Hpos w sw min_x Hw Hsw ltac:(lia)) as Hl. fold left0 in Hl.
  pose proof (Hpos w sw (max_x + 1)%Z Hw Hsw ltac:(lia)) as Hr. fold right0 in Hr.
  pose proof (Hpos h sh min_y Hh Hsh ltac:(lia)) as Ht. fold top0 in Ht.
  pose proof (Hpos h sh (max_y + 1)%Z Hh Hsh ltac:(lia)) as Hb. fold bottom0 in Hb.
  destruct (axis_bounds w sw min_x max_x left0 right0 (val scale) Hs Hs22 Hw Hsw Hx Hx' Hl Hr)
    as (Hl0 & Hlr & Hr32).
  destruct (axis_bounds h sh min_y max_y top0 bottom0 (val scale) Hs Hs22 Hh Hsh Hy Hy' Ht Hb)
    as (Ht0 & Htb & Hb32).
  assert (Hside : (1 <= side <= 2 ^ 32)%Z) by (unfold side; lia).
  assert (H3233 : (2 ^ 32 < 2 ^ 33)%Z) by (apply Z.pow_lt_mono_r; lia).
  assert (H3334 : (2 ^ 33 < 2 ^ 34)%Z) by (apply Z.pow_lt_mono_r; lia).
  assert (E33 : (2 ^ 33 = 2 * 2 ^ 32)%Z) by reflexivity.
  pose proof (inset_spec side ltac:(lia)) as Hin. cbv zeta in Hin. fold inset_px in Hin.
  destruct Hin as [Hin_hi Hin_lo].
  assert (HSr : (1 <= IZR side)%R) by (apply IZR_le; lia).
  assert (Hin0 : (0 <= inset_px)%Z).
  { apply Z.lt_succ_r. apply lt_IZR. rewrite succ_IZR. unfold eps in *. lra. }
  assert (Hside2 : (1 <= side - 2 * inset_px)%Z /\ (2 <= side -> 2 <= side - 2 * inset_px)%Z).
  { destruct (Z_le_gt_dec side 8) as [H8|H8].
    - assert (inset_px <= 0)%Z; [|lia].
      apply Z.lt_succ_r. apply lt_IZR. rewrite succ_IZR.
      assert (IZR side <= 8)%R by (apply IZR_le; lia). unfold eps in *. lra.
    - assert (1 < side - 2 * inset_px)%Z; [|lia].
      apply lt_IZR. rewrite minus_IZR, mult_IZR.
      assert (9 <= IZR side)%R by (apply IZR_le; lia). unfold eps in *. lra. }
  destruct Hside2 as [Hside2 Hside2'].
  pose proof (center_spec (left0 + right0) (side - 2 * inset_px) ltac:(lia) ltac:(lia)) as HL.
  fold L in HL.
  pose proof (center_spec (top0 + bottom0) (side - 2 * inset_px) ltac:(lia) ltac:(lia)) as HT.
  fold T in HT.
  destruct (axis_inside w sw min_x max_x left0 right0 (side - 2 * inset_px) L (val scale)
              Hs ltac:(lia) Hsw Hx Hx' Hl Hr Hside2 ltac:(unfold side in *; lia) HL)
    as [HxA HxB].
  destruct (axis_inside h sh min_y max_y top0 bottom0 (side - 2 * inset_px) T (val scale)
              Hs ltac:(lia) Hsh Hy Hy' Ht Hb Hside2 ltac:(unfold side in *; lia) HT)
    as [HyA HyB].
  repeat split; lia.
Qed.

(** Lines 85-87 again: the downscaled sides stay within the cap, the
    longer one is the cap itself when the image is larger, and an image
    within the cap is not scaled at all. *)
Lemma downscale_cap (w h : Z) :
  (1 <= w < 2 ^ 31)%Z -> (1 <= h < 2 ^ 31)%Z ->
  exists scale sw sh,
    downscale w h CROP_DOWNSCALE_MAX = Some (scale, sw, sh)
    /\ (1 <= sw <= 700)%Z /\ (1 <= sh <= 700)%Z
    /\ ((Z.max w h <= 700)%Z -> scale = 1%float /\ sw = w /\ sh = h)
    /\ ((700 < Z.max w h)%Z -> Z.max sw sh = 700%Z).
Proof.
  intros Hw Hh. pose proof u_bounds as [Hu0 Hu1]. unfold downscale, CROP_DOWNSCALE_MAX.
  set (m := Z.max w h).
  assert (Hm : (1 <= m < 2 ^ 31)%Z) by (unfold m; lia).
  assert (H31 : (2 ^ 31 < 2 ^ 53)%Z) by (apply Z.pow_lt_mono_r; lia).
  destruct (float_of_int_pnormal m ltac:(lia)) as [Hpm Vm].
  destruct (float_of_int_pnormal 700 ltac:(cbn; lia)) as [Hp7 V7].
  unfold Py.truediv. rewrite (eqb_zero _ _ _ Hpm).
  destruct (div_pnormal _ _ _ _ _ _ Hp7 Hpm ltac:(lia) ltac:(lia)) as [Hpq Herr].
  rewrite V7, Vm in Herr.
  set (q := (Py.float_of_int 700 / Py.float_of_int m)%float) in *.
  destruct one_pnormal as [Hp1 V1].
  pose proof (ltb_pnormal q 1 _ _ _ _ Hpq Hp1) as Hlt. rewrite V1 in Hlt.
  pose proof (pnormal_pos _ _ _ Hpq) as Hq0.
  assert (HM : 1 <= IZR m <= 2147483648).
  { split; [apply IZR_le; lia|]. apply IZR_le. change (2 ^ 31)%Z with 2147483648%Z in Hm. lia. }
  assert (Ht : 700 / IZR m * IZR m = 700) by (field; lra).
  set (t := 700 / IZR m) in *.
  apply Rabs_le_inv in Herr.
  assert (Huq : u * val q <= / 1000 * val q) by (apply Rmult_le_compat_r; lra).
  (* a side of the image, scaled and rounded *)
  assert (Hside : forall (n : Z) (sc : float), (1 <= n <= m)%Z -> pnormal sc (-106) 2 ->
            Rabs (IZR (Py.round (Py.float_of_int n * sc)) - IZR n * val sc)
            <= / 2 + 2 * u * (IZR n * val sc)).
  { intros n sc Hn Hsc. apply (scaled_round n sc (-106) 2); [lia | assumption | lia | lia]. }
  destruct (Z_le_gt_dec m 700) as [Hle|Hgt].
  - (* within the cap: the scale is 1.0 *)
    assert (Hq1 : PrimFloat.ltb q 1 = false).
    { destruct (Z.eq_dec m 700) as [E|E].
      - unfold q. rewrite E. vm_compute. reflexivity.
      - apply not_true_is_false. intros Hc. apply Hlt in Hc.
        assert (Hm' : IZR m <= 699) by (apply IZR_le; lia).
        assert (Ht1 : 700 <= t * 699).
        { rewrite <- Ht. apply Rmult_le_compat_l; [|lra].
          unfold t. apply Rlt_le, Rdiv_lt_0_compat; lra. }
        lra. }
    unfold Py.fmin. rewrite Hq1.
    assert (Hsame : forall n : Z, (1 <= n <= m)%Z ->
              Z.max 1 (Py.round (Py.float_of_int n * 1)) = n).
    { intros n Hn. pose proof (Hside n 1%float Hn
                                 (pnormal_weaken 1%float (-52) (-52) (-106) 2 Hp1 ltac:(lia) ltac:(lia))) as Hr.
      rewrite V1, Rmult_1_r in Hr. apply Rabs_le_inv in Hr.
      assert (HN : 1 <= IZR n <= 700) by (split; apply IZR_le; lia).
      assert (HuN : u * IZR n <= / 1000000000000000 * 700) by (apply Rmult_le_compat; lra).
      assert (Hlo : (n - 1 < Py.round (Py.float_of_int n * 1))%Z).
      { apply lt_IZR. rewrite minus_IZR. lra. }
      assert (Hhi : (Py.round (Py.float_of_int n * 1) < n + 1)%Z).
      { apply lt_IZR. rewrite plus_IZR. lra. }
      lia. }
    exists 1%float, (Z.max 1 (Py.round (Py.float_of_int w * 1))),
      (Z.max 1 (Py.round (Py.float_of_int h * 1))).
    split; [reflexivity|].
    rewrite !Hsame by (unfold m; lia).
    split; [unfold m in *; lia|]. split; [unfold m in *; lia|].
    split; [tauto | lia].
  - (* larger: the scale is 700 / max(w, h), below 1 *)
    assert (Hm' : 701 <= IZR m) by (apply IZR_le; lia).
    assert (Ht0 : 0 < t) by (unfold t; apply Rdiv_lt_0_compat; lra).
    assert (Ht1 : t * 701 <= 700).
    { rewrite <- Ht. apply Rmult_le_compat_l; lra. }
    assert (Hvq : val q < 1) by lra.
    assert (Hq1 : PrimFloat.ltb q 1 = true) by (apply Hlt; exact Hvq).
    unfold Py.fmin. rewrite Hq1.
    assert (Hqm : 700 - / 1000 <= IZR m * val q <= 700 + / 1000).
    { assert (Hum : u * val q * IZR m <= / 1000000000000000 * (1 * 2147483648)).
      { rewrite Rmult_assoc. apply Rmult_le_compat; try lra.
        - apply Rmult_le_pos; lra.
        - apply Rmult_le_compat; lra. }
      assert (E1 : (val q - t) * IZR m = IZR m * val q - 700) by (rewrite <- Ht; ring).
      assert (E2 : (val q - t) * IZR m <= u * val q * IZR m)
        by (apply Rmult_le_compat_r; lra).
      assert (E3 : - (u * val q) * IZR m <= (val q - t) * IZR m)
        by (apply Rmult_le_compat_r; lra).
      lra. }
    assert (Hcapn : forall n : Z, (1 <= n <= m)%Z ->
              (Z.max 1 (Py.round (Py.float_of_int n * q)) <= 700)%Z
              /\ (n = m -> Z.max 1 (Py.round (Py.float_of_int n * q)) = 700%Z)).
    { intros n Hn. pose proof (Hside n q Hn Hpq) as Hr. apply Rabs_le_inv in Hr.
      assert (HN : 1 <= IZR n <= IZR m) by (split; apply IZR_le; lia).
      assert (Hnq : 0 <= IZR n * val q <= IZR m * val q).
      { split; [apply Rmult_le_pos; lra | apply Rmult_le_compat_r; lra]. }
      assert (Hunq : u * (IZR n * val q) <= / 1000000000000000 * 701)
        by (apply Rmult_le_compat; lra).
      assert (Hhi : (Py.round (Py.float_of_int n * q) < 701)%Z).
      { apply lt_IZR. lra. }
      split; [lia|]. intros ->.
      assert (Hlo : (699 < Py.round (Py.float_of_int m * q))%Z).
      { apply lt_IZR. lra. }
      lia. }
    exists q, (Z.max 1 (Py.round (Py.float_of_int w * q))),
      (Z.max 1 (Py.round (Py.float_of_int h * q))).
    split; [reflexivity|].
    destruct (Hcapn w ltac:(unfold m; lia)) as [Hw1 Hw2].
    destruct (Hcapn h ltac:(unfold m; lia)) as [Hh1 Hh2].
    split; [lia|]. split; [lia|]. split; [lia|]. intros _.
    destruct (Z.max_spec w h) as [[_ E]|[_ E]]; fold m in E.
    + rewrite (Hh2 (eq_sym E)) in *. lia.
    + rewrite (Hw2 (eq_sym E)) in *. lia.
Qed.

End Inside.

Lemma square_box_of_scan_inside (resample : Filter) (img : Image)
    (sat_thresh lum_thresh scale : float) (small : Image) :
  1 <= width img < 2 ^ 31 -> 1 <= height img < 2 ^ 31 ->
  downscaled resample img CROP_DOWNSCALE_MAX = Some (scale, small) ->
  degenerate (scan_bounds sat_thresh lum_thresh small) = false ->
  exists sq_left sq_top sq_right sq_bottom,
    square_box (width img) (height img) scale CROP_INSET_PERCENT
      (scan_bounds sat_thresh lum_thresh small)
    = Some (sq_left, sq_top, sq_right, sq_bottom)
    /\ (0 <= sq_left < sq_right) /\ sq_right <= width img
    /\ (0 <= sq_top < sq_bottom) /\ sq_bottom <= height img.
Proof.
  intros Hw Hh Hd Hdeg.
  pose proof (downscaled_size _ _ _ _ _ Hd) as [Hsw Hsh].
  apply downscaled_inv in Hd.
  destruct (scan_bounds sat_thresh lum_thresh small) as [[[min_x min_y] max_x] max_y] eqn:Hs.
  destruct (scan_bounds_range _ _ _ _ _ _ _ Hsw Hsh Hs Hdeg) as (Hx & Hx' & Hy & Hy').
  exact (Inside.square_box_inside _ _ _ _ _ _ _ _ _ Hw Hh Hd Hx Hx' Hy Hy').
Qed.

(** A crop inside the image reads the image, and the padding centres it on
    white. *)
Lemma pad_of_crop (img : Image) (l t r b : Z) (cropped : Image) :
  0 <= l < r -> r <= width img -> 0 <= t < b -> b <= height img ->
  PIL.crop img (l, t, r, b) = Some cropped ->
  let cw := r - l in
  let ch := b - t in
  let s := Z.max cw ch in
  let px := (s - cw) / 2 in
  let py := (s - ch) / 2 in
  PIL.size (pad_to_square cropped) = (s, s)
  /\ forall x y, 0 <= x < s -> 0 <= y < s ->
       load (pad_to_square cropped) x y
       = if (px <=? x) && (x <? px + cw) && (py <=? y) && (y <? py + ch)
         then load img (x - px + l) (y - py + t)
         else (255, 255, 255).
Proof.
  intros Hl Hr Ht Hb Hc cw ch s px py. unfold PIL.crop in Hc.
  replace ((r <? l) || (b <? t)) with false in Hc
    by (symmetry; apply orb_false_iff; split; apply Z.ltb_ge; lia).
  injection Hc as <-. unfold pad_to_square, PIL.size. cbn [width height]. fold cw ch.
  assert (Hin : forall x y, 0 <= x < cw -> 0 <= y < ch ->
            (0 <=? x + l) && (x + l <? width img) && (0 <=? y + t) && (y + t <? height img)
            = true).
  { intros x y Hx Hy. unfold cw, ch in *.
    rewrite !andb_true_iff, !Z.leb_le, !Z.ltb_lt. lia. }
  destruct (Z.eqb_spec cw ch) as [E|E]; cbn [negb].
  - cbn [width height load]. fold cw ch.
    assert (Es : s = cw) by (unfold s; lia).
    assert (Epx : px = 0) by (unfold px; rewrite Es, Z.sub_diag; reflexivity).
    assert (Epy : py = 0) by (unfold py; rewrite Es, E, Z.sub_diag; reflexivity).
    split; [rewrite Es; now rewrite <- E|].
    intros x y Hx Hy. rewrite Epx, Epy, !Z.sub_0_r, !Z.add_0_l.
    rewrite Hin by lia.
    replace ((0 <=? x) && (x <? cw) && (0 <=? y) && (y <? ch)) with true; [reflexivity|].
    symmetry. rewrite !andb_true_iff, !Z.leb_le, !Z.ltb_lt. lia.
  - fold s. unfold PIL.paste, PIL.new. cbn [width height load]. fold cw ch px py.
    split; [reflexivity|].
    intros x y Hx Hy.
    destruct ((px <=? x) && (x <? px + cw) && (py <=? y) && (y <? py + ch)) eqn:Ein;
      [|reflexivity].
    rewrite !andb_true_iff, !Z.leb_le, !Z.ltb_lt in Ein.
    now rewrite Hin by lia.
Qed.

(** What the cropper returns is the input itself or a window of it: a
    rectangle of the input that holds at least one pixel, copied pixel for
    pixel and centred on a white square of the longer side of the
    rectangle.  There is no other pixel in it, and none from outside the
    input. *)
Theorem crop_is_a_window (resample : Filter) (img : Image)
    (sat_thresh lum_thresh : float) (out : Image) :
  1 <= width img < 2 ^ 31 -> 1 <= height img < 2 ^ 31 ->
  crop_to_gradient_tile_square resample img sat_thresh lum_thresh
    CROP_INSET_PERCENT CROP_DOWNSCALE_MAX = Some out ->
  out = img
  \/ exists l t r b,
       (0 <= l < r) /\ r <= width img /\ (0 <= t < b) /\ b <= height img
       /\ PIL.size out = (Z.max (r - l) (b - t), Z.max (r - l) (b - t))
       /\ forall x y,
            0 <= x < Z.max (r - l) (b - t) -> 0 <= y < Z.max (r - l) (b - t) ->
            load out x y
            = if ((Z.max (r - l) (b - t) - (r - l)) / 2 <=? x)
                 && (x <? (Z.max (r - l) (b - t) - (r - l)) / 2 + (r - l))
                 && ((Z.max (r - l) (b - t) - (b - t)) / 2 <=? y)
                 && (y <? (Z.max (r - l) (b - t) - (b - t)) / 2 + (b - t))
              then load img (x - (Z.max (r - l) (b - t) - (r - l)) / 2 + l)
                            (y - (Z.max (r - l) (b - t) - (b - t)) / 2 + t)
              else (255, 255, 255).
Proof.
  intros Hw Hh Hout.
  destruct (downscaled resample img CROP_DOWNSCALE_MAX) as [[scale small]|] eqn:Hd.
  - rewrite (crop_to_gradient_tile_square_eq _ _ _ _ _ _ _ _ Hd) in Hout.
    destruct (degenerate _) eqn:Hdeg.
    + left. now injection Hout as <-.
    + right.
      destruct (square_box_of_scan_inside resample img sat_thresh lum_thresh _ _ Hw Hh Hd Hdeg)
        as (l & t & r & b & Hbox & Hl & Hr & Ht & Hb).
      rewrite Hbox in Hout.
      destruct (PIL.crop img (l, t, r, b)) as [cropped|] eqn:Hc; [|discriminate].
      injection Hout as <-.
      pose proof (pad_of_crop img l t r b cropped Hl Hr Ht Hb Hc) as H. cbv zeta in H.
      exists l, t, r, b. tauto.
  - unfold crop_to_gradient_tile_square, PIL.convert_RGB, PIL.size in Hout.
    rewrite Hd in Hout. discriminate.
Qed.

Lemma crop_is_a_window_witness :
  Sample.block_cropped = Sample.block_4x4
  \/ exists l t r b,
       (0 <= l < r) /\ r <= width Sample.block_4x4
       /\ (0 <= t < b) /\ b <= height Sample.block_4x4
       /\ PIL.size Sample.block_cropped = (Z.max (r - l) (b - t), Z.max (r - l) (b - t))
       /\ forall x y,
            0 <= x < Z.max (r - l) (b - t) -> 0 <= y < Z.max (r - l) (b - t) ->
            load Sample.block_cropped x y
            = if ((Z.max (r - l) (b - t) - (r - l)) / 2 <=? x)
                 && (x <? (Z.max (r - l) (b - t) - (r - l)) / 2 + (r - l))
                 && ((Z.max (r - l) (b - t) - (b - t)) / 2 <=? y)
                 && (y <? (Z.max (r - l) (b - t) - (b - t)) / 2 + (b - t))
              then load Sample.block_4x4 (x - (Z.max (r - l) (b - t) - (r - l)) / 2 + l)
                                         (y - (Z.max (r - l) (b - t) - (b - t)) / 2 + t)
              else (255, 255, 255).
Proof.
  apply (crop_is_a_window Sample.nearest Sample.block_4x4 CROP_SAT_THRESH CROP_LUM_THRESH).
  - cbn. lia.
  - cbn. lia.
  - vm_compute. reflexivity.
Defined.

(** The downscaled copy the scan walks is at most 700 pixels a side: the
    longer side is 700 exactly when the image is larger than that, and an
    image within the cap is scanned as it is, on a scale of 1.0. *)
Theorem downscaled_within_cap (resample : Filter) (img : Image)
    (scale : float) (small : Image) :
  1 <= width img < 2 ^ 31 -> 1 <= height img < 2 ^ 31 ->
  downscaled resample img CROP_DOWNSCALE_MAX = Some (scale, small) ->
  (1 <= width small <= 700) /\ (1 <= height small <= 700)
  /\ (Z.max (width img) (height img) <= 700 -> scale = 1%float /\ small = img)
  /\ (700 < Z.max (width img) (height img) -> Z.max (width small) (height small) = 700).
Proof.
  intros Hw Hh Hd.
  destruct (Inside.downscale_cap _ _ Hw Hh) as (scale' & sw & sh & Hds & Hsw & Hsh & Hle & Hgt).
  pose proof (downscaled_inv _ _ _ _ _ Hd) as Hinv. fold CROP_DOWNSCALE_MAX in Hinv.
  rewrite Hds in Hinv. injection Hinv as -> -> ->.
  split; [exact Hsw|]. split; [exact Hsh|]. split; [|exact Hgt].
  intros Hm. destruct (Hle Hm) as (E1 & E2 & E3). split; [exact E1|].
  unfold downscaled, PIL.convert_RGB, PIL.size in Hd. rewrite Hds in Hd.
  injection Hd as <-. unfold PIL.resize.
  now rewrite E2, E3, !Z.eqb_refl.
Qed.

Lemma downscaled_within_cap_witness :
  (1 <= width Sample.block_4x4 <= 700) /\ (1 <= height Sample.block_4x4 <= 700)
  /\ (Z.max (width Sample.block_4x4) (height Sample.block_4x4) <= 700 ->
      1%float = 1%float /\ Sample.block_4x4 = Sample.block_4x4)
  /\ (700 < Z.max (width Sample.block_4x4) (height Sample.block_4x4) ->
      Z.max (width Sample.block_4x4) (height Sample.block_4x4) = 700).
Proof.
  apply (downscaled_within_cap Sample.nearest Sample.block_4x4 1%float Sample.block_4x4).
  - cbn. lia.
  - cbn. lia.
  - vm_compute. reflexivity.
Defined.

(** ** The run and its files *)

Module Run.

Import String Ascii Script.







Section Paths.

Variable SCRIPT_DIR : string.









End Paths.






(** Without its source a run ends in [FileNotFoundError] at once: one
    message printed, no file written. *)
Theorem run_without_source (SCRIPT_DIR : string) (resample : Filter) (w : World) :
  files w (ORIGINAL_SOURCE SCRIPT_DIR) = None ->
  main SCRIPT_DIR resample w
  = (mkWorld (files w) (writable w) (stdout w ++ ["Loading original artwork..."%string])%list,
     inr (FileNotFoundError (ORIGINAL_SOURCE SCRIPT_DIR))).
Proof.
  intros Hsrc. unfold main, bind, print, Image_open.
  cbn [files writable stdout]. now rewrite Hsrc.
Qed.

Lemma run_without_source_witness :
  main "/app" Sample.nearest (mkWorld (fun _ => None) (fun _ => true) [])
  = (mkWorld (fun _ => None) (fun _ => true) ["Loading original artwork..."%string],
     inr (FileNotFoundError (ORIGINAL_SOURCE "/app"))).
Proof.
  apply (run_without_source "/app" Sample.nearest
           (mkWorld (fun _ => None) (fun _ => true) [])).
  reflexivity.
Defined.



(** A source above Pillow's size limit is refused: the run ends in
    [DecompressionBombError] at [Image.open], one message printed, no file
    written. *)
Theorem run_refuses_oversized_source (SCRIPT_DIR : string) (resample : Filter)
    (w : World) (original : Image) :
  files w (ORIGINAL_SOURCE SCRIPT_DIR) = Some original ->
  (1 <= width original)%Z -> (1 <= height original)%Z ->
  (2 * PIL.MAX_IMAGE_PIXELS < width original * height original)%Z ->
  main SCRIPT_DIR resample w
  = (mkWorld (files w) (writable w) (stdout w ++ ["Loading original artwork..."%string])%list,
     inr DecompressionBombError).
Proof.
  intros Hsrc Hw Hh Hbig. unfold main, bind, print, Image_open.
  cbn [files writable stdout]. rewrite Hsrc.
  unfold PIL._decompression_bomb_check, PIL.size. cbn [fst snd].
  rewrite !Z.max_r by lia.
  replace (2 * PIL.MAX_IMAGE_PIXELS <? width original * height original)%Z with true;
    [reflexivity|].
  symmetry. apply Z.ltb_lt. exact Hbig.
Qed.

Lemma run_refuses_oversized_source_witness :
  main "/app" Sample.nearest
    (world_with (ORIGINAL_SOURCE "/app") (PIL.new 16000 16000 Sample.K))
  = (mkWorld (files (world_with (ORIGINAL_SOURCE "/app") (PIL.new 16000 16000 Sample.K)))
       (writable (world_with (ORIGINAL_SOURCE "/app") (PIL.new 16000 16000 Sample.K)))
       (stdout (world_with (ORIGINAL_SOURCE "/app") (PIL.new 16000 16000 Sample.K))
        ++ ["Loading original artwork..."%string])%list,
     inr DecompressionBombError).
Proof.
  apply (run_refuses_oversized_source "/app" Sample.nearest
           (world_with (ORIGINAL_SOURCE "/app") (PIL.new 16000 16000 Sample.K))
           (PIL.new 16000 16000 Sample.K)).
  - vm_compute. reflexivity.
  - cbn. lia.
  - cbn. lia.
  - vm_compute. reflexivity.
Defined.

End Run.
